(** * ingress-to-gateway: conversion, validation and readiness analysis

    A shallow embedding of the conversion engine ([pkg/converter]), of the
    timeout checks of the validator ([pkg/validator]) and of the readiness
    classifier ([pkg/analyzer]), together with the properties the design
    document states about them; then of the other checks of the validator
    ([routecheck]), of the rest of the analyzer ([analysis]) and of the
    loops of the batch command ([batch]), with further properties of the
    code.

    Conventions of the embedding:
    - Go [int] is the 64-bit signed integer; values are in [Z] and the
      wrap-around of arithmetic is written out ([wrapInt]).
    - Go strings are [string]; [map[string]T] is [gmap string T].
    - A Go function returning [(T, error)] returns a [result T]; a nil
      pointer dereference is the outcome [Panic].
    - The iteration order of [range] over a Go map is not specified by the
      language; every function that ranges over a map takes the order as
      an explicit [RangeOrder]. *)

From Stdlib Require Import ZArith Ascii String.
From stdpp Require Import gmap strings list fin_maps pretty.

Local Open Scope string_scope.
Local Open Scope list_scope.
Local Open Scope Z_scope.

(** ** Outcomes of fallible Go code *)

Inductive result (A : Type) : Type :=
| Ok (a : A)            (* returned value with a nil error *)
| Err (msg : string)    (* non-nil error, with its message *)
| Panic.                (* run-time panic (nil pointer dereference) *)

Arguments Ok {A} a.
Arguments Err {A} msg.
Arguments Panic {A}.

#[global] Instance result_ret : MRet result := λ A a, Ok a.

#[global] Instance result_bind : MBind result := λ A B k r,
  match r with
  | Ok a => k a
  | Err e => Err e
  | Panic => Panic
  end.

(** ** The Go [int] type *)

Definition maxInt : Z := 2 ^ 63 - 1.
Definition minInt : Z := - 2 ^ 63.

Definition wrapInt (z : Z) : Z := (z + 2 ^ 63) mod 2 ^ 64 - 2 ^ 63.

(** ** The parts of the Go standard library the code calls *)

Module strconv.

Definition isDigit (c : ascii) : bool :=
  let n := N_of_ascii c in ((48 <=? n) && (n <=? 57))%N.

Definition digitVal (c : ascii) : Z := Z.of_N (N_of_ascii c) - 48.

Fixpoint parseDigits (s : string) (acc : Z) : option Z :=
  match s with
  | EmptyString => Some acc
  | String c r =>
      if isDigit c then parseDigits r (10 * acc + digitVal c) else None
  end.

(** [Atoi s] is [(value, ok)].  On a syntax error the value is 0; on a
    range error it is the nearest representable [int]. *)
Definition Atoi (s : string) : Z * bool :=
  match s with
  | EmptyString => (0, false)
  | String c r =>
      let '(neg, body) :=
        if Ascii.eqb c "-" then (true, r)
        else if Ascii.eqb c "+" then (false, r)
        else (false, s) in
      match body with
      | EmptyString => (0, false)
      | _ =>
          match parseDigits body 0 with
          | None => (0, false)
          | Some n =>
              let v := if neg then - n else n in
              if maxInt <? v then (maxInt, false)
              else if v <? minInt then (minInt, false)
              else (v, true)
          end
      end
  end.

(** [fmt.Sprintf("%d", n)] *)
Definition Itoa (n : Z) : string := pretty n.

End strconv.

Module gostrings.

(** [strings.Split(s, sep)] for a one-byte separator. *)
Fixpoint Split (s : string) (sep : ascii) : list string :=
  match s with
  | EmptyString => [EmptyString]
  | String c r =>
      if Ascii.eqb c sep then EmptyString :: Split r sep
      else match Split r sep with
           | h :: t => String c h :: t
           | [] => [String c EmptyString]
           end
  end.

Fixpoint Join (elems : list string) (sep : string) : string :=
  match elems with
  | [] => ""
  | [e] => e
  | e :: rest => e +:+ sep +:+ Join rest sep
  end.

(** [strings.ToLower] on ASCII text. *)
Definition lowerByte (c : ascii) : ascii :=
  let n := N_of_ascii c in
  if ((65 <=? n) && (n <=? 90))%N then ascii_of_N (n + 32) else c.

Fixpoint ToLower (s : string) : string :=
  match s with
  | EmptyString => EmptyString
  | String c r => String (lowerByte c) (ToLower r)
  end.

Fixpoint TrimLeft (s : string) (cut : ascii) : string :=
  match s with
  | EmptyString => EmptyString
  | String c r => if Ascii.eqb c cut then TrimLeft r cut else s
  end.

Definition TrimRight (s : string) (cut : ascii) : string :=
  String.rev (TrimLeft (String.rev s) cut).

(** [strings.Trim(s, cutset)] for a one-byte cutset. *)
Definition Trim (s : string) (cut : ascii) : string :=
  TrimRight (TrimLeft s cut) cut.

End gostrings.

(** ** Source resources: [k8s.io/api/networking/v1] *)

Module networkingv1.

Inductive PathType :=
| PathTypeExact
| PathTypePrefix
| PathTypeImplementationSpecific.

Record ServiceBackendPort := {
  port_Name : string;
  Number : Z
}.

Record IngressServiceBackend := {
  svc_Name : string;
  Port : ServiceBackendPort
}.

(** [Service] is a pointer: a backend that refers to a resource instead
    of a service leaves it nil. *)
Record IngressBackend := {
  Service : option IngressServiceBackend
}.

Record HTTPIngressPath := {
  Path : string;
  PathType_ : option PathType;
  Backend : IngressBackend
}.

(** [HTTP] is the pointer [*HTTPIngressRuleValue]; when set it holds
    the [Paths] slice. *)
Record IngressRule := {
  Host : string;
  HTTP : option (list HTTPIngressPath)
}.

Record Ingress := {
  Name : string;
  Namespace : string;
  Labels : gmap string string;
  Annotations : gmap string string;
  IngressClassName : option string;
  DefaultBackend : option IngressBackend;
  Rules : list IngressRule
}.

End networkingv1.

(** ** Target resources: [sigs.k8s.io/gateway-api/apis/v1] *)

Module gatewayv1.

Inductive PathMatchType :=
| PathMatchExact
| PathMatchPathPrefix
| PathMatchRegularExpression.

Record HTTPPathMatch := {
  pm_Type : option PathMatchType;
  pm_Value : option string
}.

Record HTTPRouteMatch := {
  Path : option HTTPPathMatch
}.

(** [HTTPBackendRef], with the embedded [BackendRef] and
    [BackendObjectReference] flattened. *)
Record HTTPBackendRef := {
  br_Name : string;
  br_Port : option Z;
  br_Weight : option Z
}.

Inductive HTTPRouteFilterType :=
| HTTPRouteFilterURLRewrite
| HTTPRouteFilterRequestRedirect
| HTTPRouteFilterRequestMirror.

Inductive HTTPPathModifierType :=
| FullPathHTTPPathModifier
| PrefixMatchHTTPPathModifier.

Record HTTPPathModifier := {
  mod_Type : HTTPPathModifierType;
  ReplaceFullPath : option string
}.

Record HTTPURLRewriteFilter := {
  rw_Path : option HTTPPathModifier
}.

Record HTTPRequestRedirectFilter := {
  rd_Hostname : option string;
  StatusCode : option Z
}.

Record HTTPRouteFilter := {
  f_Type : HTTPRouteFilterType;
  URLRewrite : option HTTPURLRewriteFilter;
  RequestRedirect : option HTTPRequestRedirectFilter
}.

Record HTTPRouteTimeouts := {
  Request : option string;
  BackendRequest : option string
}.

Record HTTPRouteRule := {
  Matches : list HTTPRouteMatch;
  Filters : list HTTPRouteFilter;
  BackendRefs : list HTTPBackendRef;
  Timeouts : option HTTPRouteTimeouts
}.

Record ParentReference := {
  pr_Name : string;
  pr_Kind : option string
}.

Record HTTPRoute := {
  APIVersion : string;
  Kind : string;
  Name : string;
  Namespace : string;
  Labels : gmap string string;
  Hostnames : list string;
  ParentRefs : list ParentReference;
  Rules : list HTTPRouteRule
}.

End gatewayv1.

(** ** Iteration order of [range] over a map

    [range] over a Go map visits every entry once, in an order the
    language leaves unspecified and that may change from one loop to the
    next.  A [RangeOrder] is one such choice: it lists the entries of the
    map in some order. *)

Record RangeOrder := {
  range_entries :> list (string * list string) → list (string * list string);
  range_entries_perm : ∀ l, range_entries l ≡ₚ l
}.

(** ** The converter: [pkg/converter/converter.go] *)

Module converter.

Import networkingv1.

Record Options := {
  SplitMode : string;     (* single, per-host, per-pattern *)
  GatewayName : string;
  GatewayClass : string;
  OutputFormat : string   (* yaml, json *)
}.

Record Converter := {
  opts : Options
}.

Definition NewConverter (o : Options) : Converter := {| opts := o |}.

(** An element of the [[]interface{}] batch handed to [Convert]. *)
Inductive Resource :=
| IngressRes (ing : Ingress)
| OtherRes.

Definition readTimeoutKey : string :=
  "nginx.ingress.kubernetes.io/proxy-read-timeout".
Definition sendTimeoutKey : string :=
  "nginx.ingress.kubernetes.io/proxy-send-timeout".
Definition rewriteTargetKey : string :=
  "nginx.ingress.kubernetes.io/rewrite-target".
Definition permanentRedirectKey : string :=
  "nginx.ingress.kubernetes.io/permanent-redirect".
Definition ingressClassKey : string := "kubernetes.io/ingress.class".

(** [extractFilters]: filters from annotations; the error is always nil. *)
Definition extractFilters (ing : Ingress)
  : result (list gatewayv1.HTTPRouteFilter) :=
  let filters : list gatewayv1.HTTPRouteFilter := [] in
  let filters :=
    match Annotations ing !! rewriteTargetKey with
    | Some rewriteTarget =>
        filters ++ [ {|
          gatewayv1.f_Type := gatewayv1.HTTPRouteFilterURLRewrite;
          gatewayv1.URLRewrite := Some {|
            gatewayv1.rw_Path := Some {|
              gatewayv1.mod_Type := gatewayv1.FullPathHTTPPathModifier;
              gatewayv1.ReplaceFullPath := Some rewriteTarget |} |};
          gatewayv1.RequestRedirect := None |} ]
    | None => filters
    end in
  let filters :=
    match Annotations ing !! permanentRedirectKey with
    | Some redirect =>
        filters ++ [ {|
          gatewayv1.f_Type := gatewayv1.HTTPRouteFilterRequestRedirect;
          gatewayv1.URLRewrite := None;
          gatewayv1.RequestRedirect := Some {|
            gatewayv1.rd_Hostname := Some redirect;
            gatewayv1.StatusCode := Some 301 |} |} ]
    | None => filters
    end in
  Ok filters.

Definition durationOfSeconds (seconds : Z) : string :=
  strconv.Itoa seconds +:+ "s".

(** [extractTimeouts]: timeout configuration from annotations; [None]
    is the nil pointer. *)
Definition extractTimeouts (ing : Ingress)
  : option gatewayv1.HTTPRouteTimeouts :=
  let timeouts : option gatewayv1.HTTPRouteTimeouts := None in
  (* proxy-read-timeout *)
  let timeouts :=
    match Annotations ing !! readTimeoutKey with
    | Some readTimeout =>
        match strconv.Atoi readTimeout with
        | (seconds, true) =>
            let duration := durationOfSeconds seconds in
            (* both timeouts are set *)
            Some {| gatewayv1.Request := Some duration;
                    gatewayv1.BackendRequest := Some duration |}
        | (_, false) => timeouts
        end
    | None => timeouts
    end in
  (* proxy-send-timeout *)
  let timeouts :=
    match Annotations ing !! sendTimeoutKey with
    | Some sendTimeout =>
        match strconv.Atoi sendTimeout with
        | (seconds, true) =>
            let duration := durationOfSeconds seconds in
            let t :=
              match timeouts with
              | Some t => t
              | None => {| gatewayv1.Request := None;
                           gatewayv1.BackendRequest := None |}
              end in
            (* only set what is not already set *)
            let t :=
              match gatewayv1.BackendRequest t with
              | None => {| gatewayv1.Request := gatewayv1.Request t;
                           gatewayv1.BackendRequest := Some duration |}
              | Some _ => t
              end in
            let t :=
              match gatewayv1.Request t with
              | None => {| gatewayv1.Request := Some duration;
                           gatewayv1.BackendRequest :=
                             gatewayv1.BackendRequest t |}
              | Some _ => t
              end in
            Some t
        | (_, false) => timeouts
        end
    | None => timeouts
    end in
  timeouts.

(** The key under which [convertHTTPRules] remembers a path:
    [fmt.Sprintf("%s:%s", path.Path, path.Backend.Service.Name)]. *)
Definition dedupKey (path : string) (service : string) : string :=
  path +:+ ":" +:+ service.

(** The rule built for one retained path. *)
Definition ruleOfPath (ing : Ingress) (path : HTTPIngressPath)
    (svc : IngressServiceBackend) : result gatewayv1.HTTPRouteRule :=
  (* path match *)
  let pathType :=
    match PathType_ path with
    | Some PathTypeExact => gatewayv1.PathMatchExact
    | _ => gatewayv1.PathMatchPathPrefix
    end in
  let pathValue := if String.eqb (Path path) "" then "/" else Path path in
  let matches := [ {| gatewayv1.Path := Some {|
                        gatewayv1.pm_Type := Some pathType;
                        gatewayv1.pm_Value := Some pathValue |} |} ] in
  (* backend refs *)
  let port := Number (Port svc) in
  let weight := 1 in
  let backendRefs := [ {| gatewayv1.br_Name := svc_Name svc;
                          gatewayv1.br_Port := Some port;
                          gatewayv1.br_Weight := Some weight |} ] in
  (* filters from annotations *)
  filters ← extractFilters ing;
  let ruleFilters := if (0 <? length filters)%nat then filters else [] in
  (* timeouts from annotations *)
  let timeouts := extractTimeouts ing in
  Ok {| gatewayv1.Matches := matches;
        gatewayv1.Filters := ruleFilters;
        gatewayv1.BackendRefs := backendRefs;
        gatewayv1.Timeouts := timeouts |}.

(** The loop of [convertHTTPRules], with the [seen] map and the rules
    built so far. *)
Fixpoint convertHTTPRules_loop (ing : Ingress) (paths : list HTTPIngressPath)
    (seen : gmap string bool) (rules : list gatewayv1.HTTPRouteRule)
  : result (list gatewayv1.HTTPRouteRule) :=
  match paths with
  | [] => Ok rules
  | path :: rest =>
      match Service (Backend path) with
      | None => Panic
      | Some svc =>
          let key := dedupKey (Path path) (svc_Name svc) in
          if default false (seen !! key) then
            convertHTTPRules_loop ing rest seen rules
          else
            let seen := <[key := true]> seen in
            rule ← ruleOfPath ing path svc;
            convertHTTPRules_loop ing rest seen (rules ++ [rule])
      end
  end.

Definition convertHTTPRules (ing : Ingress) (paths : list HTTPIngressPath)
  : result (list gatewayv1.HTTPRouteRule) :=
  convertHTTPRules_loop ing paths ∅ [].

(** [createDefaultBackendRule]; reading [backend.Service.Port] panics
    when the default backend has no service. *)
Definition createDefaultBackendRule (ing : Ingress) (backend : IngressBackend)
  : result gatewayv1.HTTPRouteRule :=
  match Service backend with
  | None => Panic
  | Some svc =>
      let port := Number (Port svc) in
      let weight := 1 in
      let pathValue := "/" in
      let pathType := gatewayv1.PathMatchPathPrefix in
      Ok {| gatewayv1.Matches := [ {| gatewayv1.Path := Some {|
                gatewayv1.pm_Type := Some pathType;
                gatewayv1.pm_Value := Some pathValue |} |} ];
            gatewayv1.Filters := [];
            gatewayv1.BackendRefs := [ {|
                gatewayv1.br_Name := svc_Name svc;
                gatewayv1.br_Port := Some port;
                gatewayv1.br_Weight := Some weight |} ];
            gatewayv1.Timeouts := None |}
  end.

Definition deriveGatewayName (ing : Ingress) : string :=
  match IngressClassName ing with
  | Some className => "gateway-" +:+ className
  | None =>
      match Annotations ing !! ingressClassKey with
      | Some class => "gateway-" +:+ class
      | None => "gateway-nginx"
      end
  end.

Definition extractHostPattern (host : string) : string :=
  let parts := gostrings.Split host "." in
  if (2 <=? length parts)%nat
  then gostrings.Join (drop (length parts - 2) parts) "."
  else host.

(** The replacement of [[^a-z0-9-]] by [-], on ASCII text. *)
Definition sanitizeByte (c : ascii) : ascii :=
  let n := N_of_ascii c in
  if (((97 <=? n) && (n <=? 122)) || ((48 <=? n) && (n <=? 57))
      || (n =? 45))%N
  then c else "-"%char.

Fixpoint replaceInvalid (s : string) : string :=
  match s with
  | EmptyString => EmptyString
  | String c r => String (sanitizeByte c) (replaceInvalid r)
  end.

Definition sanitizeName (name : string) : string :=
  let sanitized := replaceInvalid (gostrings.ToLower name) in
  let sanitized := gostrings.Trim sanitized "-" in
  if (63 <? String.length sanitized)%nat
  then String.substring 0 63 sanitized
  else sanitized.

(** The parent reference every mode attaches: the configured gateway
    name, or the one derived from the ingress class. *)
Definition parentRefsOf (c : Converter) (ing : Ingress)
  : list gatewayv1.ParentReference :=
  let gatewayName := GatewayName (opts c) in
  let gatewayName :=
    if String.eqb gatewayName "" then deriveGatewayName ing
    else gatewayName in
  [ {| gatewayv1.pr_Name := gatewayName; gatewayv1.pr_Kind := None |} ].

(** Rules of the first source rule, as [convertSingle] and
    [convertPerPattern] take them. *)
Definition firstRuleRules (ing : Ingress)
  : result (list gatewayv1.HTTPRouteRule) :=
  match Rules ing with
  | rule0 :: _ =>
      match HTTP rule0 with
      | Some paths => convertHTTPRules ing paths
      | None => Ok []
      end
  | [] => Ok []
  end.

(** [convertSingle]: one HTTPRoute for all hosts. *)
Definition convertSingle (c : Converter) (ing : Ingress)
  : result (list gatewayv1.HTTPRoute) :=
  (* collect all hostnames *)
  let hostnames :=
    fold_left (λ hostnames rule,
                 if String.eqb (Host rule) "" then hostnames
                 else hostnames ++ [Host rule])
              (Rules ing) [] in
  let parentRefs := parentRefsOf c ing in
  (* rules: only the first rule's paths *)
  rules ← firstRuleRules ing;
  (* default backend *)
  rules ← match DefaultBackend ing with
          | Some backend =>
              defaultRule ← createDefaultBackendRule ing backend;
              Ok (rules ++ [defaultRule])
          | None => Ok rules
          end;
  Ok [ {| gatewayv1.APIVersion := "gateway.networking.k8s.io/v1";
          gatewayv1.Kind := "HTTPRoute";
          gatewayv1.Name := Name ing +:+ "-httproute";
          gatewayv1.Namespace := Namespace ing;
          gatewayv1.Labels := Labels ing;
          gatewayv1.Hostnames := hostnames;
          gatewayv1.ParentRefs := parentRefs;
          gatewayv1.Rules := rules |} ].

(** The HTTPRoute [convertPerHost] builds for the source rule of index
    [i], once its rules are converted. *)
Definition hostRoute (c : Converter) (ing : Ingress) (i : Z)
    (rule : IngressRule) (routeRules : list gatewayv1.HTTPRouteRule)
  : gatewayv1.HTTPRoute :=
  {| gatewayv1.APIVersion := "gateway.networking.k8s.io/v1";
     gatewayv1.Kind := "HTTPRoute";
     gatewayv1.Name := Name ing +:+ "-httproute-" +:+ strconv.Itoa (i + 1);
     gatewayv1.Namespace := Namespace ing;
     gatewayv1.Labels := Labels ing;
     gatewayv1.Hostnames := [Host rule];
     gatewayv1.ParentRefs := parentRefsOf c ing;
     gatewayv1.Rules := routeRules |}.

(** The loop of [convertPerHost]; [i] is the index of the current
    source rule. *)
Fixpoint convertPerHost_loop (c : Converter) (ing : Ingress) (i : Z)
    (rules : list IngressRule) (httpRoutes : list gatewayv1.HTTPRoute)
  : result (list gatewayv1.HTTPRoute) :=
  match rules with
  | [] => Ok httpRoutes
  | rule :: rest =>
      if String.eqb (Host rule) "" then
        convertPerHost_loop c ing (i + 1) rest httpRoutes
      else
        routeRules ← match HTTP rule with
                     | Some paths => convertHTTPRules ing paths
                     | None => Ok []
                     end;
        let httpRoute := hostRoute c ing i rule routeRules in
        convertPerHost_loop c ing (i + 1) rest (httpRoutes ++ [httpRoute])
  end.

(** [convertPerHost]: a separate HTTPRoute per source rule with a host. *)
Definition convertPerHost (c : Converter) (ing : Ingress)
  : result (list gatewayv1.HTTPRoute) :=
  convertPerHost_loop c ing 0 (Rules ing) [].

(** The [groups] map of [convertPerPattern]. *)
Definition groupHosts (rules : list IngressRule) : gmap string (list string) :=
  fold_left (λ (groups : gmap string (list string)) rule,
               if String.eqb (Host rule) "" then groups
               else
                 let pattern := extractHostPattern (Host rule) in
                 <[pattern := default [] (groups !! pattern) ++ [Host rule]]>
                   groups)
            rules ∅.

(** The HTTPRoute [convertPerPattern] builds for one group. *)
Definition patternRoute (c : Converter) (ing : Ingress) (pattern : string)
    (hosts : list string) (routeRules : list gatewayv1.HTTPRouteRule)
  : gatewayv1.HTTPRoute :=
  {| gatewayv1.APIVersion := "gateway.networking.k8s.io/v1";
     gatewayv1.Kind := "HTTPRoute";
     gatewayv1.Name := Name ing +:+ "-httproute-" +:+ sanitizeName pattern;
     gatewayv1.Namespace := Namespace ing;
     gatewayv1.Labels := Labels ing;
     gatewayv1.Hostnames := fold_left (λ hs host, hs ++ [host]) hosts [];
     gatewayv1.ParentRefs := parentRefsOf c ing;
     gatewayv1.Rules := routeRules |}.

(** The second loop of [convertPerPattern], over the entries of
    [groups] in the order [range] yields them. *)
Fixpoint convertPerPattern_loop (c : Converter) (ing : Ingress)
    (entries : list (string * list string))
    (httpRoutes : list gatewayv1.HTTPRoute)
  : result (list gatewayv1.HTTPRoute) :=
  match entries with
  | [] => Ok httpRoutes
  | (pattern, hosts) :: rest =>
      routeRules ← firstRuleRules ing;
      let httpRoute := patternRoute c ing pattern hosts routeRules in
      convertPerPattern_loop c ing rest (httpRoutes ++ [httpRoute])
  end.

(** [convertPerPattern]: hosts grouped by pattern, one HTTPRoute per
    group. *)
Definition convertPerPattern (ro : RangeOrder) (c : Converter) (ing : Ingress)
  : result (list gatewayv1.HTTPRoute) :=
  let groups := groupHosts (Rules ing) in
  convertPerPattern_loop c ing (ro (map_to_list groups)) [].

(** [convertIngress]: a single Ingress to HTTPRoute(s). *)
Definition convertIngress (ro : RangeOrder) (c : Converter) (ing : Ingress)
  : result (list gatewayv1.HTTPRoute) :=
  let mode := SplitMode (opts c) in
  if String.eqb mode "single" then convertSingle c ing
  else if String.eqb mode "per-host" then convertPerHost c ing
  else if String.eqb mode "per-pattern" then convertPerPattern ro c ing
  else Err ("invalid split mode: " +:+ mode).

(** The loop of [Convert], with the routes gathered so far. *)
Fixpoint Convert_loop (ro : RangeOrder) (c : Converter)
    (ingresses : list Resource) (httpRoutes : list gatewayv1.HTTPRoute)
  : result (list gatewayv1.HTTPRoute) :=
  match ingresses with
  | [] => Ok httpRoutes
  | ing :: rest =>
      match ing with
      | OtherRes => Err "invalid ingress type"
      | IngressRes ingress =>
          match convertIngress ro c ingress with
          | Ok routes => Convert_loop ro c rest (httpRoutes ++ routes)
          | Err err =>
              Err ("failed to convert ingress " +:+ Name ingress +:+ ": "
                   +:+ err)
          | Panic => Panic
          end
      end
  end.

(** [Convert]: Ingress resources to HTTPRoutes. *)
Definition Convert (ro : RangeOrder) (c : Converter)
    (ingresses : list Resource) : result (list gatewayv1.HTTPRoute) :=
  Convert_loop ro c ingresses [].

End converter.

(** ** The timeout checks of the validator: [pkg/validator/validator.go] *)

Module validator.

Record ValidationResult := {
  ResourceName : string;
  Errors : list string;
  Warnings : list string
}.

Definition addError (result : ValidationResult) (msg : string)
  : ValidationResult :=
  {| ResourceName := ResourceName result;
     Errors := Errors result ++ [msg];
     Warnings := Warnings result |}.

(** The longest prefix of digits, and what follows it. *)
Fixpoint spanDigits (s : string) : string * string :=
  match s with
  | EmptyString => (EmptyString, EmptyString)
  | String c r =>
      if strconv.isDigit c
      then let '(digits, rest) := spanDigits r in (String c digits, rest)
      else (EmptyString, s)
  end.

Definition isUnit (u : string) : bool :=
  String.eqb u "h" || String.eqb u "m" || String.eqb u "s"
  || String.eqb u "ms".

(** The submatches of [^([0-9]+)(h|m|s|ms)$]: the digits and the unit,
    or [None] when the text does not match.  No unit starts with a
    digit, so the first group is the longest prefix of digits. *)
Definition durationSubmatch (duration : string) : option (string * string) :=
  let '(digits, unit) := spanDigits duration in
  if negb (String.eqb digits "") && isUnit unit
  then Some (digits, unit) else None.

(** [isValidDuration]: the text matches [^[0-9]+(h|m|s|ms)$]. *)
Definition isValidDuration (duration : string) : bool :=
  match durationSubmatch duration with
  | Some _ => true
  | None => false
  end.

(** [parseDuration]: a duration string to seconds; 0 when it does not
    match.  The error of [Atoi] is dropped, as in the code. *)
Definition parseDuration (duration : string) : Z :=
  match durationSubmatch duration with
  | None => 0
  | Some (digits, unit) =>
      let value := fst (strconv.Atoi digits) in
      if String.eqb unit "h" then wrapInt (value * 3600)
      else if String.eqb unit "m" then wrapInt (value * 60)
      else if String.eqb unit "s" then value
      else if String.eqb unit "ms" then Z.quot value 1000
      else 0
  end.

Definition orderingError (ruleIdx : Z) (backendRequest request : string)
  : string :=
  "rules[" +:+ strconv.Itoa ruleIdx +:+ "].timeouts.backendRequest ("
  +:+ backendRequest +:+ ") must be <= request (" +:+ request +:+ ")".

Definition requestFormatError (ruleIdx : Z) : string :=
  "rules[" +:+ strconv.Itoa ruleIdx
  +:+ "].timeouts.request: invalid duration format".

Definition backendRequestFormatError (ruleIdx : Z) : string :=
  "rules[" +:+ strconv.Itoa ruleIdx
  +:+ "].timeouts.backendRequest: invalid duration format".

(** [validateTimeouts]: the findings are appended to [result]. *)
Definition validateTimeouts (timeouts : gatewayv1.HTTPRouteTimeouts)
    (ruleIdx : Z) (result : ValidationResult) : ValidationResult :=
  (* constraint: backendRequest <= request *)
  let result :=
    match gatewayv1.Request timeouts, gatewayv1.BackendRequest timeouts with
    | Some request, Some backendRequest =>
        let requestSec := parseDuration request in
        let backendSec := parseDuration backendRequest in
        if (0 <? requestSec) && (0 <? backendSec)
           && (requestSec <? backendSec)
        then addError result (orderingError ruleIdx backendRequest request)
        else result
    | _, _ => result
    end in
  (* duration format *)
  let result :=
    match gatewayv1.Request timeouts with
    | Some request =>
        if negb (isValidDuration request)
        then addError result (requestFormatError ruleIdx)
        else result
    | None => result
    end in
  let result :=
    match gatewayv1.BackendRequest timeouts with
    | Some backendRequest =>
        if negb (isValidDuration backendRequest)
        then addError result (backendRequestFormatError ruleIdx)
        else result
    | None => result
    end in
  result.

End validator.

(** ** The readiness classifier: [pkg/analyzer/analyzer.go] *)

Module analyzer.

(** [contains]: the slice holds the string. *)
Fixpoint contains (slice : list string) (item : string) : bool :=
  match slice with
  | [] => false
  | s :: rest => if String.eqb s item then true else contains rest item
  end.

(** [assessReadiness]: the migration readiness level. *)
Definition assessReadiness (score : Z) (features : list string) : string :=
  let blockers := ["CUSTOM_SNIPPET"; "SERVER_SNIPPET"] in
  if existsb (λ blocker, contains features blocker) blockers
  then "MANUAL_REVIEW_REQUIRED"
  else if score <=? 10 then "READY"
  else if score <=? 25 then "MOSTLY_READY"
  else "COMPLEX".

End analyzer.

(** ** Vocabulary of the stated properties *)

Module spec.

Import networkingv1.

(** The elements of [l] that are not in [seen], each kept at its first
    occurrence only, in the order of [l]. *)
Fixpoint firstSeen {A} `{EqDecision A} (seen l : list A) : list A :=
  match l with
  | [] => []
  | x :: r =>
      if decide (x ∈ seen) then firstSeen seen r
      else x :: firstSeen (x :: seen) r
  end.

(** The ordered (first-seen) union of the elements of a list. *)
Definition distinct {A} `{EqDecision A} (l : list A) : list A :=
  firstSeen [] l.

(** The non-empty hostnames of the source rules, in source order. *)
Definition sourceHosts (ing : Ingress) : list string :=
  filter (λ h, h ≠ "") (Host <$> Rules ing).

Definition pathComplete (p : HTTPIngressPath) : bool :=
  match Service (Backend p) with Some _ => true | None => false end.

Definition ruleComplete (r : IngressRule) : bool :=
  match HTTP r with
  | Some paths => forallb pathComplete paths
  | None => true
  end.

Definition defaultBackendComplete (ing : Ingress) : bool :=
  match DefaultBackend ing with
  | Some b => match Service b with Some _ => true | None => false end
  | None => true
  end.

(** Every path of every source rule, and the default backend if there
    is one, refers to a service. *)
Definition backendsComplete (ing : Ingress) : bool :=
  forallb ruleComplete (Rules ing) && defaultBackendComplete ing.

(** What single mode reads: the first source rule and the default
    backend. *)
Definition singleComplete (ing : Ingress) : bool :=
  match Rules ing with
  | rule0 :: _ => ruleComplete rule0
  | [] => true
  end && defaultBackendComplete ing.

(** The (path value, backend service name) pair of a path entry. *)
Definition pathPair (p : HTTPIngressPath) : string * string :=
  (Path p, from_option svc_Name "" (Service (Backend p))).

(** The text under which the code remembers a path entry. *)
Definition pathKey (p : HTTPIngressPath) : string :=
  converter.dedupKey (Path p) (from_option svc_Name "" (Service (Backend p))).

(** The path entries whose key is not in [seen], each kept at the first
    occurrence of its key only, in path-list order. *)
Fixpoint retained (seen : list string) (paths : list HTTPIngressPath)
  : list HTTPIngressPath :=
  match paths with
  | [] => []
  | p :: rest =>
      if decide (pathKey p ∈ seen) then retained seen rest
      else p :: retained (pathKey p :: seen) rest
  end.

(** [rule] is the rule the converter builds for the path entry [p]. *)
Definition ruleFor (ing : Ingress) (p : HTTPIngressPath)
    (rule : gatewayv1.HTTPRouteRule) : Prop :=
  ∃ svc, Service (Backend p) = Some svc
         ∧ converter.ruleOfPath ing p svc = Ok rule.

(** The text has no colon; the names of Kubernetes services have none. *)
Fixpoint colonFree (s : string) : bool :=
  match s with
  | EmptyString => true
  | String c r => negb (Ascii.eqb c ":") && colonFree r
  end.

(** [seenl] lists the keys that the [seen] map of [convertHTTPRules]
    holds. *)
Definition seenAs (seen : gmap string bool) (seenl : list string) : Prop :=
  ∀ k, default false (seen !! k) = true ↔ k ∈ seenl.

(** A duration in whole seconds, as the design document has it: the
    number before the unit, times the length of the unit, sub-second
    units truncated; [None] when the text is not a duration. *)
Definition wholeSeconds (duration : string) : option Z :=
  match validator.durationSubmatch duration with
  | Some (digits, unit) =>
      n ← strconv.parseDigits digits 0;
      Some (if String.eqb unit "h" then n * 3600
            else if String.eqb unit "m" then n * 60
            else if String.eqb unit "s" then n
            else n `div` 1000)
  | None => None
  end.

(** The number before the unit is small enough for the conversion to
    seconds to stay within [int]: at most [maxInt / 3600]. *)
Definition fitsInt (duration : string) : bool :=
  match validator.durationSubmatch duration with
  | Some (digits, _) =>
      match strconv.parseDigits digits 0 with
      | Some n => n * 3600 <=? maxInt
      | None => true
      end
  | None => true
  end.

(** The findings of [validateTimeouts] on a rule of index [idx] whose
    timeouts have both fields set. *)
Definition timeoutFindings (request backendRequest : string) (idx : Z)
  : list string :=
  validator.Errors
    (validator.validateTimeouts
       {| gatewayv1.Request := Some request;
          gatewayv1.BackendRequest := Some backendRequest |}
       idx
       {| validator.ResourceName := "";
          validator.Errors := [];
          validator.Warnings := [] |}).

(** The validator reports the ordering error for these timeouts. *)
Definition reportsOrderingError (request backendRequest : string) (idx : Z)
  : Prop :=
  In (validator.orderingError idx backendRequest request)
     (timeoutFindings request backendRequest idx).

(** A timeout annotation value that is a non-negative number of
    seconds [n]. *)
Definition validSeconds (v : string) (n : Z) : Prop :=
  strconv.Atoi v = (n, true) ∧ 0 ≤ n.

(** Two outcomes that agree up to the order of the routes. *)
Definition sameUpToOrder {A} (r1 r2 : result (list A)) : Prop :=
  match r1, r2 with
  | Ok l1, Ok l2 => l1 ≡ₚ l2
  | Err e1, Err e2 => e1 = e2
  | Panic, Panic => True
  | _, _ => False
  end.

End spec.

(** ** Sample resources *)

Module samples.

Import networkingv1 converter.

Definition service (name : string) (port : Z) : IngressBackend :=
  {| Service := Some {| svc_Name := name;
                        Port := {| port_Name := ""; Number := port |} |} |}.

(** A backend that refers to a resource, not to a service. *)
Definition resourceBackend : IngressBackend := {| Service := None |}.

Definition prefixPath (path : string) (b : IngressBackend) : HTTPIngressPath :=
  {| Path := path; PathType_ := Some PathTypePrefix; Backend := b |}.

Definition hostRule (host : string) (paths : list HTTPIngressPath)
  : IngressRule :=
  {| Host := host; HTTP := Some paths |}.

Definition ingressOf (annotations : gmap string string)
    (defaultBackend : option IngressBackend) (rules : list IngressRule)
  : Ingress :=
  {| Name := "web"; Namespace := "default"; Labels := ∅;
     Annotations := annotations;
     IngressClassName := Some "nginx";
     DefaultBackend := defaultBackend;
     Rules := rules |}.

Definition converterOf (mode : string) : Converter :=
  NewConverter {| SplitMode := mode; GatewayName := "";
                  GatewayClass := "nginx"; OutputFormat := "yaml" |}.

(** [range] yielding the entries in the order of the listing. *)
Definition inListedOrder : RangeOrder :=
  {| range_entries := λ l, l;
     range_entries_perm := λ l, reflexivity l |}.

(** [range] yielding the entries in the opposite order. *)
Definition inReverseOrder : RangeOrder :=
  {| range_entries := λ l, reverse l;
     range_entries_perm := λ l, reverse_Permutation l |}.

(** Two hosts under one name, served alike. *)
Definition twoHosts : Ingress :=
  ingressOf {[ readTimeoutKey := "600" ]} None
    [ hostRule "app.example.com" [prefixPath "/" (service "app" 80)];
      hostRule "api.example.com" [prefixPath "/" (service "app" 80)] ].

(** Hosts under two different names. *)
Definition twoPatterns : Ingress :=
  ingressOf ∅ None
    [ hostRule "a.example.com" [prefixPath "/" (service "app" 80)];
      hostRule "b.example.org" [prefixPath "/" (service "app" 80)] ].

(** The same host in two source rules. *)
Definition repeatedHost : Ingress :=
  ingressOf ∅ None
    [ hostRule "a.example.com" [prefixPath "/" (service "app" 80)];
      hostRule "a.example.com" [prefixPath "/api" (service "api" 8080)] ].

(** The second source rule has a path without a service. *)
Definition missingBackendLater : Ingress :=
  ingressOf ∅ None
    [ hostRule "a.example.com" [prefixPath "/" (service "app" 80)];
      hostRule "b.example.com" [prefixPath "/" resourceBackend] ].

(** The first source rule has a path without a service. *)
Definition missingBackendFirst : Ingress :=
  ingressOf ∅ None
    [ hostRule "a.example.com" [prefixPath "/" resourceBackend] ].

(** A default backend next to rewrite, redirect and timeout
    annotations. *)
Definition withDefaultBackend : Ingress :=
  ingressOf
    {[ rewriteTargetKey := "/$2";
       permanentRedirectKey := "new.example.com";
       readTimeoutKey := "600";
       sendTimeoutKey := "300" ]}
    (Some (service "fallback" 8080))
    [ hostRule "a.example.com" [prefixPath "/" (service "app" 80)] ].

(** Fourteen hosts with the same three paths, and a read-timeout. *)
Definition fourteenHosts : Ingress :=
  ingressOf {[ readTimeoutKey := "600" ]} None
    ((λ host,
        hostRule host
          [ prefixPath "/" (service "web" 80);
            prefixPath "/api" (service "api" 8080);
            prefixPath "/static" (service "static" 80) ])
     <$> [ "h01.example.com"; "h02.example.com"; "h03.example.com";
           "h04.example.com"; "h05.example.com"; "h06.example.com";
           "h07.example.com"; "h08.example.com"; "h09.example.com";
           "h10.example.com"; "h11.example.com"; "h12.example.com";
           "h13.example.com"; "h14.example.com" ]).

(** The Ingress of the converter's tests. *)
Definition testIngress : Ingress :=
  {| Name := "test-ingress"; Namespace := "default"; Labels := ∅;
     Annotations := {[ readTimeoutKey := "600" ]};
     IngressClassName := Some "nginx";
     DefaultBackend := None;
     Rules :=
       [ hostRule "app.example.com" [prefixPath "/" (service "app-service" 80)];
         hostRule "api.example.com" [prefixPath "/" (service "api-service" 8080)] ] |}.

(** Two path entries that differ in path and in service and share the
    text of their key. *)
Definition collidingPaths : list HTTPIngressPath :=
  [ prefixPath "/a:b" (service "c" 80);
    prefixPath "/a" (service "b:c" 80) ].

End samples.

(** ** Iteration order of a map *)

(** Go's [range] over a [map[string]V] visits the entries in an order
    that the language leaves open.  A [MapRange V] is one such order: it
    lists the entries of a map, each once. *)
Record MapRange (V : Type) := {
  map_range :> list (string * V) → list (string * V);
  map_range_perm : ∀ l, map_range l ≡ₚ l
}.

Arguments map_range {V} _ _.
Arguments map_range_perm {V} _ _.

(** ** pkg/validator/validator.go: the checks on an HTTPRoute *)

Module routecheck.

Import gatewayv1 validator.

Definition addWarning (result : ValidationResult) (msg : string)
  : ValidationResult :=
  {| ResourceName := ResourceName result;
     Errors := Errors result;
     Warnings := Warnings result ++ [msg] |}.

(** The class [[a-z0-9]]. *)
Definition isLowerAlnum (c : ascii) : bool :=
  let n := N_of_ascii c in
  (((97 <=? n) && (n <=? 122)) || ((48 <=? n) && (n <=? 57)))%N.

(** The class [[-a-z0-9]]. *)
Definition isLabelByte (c : ascii) : bool :=
  isLowerAlnum c || (N_of_ascii c =? 45)%N.

(** The text matches [([-a-z0-9]*[a-z0-9])?$]. *)
Fixpoint labelTail (s : string) : bool :=
  match s with
  | EmptyString => true
  | String c EmptyString => isLowerAlnum c
  | String c r => isLabelByte c && labelTail r
  end.

(** [nameRegex.MatchString]: the text matches
    [^[a-z0-9]([-a-z0-9]*[a-z0-9])?$]. *)
Definition nameRegex (s : string) : bool :=
  match s with
  | EmptyString => false
  | String c r => isLowerAlnum c && labelTail r
  end.

(** [hostnameRegex.MatchString]: the text matches
    [^(\*\.)?label(\.label)*$], where label is the expression of
    [nameRegex].  No label has a dot or a star, so the text matches when,
    after an optional leading star and dot, every part between dots is a
    label. *)
Definition hostnameRegex (s : string) : bool :=
  let rest :=
    match s with
    | String "*" (String "." r) => r
    | _ => s
    end in
  forallb nameRegex (gostrings.Split rest ".").

(** [strings.HasPrefix]. *)
Definition HasPrefix (s prefix : string) : bool := String.prefix prefix s.

Definition validateMetadata (hr : HTTPRoute) (result : ValidationResult)
  : ValidationResult :=
  let result :=
    if String.eqb (Name hr) "" then addError result "metadata.name is required"
    else
      let result :=
        if negb (nameRegex (Name hr))
        then addError result
               "metadata.name must consist of lower case alphanumeric characters or '-'"
        else result in
      if (63 <? String.length (Name hr))%nat
      then addError result "metadata.name must be no more than 63 characters"
      else result in
  if String.eqb (Namespace hr) ""
  then addWarning result
         "metadata.namespace not specified, will use default namespace"
  else result.

Definition validateHostname (hostname : string) (result : ValidationResult)
  : ValidationResult :=
  if String.eqb hostname "" then addError result "empty hostname not allowed"
  else if negb (hostnameRegex hostname)
       then addError result ("invalid hostname format: " +:+ hostname)
       else result.

Definition validateHostnames (hr : HTTPRoute) (result : ValidationResult)
  : ValidationResult :=
  let result :=
    match Hostnames hr with
    | [] => addWarning result
              "no hostnames specified, HTTPRoute will match all hostnames"
    | _ :: _ => result
    end in
  fold_left (λ result hostname, validateHostname hostname result)
    (Hostnames hr) result.

(** [for i, x := range l { body i x }], with [i] counted from [idx]. *)
Fixpoint rangeIndexed {A : Type}
    (body : Z → A → ValidationResult → ValidationResult)
    (idx : Z) (l : list A) (result : ValidationResult) : ValidationResult :=
  match l with
  | [] => result
  | x :: rest => rangeIndexed body (idx + 1) rest (body idx x result)
  end.

Definition validateParentRef (i : Z) (ref : ParentReference)
    (result : ValidationResult) : ValidationResult :=
  let result :=
    if String.eqb (pr_Name ref) ""
    then addError result
           ("parentRefs[" +:+ strconv.Itoa i +:+ "].name is required")
    else result in
  match pr_Kind ref with
  | Some kind =>
      if negb (String.eqb kind "Gateway")
      then addWarning result
             ("parentRefs[" +:+ strconv.Itoa i +:+ "].kind is " +:+ kind
              +:+ ", expected Gateway")
      else result
  | None => result
  end.

Definition validateParentRefs (hr : HTTPRoute) (result : ValidationResult)
  : ValidationResult :=
  match ParentRefs hr with
  | [] => addError result "at least one parentRef is required"
  | _ :: _ => rangeIndexed validateParentRef 0 (ParentRefs hr) result
  end.

Definition validateMatch (match_ : HTTPRouteMatch) (ruleIdx matchIdx : Z)
    (result : ValidationResult) : ValidationResult :=
  match Path match_ with
  | Some path =>
      match pm_Value path with
      | None =>
          addError result
            ("rules[" +:+ strconv.Itoa ruleIdx +:+ "].matches["
             +:+ strconv.Itoa matchIdx +:+ "].path.value is required")
      | Some value =>
          if negb (HasPrefix value "/")
          then addError result
                 ("rules[" +:+ strconv.Itoa ruleIdx +:+ "].matches["
                  +:+ strconv.Itoa matchIdx
                  +:+ "].path.value must start with '/'")
          else result
      end
  | None => result
  end.

Definition validateBackendRef (ref : HTTPBackendRef) (ruleIdx refIdx : Z)
    (result : ValidationResult) : ValidationResult :=
  let result :=
    if String.eqb (br_Name ref) ""
    then addError result
           ("rules[" +:+ strconv.Itoa ruleIdx +:+ "].backendRefs["
            +:+ strconv.Itoa refIdx +:+ "].name is required")
    else result in
  let result :=
    match br_Port ref with
    | None =>
        addError result
          ("rules[" +:+ strconv.Itoa ruleIdx +:+ "].backendRefs["
           +:+ strconv.Itoa refIdx +:+ "].port is required")
    | Some _ => result
    end in
  match br_Weight ref with
  | Some weight =>
      if weight <? 0
      then addError result
             ("rules[" +:+ strconv.Itoa ruleIdx +:+ "].backendRefs["
              +:+ strconv.Itoa refIdx +:+ "].weight must be >= 0")
      else result
  | None => result
  end.

(** A filter of another type than the two of the [switch] is not
    looked at. *)
Definition validateFilter (filter : HTTPRouteFilter) (ruleIdx filterIdx : Z)
    (result : ValidationResult) : ValidationResult :=
  match f_Type filter with
  | HTTPRouteFilterURLRewrite =>
      match URLRewrite filter with
      | None =>
          addError result
            ("rules[" +:+ strconv.Itoa ruleIdx +:+ "].filters["
             +:+ strconv.Itoa filterIdx
             +:+ "]: URLRewrite is required for type URLRewrite")
      | Some _ => result
      end
  | HTTPRouteFilterRequestRedirect =>
      match RequestRedirect filter with
      | None =>
          addError result
            ("rules[" +:+ strconv.Itoa ruleIdx +:+ "].filters["
             +:+ strconv.Itoa filterIdx
             +:+ "]: RequestRedirect is required for type RequestRedirect")
      | Some _ => result
      end
  | _ => result
  end.

(** The body of the loop of [validateRules]. *)
Definition validateRule (i : Z) (rule : HTTPRouteRule)
    (result : ValidationResult) : ValidationResult :=
  let result :=
    match Matches rule with
    | [] => addWarning result
              ("rules[" +:+ strconv.Itoa i
               +:+ "]: no matches specified, will match all requests")
    | _ :: _ => result
    end in
  let result :=
    rangeIndexed (λ j match_, validateMatch match_ i j) 0 (Matches rule)
      result in
  let result :=
    match BackendRefs rule with
    | [] => addError result
              ("rules[" +:+ strconv.Itoa i
               +:+ "]: at least one backendRef is required")
    | _ :: _ => result
    end in
  let result :=
    rangeIndexed (λ j backendRef, validateBackendRef backendRef i j) 0
      (BackendRefs rule) result in
  let result :=
    match Timeouts rule with
    | Some timeouts => validateTimeouts timeouts i result
    | None => result
    end in
  rangeIndexed (λ j filter, validateFilter filter i j) 0 (Filters rule) result.

(** A path match type under [%s]. *)
Definition pathTypeString (t : PathMatchType) : string :=
  match t with
  | PathMatchExact => "Exact"
  | PathMatchPathPrefix => "PathPrefix"
  | PathMatchRegularExpression => "RegularExpression"
  end.

(** The key of a path match in the [paths] map, or a panic: the code
    reads [*match.Path.Type] without a test for nil. *)
Definition pathKey (path : HTTPPathMatch) (value : string) : result string :=
  match pm_Type path with
  | Some t => Ok (pathTypeString t +:+ ":" +:+ value)
  | None => Panic
  end.

(** The inner loop of [checkPathConflicts], over the matches of rule
    [i]. *)
Fixpoint collectMatches (matches : list HTTPRouteMatch) (i : Z)
    (paths : gmap string (list Z)) : result (gmap string (list Z)) :=
  match matches with
  | [] => Ok paths
  | match_ :: rest =>
      match Path match_ with
      | Some path =>
          match pm_Value path with
          | Some value =>
              key ← pathKey path value;
              collectMatches rest i
                (<[key := default [] (paths !! key) ++ [i]]> paths)
          | None => collectMatches rest i paths
          end
      | None => collectMatches rest i paths
      end
  end.

(** The outer loop of [checkPathConflicts]. *)
Fixpoint collectPaths (rules : list HTTPRouteRule) (i : Z)
    (paths : gmap string (list Z)) : result (gmap string (list Z)) :=
  match rules with
  | [] => Ok paths
  | rule :: rest =>
      paths ← collectMatches (Matches rule) i paths;
      collectPaths rest (i + 1) paths
  end.

(** A slice of ints under [%v]. *)
Definition formatInts (l : list Z) : string :=
  "[" +:+ gostrings.Join (strconv.Itoa <$> l) " " +:+ "]".

Definition conflictWarning (path : string) (ruleIndices : list Z) : string :=
  "path " +:+ path +:+ " appears in multiple rules: "
  +:+ formatInts ruleIndices.

Definition reportConflict (res : ValidationResult)
    (entry : string * list Z) : ValidationResult :=
  if (1 <? length entry.2)%nat
  then addWarning res (conflictWarning entry.1 entry.2)
  else res.

Definition checkPathConflicts (ro : MapRange (list Z)) (hr : HTTPRoute)
    (res : ValidationResult) : result ValidationResult :=
  paths ← collectPaths (Rules hr) 0 ∅;
  Ok (fold_left reportConflict (ro (map_to_list paths)) res).

Definition validateRules (ro : MapRange (list Z)) (hr : HTTPRoute)
    (res : ValidationResult) : result ValidationResult :=
  match Rules hr with
  | [] => Ok (addError res "at least one rule is required")
  | _ :: _ =>
      checkPathConflicts ro hr (rangeIndexed validateRule 0 (Rules hr) res)
  end.

Definition validateHTTPRoute (ro : MapRange (list Z)) (hr : HTTPRoute)
  : result ValidationResult :=
  let res :=
    {| ResourceName := Namespace hr +:+ "/" +:+ Name hr;
       Errors := [];
       Warnings := [] |} in
  let res := validateMetadata hr res in
  let res := validateHostnames hr res in
  let res := validateParentRefs hr res in
  validateRules ro hr res.

End routecheck.

(** ** pkg/analyzer/analyzer.go: the analysis of one Ingress *)

Module analysis.

Import networkingv1 analyzer.

Record IngressTLS := {
  tls_Hosts : list string;
  SecretName : string
}.

(** An Ingress as the analyzer reads it: the fields the converter reads,
    and [Spec.TLS], which the converter never reads. *)
Record Source := {
  ing :> Ingress;
  TLS : list IngressTLS
}.

Record AnalysisResult := {
  ar_Name : string;
  ar_Namespace : string;
  IngressClass : string;
  HostCount : Z;
  ar_Hostnames : list string;
  PathCount : Z;
  TLSEnabled : bool;
  ar_Annotations : gmap string string;
  DetectedFeatures : list string;
  ComplexityScore : Z;
  MigrationReadiness : string;
  Issues : list string;
  Recommendations : list string
}.

Definition getIngressClass (ing : Ingress) : string :=
  match IngressClassName ing with
  | Some className => className
  | None =>
      match Annotations ing !! "kubernetes.io/ingress.class" with
      | Some class => class
      | None => ""
      end
  end.

(** The entries of the map literal [annotationChecks]. *)
Definition annotationChecks : list (string * string) :=
  [ ("nginx.ingress.kubernetes.io/rewrite-target", "URL_REWRITE");
    ("nginx.ingress.kubernetes.io/app-root", "APP_ROOT");
    ("nginx.ingress.kubernetes.io/ssl-redirect", "SSL_REDIRECT");
    ("nginx.ingress.kubernetes.io/force-ssl-redirect", "FORCE_SSL_REDIRECT");
    ("nginx.ingress.kubernetes.io/permanent-redirect", "PERMANENT_REDIRECT");
    ("nginx.ingress.kubernetes.io/temporal-redirect", "TEMPORAL_REDIRECT");
    ("nginx.ingress.kubernetes.io/proxy-body-size", "PROXY_BODY_SIZE");
    ("nginx.ingress.kubernetes.io/proxy-read-timeout", "PROXY_READ_TIMEOUT");
    ("nginx.ingress.kubernetes.io/proxy-send-timeout", "PROXY_SEND_TIMEOUT");
    ("nginx.ingress.kubernetes.io/proxy-connect-timeout",
     "PROXY_CONNECT_TIMEOUT");
    ("nginx.ingress.kubernetes.io/backend-protocol", "BACKEND_PROTOCOL");
    ("nginx.ingress.kubernetes.io/cors-allow-origin", "CORS");
    ("nginx.ingress.kubernetes.io/enable-cors", "CORS");
    ("nginx.ingress.kubernetes.io/auth-type", "AUTHENTICATION");
    ("nginx.ingress.kubernetes.io/auth-secret", "AUTHENTICATION");
    ("nginx.ingress.kubernetes.io/canary", "CANARY");
    ("nginx.ingress.kubernetes.io/canary-weight", "CANARY_WEIGHT");
    ("nginx.ingress.kubernetes.io/canary-by-header", "CANARY_HEADER");
    ("nginx.ingress.kubernetes.io/mirror-uri", "MIRRORING");
    ("nginx.ingress.kubernetes.io/mirror-target", "MIRRORING");
    ("nginx.ingress.kubernetes.io/configuration-snippet", "CUSTOM_SNIPPET");
    ("nginx.ingress.kubernetes.io/server-snippet", "SERVER_SNIPPET") ].

(** The body of the loop of [detectFeatures] over [annotationChecks]. *)
Definition checkAnnotation (annotations : gmap string string)
    (features : list string) (entry : string * string) : list string :=
  let '(ann, feature) := entry in
  match annotations !! ann with
  | Some _ =>
      if negb (contains features feature) then features ++ [feature]
      else features
  | None => features
  end.

(** [detectFeatures]; [ro] is the order in which [range] visits
    [annotationChecks]. *)
Definition detectFeatures (ro : MapRange string) (src : Source)
  : list string :=
  let features :=
    fold_left (checkAnnotation (Annotations src)) (ro annotationChecks) [] in
  let features :=
    if (0 <? length (TLS src))%nat then features ++ ["TLS_TERMINATION"]
    else features in
  match DefaultBackend src with
  | Some _ => features ++ ["DEFAULT_BACKEND"]
  | None => features
  end.

Definition complexityMap : gmap string Z :=
  list_to_map
    [ ("URL_REWRITE", 5);
      ("CUSTOM_SNIPPET", 10);
      ("SERVER_SNIPPET", 10);
      ("CANARY", 7);
      ("CANARY_WEIGHT", 7);
      ("MIRRORING", 8);
      ("AUTHENTICATION", 6);
      ("CORS", 4);
      ("BACKEND_PROTOCOL", 3);
      ("PROXY_READ_TIMEOUT", 2);
      ("SSL_REDIRECT", 2) ].

(** The body of the loop of [calculateComplexity]. *)
Definition addWeight (score : Z) (feature : string) : Z :=
  match complexityMap !! feature with
  | Some weight => wrapInt (score + weight)
  | None => score
  end.

Definition calculateComplexity (src : Source) (features : list string) : Z :=
  let score := 0 in
  let score := wrapInt (score + wrapInt (Z.of_nat (length (Rules src)) * 2)) in
  let score := wrapInt (score + wrapInt (Z.of_nat (length (TLS src)) * 3)) in
  fold_left addWeight features score.

(** [strings.Contains]. *)
Fixpoint Contains (s substr : string) : bool :=
  String.prefix substr s
  || match s with
     | EmptyString => false
     | String _ r => Contains r substr
     end.

Definition identifyIssues (src : Source) (features : list string)
  : list string :=
  let issues := [] in
  let issues :=
    if contains features "CUSTOM_SNIPPET" || contains features "SERVER_SNIPPET"
    then issues ++ ["Custom NGINX snippets require manual review and cannot be directly migrated"]
    else issues in
  let class := getIngressClass src in
  let issues :=
    if negb (String.eqb class "") && negb (Contains class "nginx")
    then issues ++ ["Non-NGINX Ingress class detected: " +:+ class]
    else issues in
  fold_left
    (λ issues ann,
       match Annotations src !! ann with
       | Some _ =>
           issues ++ ["Using deprecated annotation: " +:+ ann
                      +:+ " (use spec.ingressClassName instead)"]
       | None => issues
       end)
    ["kubernetes.io/ingress.class"] issues.

(** [generateRecommendations] reads the host count, the detected
    features and the TLS flag of the result built so far. *)
Definition generateRecommendations (src : Source) (result : AnalysisResult)
  : list string :=
  let recommendations := [] in
  let recommendations :=
    if 5 <? HostCount result
    then recommendations
           ++ ["Consider using 'per-pattern' split mode for better organization"]
    else if 1 <? HostCount result
    then recommendations
           ++ ["Use 'single' split mode (default) for optimal Gateway API resource usage"]
    else recommendations in
  let recommendations :=
    if contains (DetectedFeatures result) "PROXY_READ_TIMEOUT"
    then recommendations
           ++ ["Both timeouts.request and timeouts.backendRequest will be set for complete timeout control"]
    else recommendations in
  let recommendations :=
    if contains (DetectedFeatures result) "CANARY"
    then recommendations
           ++ ["Canary deployments will be converted to HTTPRoute backendRefs with traffic splitting"]
    else recommendations in
  if TLSEnabled result
  then recommendations
         ++ ["Ensure Gateway has matching HTTPS listeners configured"]
  else recommendations.

(** The first loop of [analyzeIngress]: the set of hosts and the number
    of paths. *)
Fixpoint countHostsAndPaths (rules : list IngressRule)
    (hostMap : gmap string bool) (pathCount : Z) : gmap string bool * Z :=
  match rules with
  | [] => (hostMap, pathCount)
  | rule :: rest =>
      let hostMap :=
        if negb (String.eqb (Host rule) "") then <[Host rule := true]> hostMap
        else hostMap in
      let pathCount :=
        match HTTP rule with
        | Some paths => wrapInt (pathCount + Z.of_nat (length paths))
        | None => pathCount
        end in
      countHostsAndPaths rest hostMap pathCount
  end.

(** [analyzeIngress]; [roHosts] is the order in which [range] visits
    [hostMap], [roChecks] the order in which it visits
    [annotationChecks]. *)
Definition analyzeIngress (roHosts : MapRange bool) (roChecks : MapRange string)
    (src : Source) : AnalysisResult :=
  let '(hostMap, pathCount) := countHostsAndPaths (Rules src) ∅ 0 in
  let features := detectFeatures roChecks src in
  let score := calculateComplexity src features in
  let result :=
    {| ar_Name := Name src;
       ar_Namespace := Namespace src;
       IngressClass := getIngressClass src;
       HostCount := Z.of_nat (size hostMap);
       ar_Hostnames := (roHosts (map_to_list hostMap)).*1;
       PathCount := pathCount;
       TLSEnabled := (0 <? length (TLS src))%nat;
       ar_Annotations := Annotations src;
       DetectedFeatures := features;
       ComplexityScore := score;
       MigrationReadiness := assessReadiness score features;
       Issues := identifyIssues src features;
       Recommendations := [] |} in
  {| ar_Name := ar_Name result;
     ar_Namespace := ar_Namespace result;
     IngressClass := IngressClass result;
     HostCount := HostCount result;
     ar_Hostnames := ar_Hostnames result;
     PathCount := PathCount result;
     TLSEnabled := TLSEnabled result;
     ar_Annotations := ar_Annotations result;
     DetectedFeatures := DetectedFeatures result;
     ComplexityScore := ComplexityScore result;
     MigrationReadiness := MigrationReadiness result;
     Issues := Issues result;
     Recommendations := generateRecommendations src result |}.

End analysis.

(** ** cmd/batch.go: the loops of runBatch *)

Module batch.

Import networkingv1 converter.

(** What [runBatch] gets from the cluster and from the file system for
    one namespace: the Ingresses listed, or [None] when the listing
    fails; whether the directory of the namespace can be made; and
    whether the file of the [i]-th route of the [n]-th Ingress can be
    created, and written. *)
Record Namespace := {
  ListIngresses : option (list Ingress);
  MkdirAll : bool;
  Create : nat → nat → bool;
  WriteOutput : nat → nat → bool
}.

Record Totals := {
  totalConverted : Z;
  totalFailed : Z
}.

(** [totalConverted++]. *)
Definition converted (t : Totals) : Totals :=
  {| totalConverted := wrapInt (totalConverted t + 1);
     totalFailed := totalFailed t |}.

(** [totalFailed++]. *)
Definition failed (t : Totals) : Totals :=
  {| totalConverted := totalConverted t;
     totalFailed := wrapInt (totalFailed t + 1) |}.

(** The loop over the routes of the [n]-th Ingress: one file a route. *)
Fixpoint writeRoutes (ns : Namespace) (n i : nat)
    (httpRoutes : list gatewayv1.HTTPRoute) (t : Totals) : Totals :=
  match httpRoutes with
  | [] => t
  | _ :: rest =>
      let t :=
        if negb (Create ns n i) then failed t
        else if negb (WriteOutput ns n i) then failed t
        else converted t in
      writeRoutes ns n (S i) rest t
  end.

(** The loop over the Ingresses of a namespace: each is converted on
    its own, as a batch of one. *)
Fixpoint convertEach (ro : RangeOrder) (c : Converter) (ns : Namespace)
    (n : nat) (ingresses : list Ingress) (t : Totals) : result Totals :=
  match ingresses with
  | [] => Ok t
  | ingress :: rest =>
      match Convert ro c [IngressRes ingress] with
      | Err _ => convertEach ro c ns (S n) rest (failed t)
      | Panic => Panic
      | Ok httpRoutes =>
          convertEach ro c ns (S n) rest (writeRoutes ns n 0 httpRoutes t)
      end
  end.

(** The loop over the namespaces. *)
Fixpoint processNamespaces (ro : RangeOrder) (c : Converter)
    (namespaces : list Namespace) (t : Totals) : result Totals :=
  match namespaces with
  | [] => Ok t
  | ns :: rest =>
      match ListIngresses ns with
      | None => processNamespaces ro c rest t
      | Some [] => processNamespaces ro c rest t
      | Some ingresses =>
          if negb (MkdirAll ns) then processNamespaces ro c rest t
          else
            t ← convertEach ro c ns 0 ingresses t;
            processNamespaces ro c rest t
      end
  end.

(** [runBatch], from the point where the client, the namespaces and
    the output directory are there: the converter gets the split mode
    and the gateway class of the flags and no gateway name, and the
    totals start at 0.  The result is the totals of the summary. *)
Definition runBatch (ro : RangeOrder) (splitMode gatewayClass : string)
    (namespaces : list Namespace) : result Totals :=
  let opts := {| SplitMode := splitMode;
                 GatewayName := "";
                 GatewayClass := gatewayClass;
                 OutputFormat := "yaml" |} in
  let c := NewConverter opts in
  processNamespaces ro c namespaces {| totalConverted := 0; totalFailed := 0 |}.

End batch.

(** ** Vocabulary of further properties *)

Module vocab.

Import networkingv1.

(** The text has no byte [sep]. *)
Fixpoint without (sep : ascii) (s : string) : bool :=
  match s with
  | EmptyString => true
  | String c r => negb (Ascii.eqb c sep) && without sep r
  end.

(** The hosts of a list that have the pattern [p], in the order of the
    list. *)
Definition hostsOfPattern (p : string) (hosts : list string) : list string :=
  filter (λ h, converter.extractHostPattern h = p) hosts.

(** What the [groups] map of [convertPerPattern] holds after the hosts
    [seen]: under each pattern, the hosts of that pattern in their
    order. *)
Definition groupsOf (groups : gmap string (list string)) (seen : list string)
  : Prop :=
  ∀ p, groups !! p =
       match hostsOfPattern p seen with
       | [] => None
       | hosts => Some hosts
       end.

(** The source rules with a host, each with its index among all the
    source rules, counted from [i]. *)
Fixpoint indexedHostRules (i : Z) (rules : list IngressRule)
  : list (Z * IngressRule) :=
  match rules with
  | [] => []
  | rule :: rest =>
      if String.eqb (Host rule) "" then indexedHostRules (i + 1) rest
      else (i, rule) :: indexedHostRules (i + 1) rest
  end.

(** The target that per-host mode builds from the source rule [e.2] of
    index [e.1]: its rules come from the paths of that source rule. *)
Definition builtFromRule (c : converter.Converter) (ing : Ingress)
    (e : Z * IngressRule) (hr : gatewayv1.HTTPRoute) : Prop :=
  ∃ routeRules,
    match HTTP e.2 with
    | Some paths => converter.convertHTTPRules ing paths = Ok routeRules
    | None => routeRules = []
    end
    ∧ hr = converter.hostRoute c ing e.1 e.2 routeRules.

(** The first source rule, if there is one, has a service on every
    path. *)
Definition firstRuleComplete (ing : Ingress) : bool :=
  match Rules ing with
  | rule0 :: _ => spec.ruleComplete rule0
  | [] => true
  end.

(** Every source rule with a host has a service on every path. *)
Definition hostRulesComplete (ing : Ingress) : bool :=
  forallb (λ rule, String.eqb (Host rule) "" || spec.ruleComplete rule)
    (Rules ing).

(** There is no source rule with a host, or the first source rule has a
    service on every path. *)
Definition perPatternComplete (ing : Ingress) : bool :=
  match spec.sourceHosts ing with
  | [] => true
  | _ :: _ => firstRuleComplete ing
  end.

(** The same Ingress with another default backend. *)
Definition setDefaultBackend (ing : Ingress) (backend : option IngressBackend)
  : Ingress :=
  {| Name := Name ing;
     Namespace := Namespace ing;
     Labels := Labels ing;
     Annotations := Annotations ing;
     IngressClassName := IngressClassName ing;
     DefaultBackend := backend;
     Rules := Rules ing |}.

(** Every byte of the text is ASCII. *)
Fixpoint isASCII (s : string) : bool :=
  match s with
  | EmptyString => true
  | String c r => (N_of_ascii c <? 128)%N && isASCII r
  end.

(** A lower-case letter, a digit or a hyphen. *)
Definition nameByte (c : ascii) : bool :=
  let n := N_of_ascii c in
  (((97 <=? n) && (n <=? 122)) || ((48 <=? n) && (n <=? 57)) || (n =? 45))%N.

Fixpoint allBytes (P : ascii → bool) (s : string) : bool :=
  match s with
  | EmptyString => true
  | String c r => P c && allBytes P r
  end.

(** The text starts with the byte [c]. *)
Definition startsWith (c : ascii) (s : string) : bool :=
  match s with
  | String c' _ => Ascii.eqb c' c
  | EmptyString => false
  end.

(** A path match with a value and no type. *)
Definition untypedPath (m : gatewayv1.HTTPRouteMatch) : bool :=
  match gatewayv1.Path m with
  | Some path =>
      match gatewayv1.pm_Value path, gatewayv1.pm_Type path with
      | Some _, None => true
      | _, _ => false
      end
  | None => false
  end.

(** Some rule of the route has a path match with a value and no type. *)
Definition hasUntypedPath (hr : gatewayv1.HTTPRoute) : bool :=
  existsb (λ rule, existsb untypedPath (gatewayv1.Matches rule))
    (gatewayv1.Rules hr).

(** The type and value of a path match that has both, as one text. *)
Definition matchKey (m : gatewayv1.HTTPRouteMatch) : option string :=
  match gatewayv1.Path m with
  | Some path =>
      match gatewayv1.pm_Value path, gatewayv1.pm_Type path with
      | Some value, Some t => Some (routecheck.pathTypeString t +:+ ":" +:+ value)
      | _, _ => None
      end
  | None => None
  end.

(** The typed path matches of the rules, in order: each as its key with
    the index of its rule, the first rule having index [i]. *)
Fixpoint keyEvents (rules : list gatewayv1.HTTPRouteRule) (i : Z)
  : list (string * Z) :=
  match rules with
  | [] => []
  | rule :: rest =>
      ((λ k, (k, i)) <$> omap matchKey (gatewayv1.Matches rule))
      ++ keyEvents rest (i + 1)
  end.

(** The rule indices recorded with the key [k], once per match. *)
Definition indicesOf (k : string) (events : list (string * Z)) : list Z :=
  (filter (λ e, e.1 = k) events).*2.

(** The keys recorded more than once, each once, in order of first
    occurrence. *)
Definition conflictKeys (events : list (string * Z)) : list string :=
  filter (λ k, (1 < length (indicesOf k events))%nat)
    (spec.distinct events.*1).

(** What the [paths] map of [checkPathConflicts] holds after the typed
    path matches [events]: under each key, the rule indices recorded with
    it. *)
Definition pathsOf (paths : gmap string (list Z)) (events : list (string * Z))
  : Prop :=
  ∀ k, paths !! k =
       match indicesOf k events with
       | [] => None
       | l => Some l
       end.

(** The paths of the first source rule. *)
Definition firstRulePaths (ing : Ingress) : list HTTPIngressPath :=
  match Rules ing with
  | rule0 :: _ =>
      match HTTP rule0 with
      | Some paths => paths
      | None => []
      end
  | [] => []
  end.

(** The path has a service with a name, and is empty or starts with a
    slash. *)
Definition cleanPath (p : HTTPIngressPath) : bool :=
  match Service (Backend p) with
  | Some svc =>
      negb (String.eqb (svc_Name svc) "")
      && (String.eqb (Path p) "" || routecheck.HasPrefix (Path p) "/")
  | None => false
  end.

(** The default backend, if there is one, has a service with a name. *)
Definition cleanDefaultBackend (ing : Ingress) : bool :=
  match DefaultBackend ing with
  | Some backend =>
      match Service backend with
      | Some svc => negb (String.eqb (svc_Name svc) "")
      | None => false
      end
  | None => true
  end.

(** The annotation [key], if it is there and is a number, is not
    negative. *)
Definition cleanTimeout (ing : Ingress) (key : string) : bool :=
  match Annotations ing !! key with
  | Some v =>
      match strconv.Atoi v with
      | (n, true) => 0 <=? n
      | (_, false) => true
      end
  | None => true
  end.

(** A source that single mode converts to a route without validation
    errors: its name is a label that leaves room for the suffix
    -httproute; its hosts are lower-case host names; the paths of its
    first rule and its default backend are clean, and there is one of
    them at least; its timeouts are not negative. *)
Definition cleanSource (ing : Ingress) : bool :=
  routecheck.nameRegex (Name ing)
  && (String.length (Name ing) <=? 53)%nat
  && forallb routecheck.hostnameRegex (spec.sourceHosts ing)
  && forallb cleanPath (firstRulePaths ing)
  && cleanDefaultBackend ing
  && match firstRulePaths ing, DefaultBackend ing with
     | [], None => false
     | _, _ => true
     end
  && cleanTimeout ing converter.readTimeoutKey
  && cleanTimeout ing converter.sendTimeoutKey.

(** The source shows the feature [f]: one of its annotations is checked
    for [f], or [f] is the TLS feature and the source has a TLS entry, or
    [f] is the default-backend feature and the source has a default
    backend. *)
Definition hasFeature (src : analysis.Source) (f : string) : Prop :=
  (∃ ann, (ann, f) ∈ analysis.annotationChecks
          ∧ Annotations (analysis.ing src) !! ann ≠ None)
  ∨ (f = "TLS_TERMINATION" ∧ analysis.TLS src ≠ [])
  ∨ (f = "DEFAULT_BACKEND" ∧ DefaultBackend (analysis.ing src) ≠ None).

(** The source has one of the two snippet annotations. *)
Definition hasSnippet (ing : Ingress) : Prop :=
  Annotations ing !! "nginx.ingress.kubernetes.io/configuration-snippet"
  ≠ None
  ∨ Annotations ing !! "nginx.ingress.kubernetes.io/server-snippet" ≠ None.

(** The paths of all the source rules. *)
Definition allPaths (ing : Ingress) : list HTTPIngressPath :=
  Rules ing ≫= (λ rule, default [] (HTTP rule)).

(** Two analysis results that differ at most in the order of the
    hostnames and of the detected features. *)
Definition sameAnalysis (r1 r2 : analysis.AnalysisResult) : Prop :=
  analysis.ar_Name r1 = analysis.ar_Name r2
  ∧ analysis.ar_Namespace r1 = analysis.ar_Namespace r2
  ∧ analysis.IngressClass r1 = analysis.IngressClass r2
  ∧ analysis.HostCount r1 = analysis.HostCount r2
  ∧ analysis.ar_Hostnames r1 ≡ₚ analysis.ar_Hostnames r2
  ∧ analysis.PathCount r1 = analysis.PathCount r2
  ∧ analysis.TLSEnabled r1 = analysis.TLSEnabled r2
  ∧ analysis.ar_Annotations r1 = analysis.ar_Annotations r2
  ∧ analysis.DetectedFeatures r1 ≡ₚ analysis.DetectedFeatures r2
  ∧ analysis.ComplexityScore r1 = analysis.ComplexityScore r2
  ∧ analysis.MigrationReadiness r1 = analysis.MigrationReadiness r2
  ∧ analysis.Issues r1 = analysis.Issues r2
  ∧ analysis.Recommendations r1 = analysis.Recommendations r2.

(** The weight of a feature in the complexity score; 0 when it has
    none. *)
Definition weightOf (feature : string) : Z :=
  default 0 (analysis.complexityMap !! feature).

Definition sumWeights (features : list string) : Z :=
  foldr (λ feature acc, weightOf feature + acc) 0 features.

(** The features that have a weight. *)
Definition weighted : list string :=
  [ "URL_REWRITE"; "CUSTOM_SNIPPET"; "SERVER_SNIPPET"; "CANARY";
    "CANARY_WEIGHT"; "MIRRORING"; "AUTHENTICATION"; "CORS";
    "BACKEND_PROTOCOL"; "PROXY_READ_TIMEOUT"; "SSL_REDIRECT" ].

(** What the snippet annotations add to the issues. *)
Definition snippetIssue : string :=
  "Custom NGINX snippets require manual review and cannot be directly migrated".

(** What the rules and the TLS entries of a source add to its score. *)
Definition baseScore (src : analysis.Source) : Z :=
  2 * Z.of_nat (length (Rules (analysis.ing src)))
  + 3 * Z.of_nat (length (analysis.TLS src)).

(** The Ingresses that [runBatch] converts: those of the namespaces
    whose listing and whose directory succeed, in order. *)
Definition namespaceItems (ns : batch.Namespace) : list Ingress :=
  match batch.ListIngresses ns with
  | Some ingresses => if batch.MkdirAll ns then ingresses else []
  | None => []
  end.

Definition batchItems (namespaces : list batch.Namespace) : list Ingress :=
  namespaces ≫= namespaceItems.

Definition isPanic {A} (r : result A) : bool :=
  match r with
  | Panic => true
  | _ => false
  end.

Definition isErr {A} (r : result A) : bool :=
  match r with
  | Err _ => true
  | _ => false
  end.

(** The routes of the conversions that succeed. *)
Definition routesOf (outcomes : list (result (list gatewayv1.HTTPRoute)))
  : list gatewayv1.HTTPRoute :=
  outcomes ≫= (λ o, match o with
                     | Ok routes => routes
                     | _ => []
                     end).

(** Every file of the namespace can be created and written. *)
Definition filesWritable (ns : batch.Namespace) : Prop :=
  ∀ n i, batch.Create ns n i = true ∧ batch.WriteOutput ns n i = true.

(** The converter of [runBatch]. *)
Definition batchConverter (splitMode gatewayClass : string)
  : converter.Converter :=
  converter.NewConverter
    {| converter.SplitMode := splitMode;
       converter.GatewayName := "";
       converter.GatewayClass := gatewayClass;
       converter.OutputFormat := "yaml" |}.

(** The errors of the conversions that return one. *)
Definition errorsOf {A} (outcomes : list (result A)) : list string :=
  outcomes ≫= (λ o, match o with
                     | Err e => [e]
                     | _ => []
                     end).

(** The outcome of the conversion of each Ingress of the batch, as
    [runBatch] configures the converter. *)
Definition batchOutcomes (ro : RangeOrder) (splitMode gatewayClass : string)
    (namespaces : list batch.Namespace)
  : list (result (list gatewayv1.HTTPRoute)) :=
  converter.convertIngress ro (batchConverter splitMode gatewayClass)
    <$> batchItems namespaces.

(** The check [f] only adds to the errors, and adds none exactly when
    [P] holds. *)
Definition reports
    (f : validator.ValidationResult → validator.ValidationResult) (P : Prop)
  : Prop :=
  ∀ res, ∃ more,
    validator.Errors (f res) = validator.Errors res ++ more
    ∧ (more = [] ↔ P).

(** A path match, if there is one, has a value that starts with a
    slash. *)
Definition acceptableMatch (m : gatewayv1.HTTPRouteMatch) : Prop :=
  match gatewayv1.Path m with
  | Some path =>
      ∃ value, gatewayv1.pm_Value path = Some value
               ∧ routecheck.HasPrefix value "/" = true
  | None => True
  end.

(** A backend reference has a name and a port, and no negative
    weight. *)
Definition acceptableRef (ref : gatewayv1.HTTPBackendRef) : Prop :=
  gatewayv1.br_Name ref ≠ ""
  ∧ gatewayv1.br_Port ref ≠ None
  ∧ ∀ w, gatewayv1.br_Weight ref = Some w → 0 ≤ w.

(** The timeouts that are set are durations, and when both are set
    and more than 0 seconds, the backend request timeout is not the
    longer one. *)
Definition acceptableTimeouts (t : gatewayv1.HTTPRouteTimeouts) : Prop :=
  (∀ r b, gatewayv1.Request t = Some r → gatewayv1.BackendRequest t = Some b →
          ¬ (0 < validator.parseDuration r ∧ 0 < validator.parseDuration b
             ∧ validator.parseDuration r < validator.parseDuration b))
  ∧ (∀ r, gatewayv1.Request t = Some r → validator.isValidDuration r = true)
  ∧ (∀ b, gatewayv1.BackendRequest t = Some b →
          validator.isValidDuration b = true).

(** A rewrite or redirect filter has its configuration. *)
Definition acceptableFilter (f : gatewayv1.HTTPRouteFilter) : Prop :=
  match gatewayv1.f_Type f with
  | gatewayv1.HTTPRouteFilterURLRewrite => gatewayv1.URLRewrite f ≠ None
  | gatewayv1.HTTPRouteFilterRequestRedirect =>
      gatewayv1.RequestRedirect f ≠ None
  | _ => True
  end.

Definition acceptableRule (rule : gatewayv1.HTTPRouteRule) : Prop :=
  Forall acceptableMatch (gatewayv1.Matches rule)
  ∧ gatewayv1.BackendRefs rule ≠ []
  ∧ Forall acceptableRef (gatewayv1.BackendRefs rule)
  ∧ (∀ t, gatewayv1.Timeouts rule = Some t → acceptableTimeouts t)
  ∧ Forall acceptableFilter (gatewayv1.Filters rule).

(** A route on which the validator reports no error. *)
Definition acceptable (hr : gatewayv1.HTTPRoute) : Prop :=
  (routecheck.nameRegex (gatewayv1.Name hr) = true
   ∧ (String.length (gatewayv1.Name hr) ≤ 63)%nat)
  ∧ Forall (λ h, routecheck.hostnameRegex h = true) (gatewayv1.Hostnames hr)
  ∧ (gatewayv1.ParentRefs hr ≠ []
     ∧ Forall (λ ref, gatewayv1.pr_Name ref ≠ "") (gatewayv1.ParentRefs hr))
  ∧ gatewayv1.Rules hr ≠ []
  ∧ Forall acceptableRule (gatewayv1.Rules hr).

(** The same Ingress with other annotations. *)
Definition setAnnotations (ing : Ingress) (annotations : gmap string string)
  : Ingress :=
  {| Name := Name ing;
     Namespace := Namespace ing;
     Labels := Labels ing;
     Annotations := annotations;
     IngressClassName := IngressClassName ing;
     DefaultBackend := DefaultBackend ing;
     Rules := Rules ing |}.

(** The annotations the converter reads. *)
Definition readAnnotations : list string :=
  [ converter.rewriteTargetKey; converter.permanentRedirectKey;
    converter.readTimeoutKey; converter.sendTimeoutKey;
    converter.ingressClassKey ].

End vocab.

(** What a check adds to the errors is read off its result; it is left
    to show the property when nothing is added, and to refute it when
    something is. *)
Ltac report :=
  eexists;
  split;
  [ cbn [validator.Errors validator.addError routecheck.addWarning];
    first [ reflexivity
          | symmetry; apply app_nil_r
          | rewrite <- !app_assoc; reflexivity ]
  | split; [ try discriminate; intros _ | try (intros _; reflexivity) ] ].

(** ** Further samples *)

Module moresamples.

Import gatewayv1.

(** [range] yielding the entries of a map in the order of the listing. *)
Definition listed {V : Type} : MapRange V :=
  {| map_range := λ l, l;
     map_range_perm := λ l, reflexivity l |}.

(** [range] yielding the entries in the opposite order. *)
Definition reversed {V : Type} : MapRange V :=
  {| map_range := λ l, reverse l;
     map_range_perm := λ l, reverse_Permutation l |}.

Definition emptyResult : validator.ValidationResult :=
  {| validator.ResourceName := "";
     validator.Errors := [];
     validator.Warnings := [] |}.

Definition rootMatch : HTTPRouteMatch :=
  {| Path := Some {| pm_Type := Some PathMatchPathPrefix;
                     pm_Value := Some "/" |} |}.

(** A path match with a value and no type. *)
Definition untypedMatch : HTTPRouteMatch :=
  {| Path := Some {| pm_Type := None; pm_Value := Some "/" |} |}.

(** A route with one rule, of the given matches. *)
Definition routeOf (matches : list HTTPRouteMatch) : HTTPRoute :=
  {| APIVersion := "gateway.networking.k8s.io/v1";
     Kind := "HTTPRoute";
     Name := "valid-route";
     Namespace := "default";
     Labels := ∅;
     Hostnames := ["app.example.com"];
     ParentRefs := [ {| pr_Name := "gateway-nginx"; pr_Kind := None |} ];
     Rules := [ {| Matches := matches;
                   Filters := [];
                   BackendRefs := [ {| br_Name := "app-service";
                                       br_Port := Some 80;
                                       br_Weight := None |} ];
                   Timeouts := None |} ] |}.

(** The one rule matches the same path twice. *)
Definition repeatedMatchRoute : HTTPRoute := routeOf [rootMatch; rootMatch].

Definition untypedRoute : HTTPRoute := routeOf [untypedMatch].

(** A source with two hosts, one path, a rewrite and a read timeout. *)
Definition cleanIngress : networkingv1.Ingress :=
  samples.ingressOf {[ converter.rewriteTargetKey := "/";
                       converter.readTimeoutKey := "600" ]} None
    [ samples.hostRule "app.example.com"
        [ samples.prefixPath "/api" (samples.service "api" 80);
          samples.prefixPath "" (samples.service "web" 80) ];
      samples.hostRule "www.example.com" [] ].

(** The Ingress of the converter tests, with one TLS entry. *)
Definition withTLS : analysis.Source :=
  {| analysis.ing := samples.testIngress;
     analysis.TLS := [ {| analysis.tls_Hosts := ["app.example.com"];
                          analysis.SecretName := "tls-secret" |} ] |}.

(** A source with a server snippet. *)
Definition withSnippet : analysis.Source :=
  {| analysis.ing :=
       samples.ingressOf
         {[ "nginx.ingress.kubernetes.io/server-snippet" := "gzip on;" ]}
         None [ samples.hostRule "app.example.com" [] ];
     analysis.TLS := [] |}.

(** A namespace with two Ingresses and a file system that takes every
    file. *)
Definition twoIngresses : batch.Namespace :=
  {| batch.ListIngresses := Some [samples.testIngress; samples.twoHosts];
     batch.MkdirAll := true;
     batch.Create := λ _ _, true;
     batch.WriteOutput := λ _ _, true |}.

(** The routes of the validator tests. *)
Definition testRoute (name : string) (hostnames : list string)
    (parentRefs : list ParentReference) (rules : list HTTPRouteRule)
  : HTTPRoute :=
  {| APIVersion := ""; Kind := ""; Name := name; Namespace := "default";
     Labels := ∅; Hostnames := hostnames; ParentRefs := parentRefs;
     Rules := rules |}.

Definition gatewayNginx : list ParentReference :=
  [ {| pr_Name := "gateway-nginx"; pr_Kind := None |} ].

(** A rule without matches, to one service. *)
Definition backendRule (timeouts : option HTTPRouteTimeouts) : HTTPRouteRule :=
  {| Matches := [];
     Filters := [];
     BackendRefs := [ {| br_Name := "app-service";
                         br_Port := Some 80;
                         br_Weight := None |} ];
     Timeouts := timeouts |}.

(** The sources of the analyzer tests. *)
Definition analyzed (annotations : gmap string string)
    (tls : list analysis.IngressTLS) : analysis.Source :=
  {| analysis.ing :=
       {| networkingv1.Name := "test-ingress";
          networkingv1.Namespace := "default";
          networkingv1.Labels := ∅;
          networkingv1.Annotations := annotations;
          networkingv1.IngressClassName := None;
          networkingv1.DefaultBackend := None;
          networkingv1.Rules := [] |};
     analysis.TLS := tls |}.

Definition tlsSecret : analysis.IngressTLS :=
  {| analysis.tls_Hosts := ["example.com"];
     analysis.SecretName := "tls-secret" |}.

(** The number of errors and of warnings of a validation. *)
Definition counts (r : result validator.ValidationResult)
  : option (nat * nat) :=
  match r with
  | Ok res =>
      Some (length (validator.Errors res), length (validator.Warnings res))
  | _ => None
  end.

(** The annotations of the test Ingress and a canary annotation. *)
Definition withCanary : gmap string string :=
  <["nginx.ingress.kubernetes.io/canary" := "true"]>
    (networkingv1.Annotations samples.testIngress).

End moresamples.

(** * Properties *)

(** ** The embedding on the cases of the repository's tests *)

Section TestCases.

Import networkingv1 converter.

Example test_isValidDuration :
  validator.isValidDuration <$> ["60s"; "5m"; "2h"; "100ms"; "60"; "60x"; "-60s"; ""]
  = [true; true; true; true; false; false; false; false].
Proof. vm_compute. reflexivity. Qed.

Example test_parseDuration :
  validator.parseDuration <$> ["60s"; "5m"; "2h"; "1000ms"; "invalid"]
  = [60; 300; 7200; 1; 0].
Proof. vm_compute. reflexivity. Qed.

Example test_extractHostPattern :
  extractHostPattern <$> ["app.example.com"; "api.dev.example.com"; "localhost"]
  = ["example.com"; "example.com"; "localhost"].
Proof. vm_compute. reflexivity. Qed.

Example test_sanitizeName :
  sanitizeName <$> ["example-com"; "EXAMPLE.COM"; "example_com!"]
  = ["example-com"; "example-com"; "example-com"].
Proof. vm_compute. reflexivity. Qed.

Example test_deriveGatewayName :
  deriveGatewayName samples.testIngress = "gateway-nginx".
Proof. vm_compute. reflexivity. Qed.

Example test_Convert_counts :
  (λ mode,
     match Convert samples.inListedOrder (samples.converterOf mode)
             [IngressRes samples.testIngress] with
     | Ok routes => Some (length routes)
     | _ => None
     end) <$> ["single"; "per-host"; "per-pattern"]
  = [Some 1%nat; Some 2%nat; Some 1%nat].
Proof. vm_compute. reflexivity. Qed.

Example test_assessReadiness :
  (λ '(score, features), analyzer.assessReadiness score features)
    <$> [ (5, ["TLS_TERMINATION"]);
          (15, ["URL_REWRITE"; "CORS"]);
          (30, ["CANARY"; "URL_REWRITE"; "MIRRORING"]);
          (10, ["CUSTOM_SNIPPET"]);
          (8, ["SERVER_SNIPPET"]) ]
  = ["READY"; "MOSTLY_READY"; "COMPLEX"; "MANUAL_REVIEW_REQUIRED";
     "MANUAL_REVIEW_REQUIRED"].
Proof. vm_compute. reflexivity. Qed.

(** Fourteen hosts that share three paths give three rules in single
    mode, each with both timeouts at 600s, and the fourteen hostnames in
    source order. *)
Example scenario_fourteen_hosts :
  ∃ hr,
    Convert samples.inListedOrder (samples.converterOf "single")
      [IngressRes samples.fourteenHosts] = Ok [hr]
    ∧ length (gatewayv1.Rules hr) = 3%nat
    ∧ gatewayv1.Timeouts <$> gatewayv1.Rules hr
      = replicate 3 (Some {| gatewayv1.Request := Some "600s";
                             gatewayv1.BackendRequest := Some "600s" |})
    ∧ gatewayv1.Hostnames hr = spec.sourceHosts samples.fourteenHosts
    ∧ length (gatewayv1.Hostnames hr) = 14%nat.
Proof.
  eexists. split; [vm_compute; reflexivity|]. repeat split.
Qed.

End TestCases.

(** ** Readiness classification *)

Section Readiness.

Import analyzer.

Lemma contains_In (slice : list string) (item : string) :
  contains slice item = true ↔ In item slice.
Proof.
  induction slice as [|s rest IH]; simpl.
  - split; [discriminate | tauto].
  - destruct (String.eqb_spec s item) as [->|Hne].
    + split; auto.
    + rewrite IH. split; [auto | intros [?|?]; [contradiction | assumption]].
Qed.

Lemma contains_not_In (slice : list string) (item : string) :
  contains slice item = false ↔ ¬ In item slice.
Proof.
  rewrite <- contains_In. destruct (contains slice item); split;
    congruence.
Qed.

(** C9. A feature set holding CUSTOM_SNIPPET or SERVER_SNIPPET is
    classified MANUAL_REVIEW_REQUIRED whatever the score; without
    either tag a score of at most 10 is READY, a score from 11 to 25 is
    MOSTLY_READY, and a score above 25 is COMPLEX. *)
Theorem assessReadiness_classification (score : Z) (features : list string) :
  (In "CUSTOM_SNIPPET" features ∨ In "SERVER_SNIPPET" features →
     assessReadiness score features = "MANUAL_REVIEW_REQUIRED")
  ∧ (¬ In "CUSTOM_SNIPPET" features → ¬ In "SERVER_SNIPPET" features →
     (score ≤ 10 → assessReadiness score features = "READY")
     ∧ (11 ≤ score ≤ 25 → assessReadiness score features = "MOSTLY_READY")
     ∧ (25 < score → assessReadiness score features = "COMPLEX")).
Proof.
  unfold assessReadiness; simpl. split.
  - intros [H|H]; apply contains_In in H; rewrite H;
      [reflexivity | rewrite orb_true_r; reflexivity].
  - intros Hc Hs. apply contains_not_In in Hc, Hs. rewrite Hc, Hs. simpl.
    repeat split; intros Hscore.
    + destruct (Z.leb_spec score 10); [reflexivity | lia].
    + destruct (Z.leb_spec score 10); [lia |].
      destruct (Z.leb_spec score 25); [reflexivity | lia].
    + destruct (Z.leb_spec score 10); [lia |].
      destruct (Z.leb_spec score 25); [lia | reflexivity].
Qed.

Lemma assessReadiness_classification_witness :
  assessReadiness 10 ["CUSTOM_SNIPPET"] = "MANUAL_REVIEW_REQUIRED"
  ∧ assessReadiness 15 ["URL_REWRITE"; "CORS"] = "MOSTLY_READY".
Proof.
  split.
  - apply (proj1 (assessReadiness_classification 10 ["CUSTOM_SNIPPET"])).
    left. simpl. left. reflexivity.
  - apply (proj2 (assessReadiness_classification 15 ["URL_REWRITE"; "CORS"])).
    + simpl. intros [H|[H|[]]]; discriminate H.
    + simpl. intros [H|[H|[]]]; discriminate H.
    + lia.
Defined.

End Readiness.

(** ** The default-backend rule *)

Section DefaultBackend.

Import networkingv1 converter.

(** C10. When the source declares a default backend, single mode appends
    one rule after the rules derived from the host rules; that rule has
    the single match Prefix "/", the single backend reference of the
    default service with weight 1, no filters and no timeouts, whatever
    the annotations of the source are. *)
Theorem default_backend_rule_shape (c : Converter) (ing : Ingress)
    (backend : IngressBackend) (svc : IngressServiceBackend)
    (hostRules : list gatewayv1.HTTPRouteRule) :
  DefaultBackend ing = Some backend →
  Service backend = Some svc →
  firstRuleRules ing = Ok hostRules →
  ∃ hr defaultRule,
    convertSingle c ing = Ok [hr]
    ∧ gatewayv1.Rules hr = hostRules ++ [defaultRule]
    ∧ createDefaultBackendRule ing backend = Ok defaultRule
    ∧ gatewayv1.Matches defaultRule =
        [ {| gatewayv1.Path := Some {|
               gatewayv1.pm_Type := Some gatewayv1.PathMatchPathPrefix;
               gatewayv1.pm_Value := Some "/" |} |} ]
    ∧ gatewayv1.BackendRefs defaultRule =
        [ {| gatewayv1.br_Name := svc_Name svc;
             gatewayv1.br_Port := Some (Number (Port svc));
             gatewayv1.br_Weight := Some 1 |} ]
    ∧ gatewayv1.Filters defaultRule = []
    ∧ gatewayv1.Timeouts defaultRule = None.
Proof.
  intros Hdefault Hsvc Hrules.
  unfold convertSingle, createDefaultBackendRule.
  rewrite Hrules, Hdefault, Hsvc. simpl.
  eexists _, _. repeat split; reflexivity.
Qed.

Lemma default_backend_rule_shape_witness :
  ∃ hr defaultRule,
    convertSingle (samples.converterOf "single") samples.withDefaultBackend
      = Ok [hr]
    ∧ length (gatewayv1.Rules hr) = 2%nat
    ∧ last (gatewayv1.Rules hr) = Some defaultRule
    ∧ gatewayv1.Filters defaultRule = []
    ∧ gatewayv1.Timeouts defaultRule = None.
Proof.
  destruct (default_backend_rule_shape (samples.converterOf "single")
              samples.withDefaultBackend (samples.service "fallback" 8080)
              {| svc_Name := "fallback";
                 Port := {| port_Name := ""; Number := 8080 |} |}
              (match firstRuleRules samples.withDefaultBackend with
               | Ok rules => rules
               | _ => []
               end)
              eq_refl eq_refl)
    as (hr & defaultRule & Hconv & Hrules & _ & _ & _ & Hf & Ht).
  - vm_compute. reflexivity.
  - exists hr, defaultRule. rewrite Hrules.
    split; [exact Hconv|]. split; [vm_compute; reflexivity|].
    split; [apply last_snoc|]. split; assumption.
Defined.

End DefaultBackend.

(** ** The ordering check of the validator *)

Section TimeoutOrdering.

Import validator.

Lemma isDigit_not_sign (c : ascii) :
  strconv.isDigit c = true →
  Ascii.eqb c "-" = false ∧ Ascii.eqb c "+" = false.
Proof.
  intros H. split.
  - destruct (Ascii.eqb_spec c "-") as [-> | ]; [discriminate H | reflexivity].
  - destruct (Ascii.eqb_spec c "+") as [-> | ]; [discriminate H | reflexivity].
Qed.

Lemma digitVal_nonneg (c : ascii) :
  strconv.isDigit c = true → 0 ≤ strconv.digitVal c.
Proof.
  unfold strconv.isDigit, strconv.digitVal. intros H.
  apply andb_true_iff in H as [H _]. apply N.leb_le in H. lia.
Qed.

(** The digits found by [spanDigits] always read as a number. *)
Lemma parseDigits_spanDigits (s : string) (acc : Z) :
  0 ≤ acc →
  ∃ n, strconv.parseDigits (spanDigits s).1 acc = Some n ∧ 0 ≤ n.
Proof.
  revert acc. induction s as [|c r IH]; intros acc Hacc; simpl.
  - eauto.
  - destruct (strconv.isDigit c) eqn:Hc.
    + destruct (spanDigits r) as [digits rest] eqn:Hspan. simpl in *.
      rewrite Hc. apply IH. pose proof (digitVal_nonneg c Hc). lia.
    + simpl. eauto.
Qed.

Lemma spanDigits_head (s : string) (c : ascii) (r : string) :
  (spanDigits s).1 = String c r → strconv.isDigit c = true.
Proof.
  destruct s as [|c' r']; simpl; [discriminate|].
  destruct (strconv.isDigit c') eqn:Hc; [|discriminate].
  destruct (spanDigits r'). simpl. congruence.
Qed.

Lemma durationSubmatch_Some (d digits unit : string) :
  durationSubmatch d = Some (digits, unit) →
  (spanDigits d).1 = digits ∧ digits ≠ "" ∧ isUnit unit = true.
Proof.
  unfold durationSubmatch. destruct (spanDigits d) as [dg u]. simpl.
  destruct (String.eqb_spec dg ""); simpl; [discriminate|].
  destruct (isUnit u) eqn:Hu; [|discriminate].
  intros H; inversion H; subst. auto.
Qed.

(** On the digits of a duration, [Atoi] reads the number, or the largest
    [int] when the number does not fit. *)
Lemma Atoi_digits (d digits unit : string) :
  durationSubmatch d = Some (digits, unit) →
  ∃ n, strconv.parseDigits digits 0 = Some n ∧ 0 ≤ n
       ∧ (strconv.Atoi digits).1 = Z.min n maxInt.
Proof.
  intros H. apply durationSubmatch_Some in H as (Hspan & Hne & _).
  destruct (parseDigits_spanDigits d 0) as (n & Hn & Hpos); [lia|].
  rewrite Hspan in Hn. exists n. split; [assumption|]. split; [assumption|].
  destruct digits as [|c r]; [congruence|].
  apply spanDigits_head in Hspan. apply isDigit_not_sign in Hspan as [Hm Hp].
  unfold strconv.Atoi. rewrite Hm, Hp, Hn.
  destruct (Z.ltb_spec maxInt n); simpl; [lia|].
  destruct (Z.ltb_spec n minInt); simpl; [unfold minInt in *; lia | lia].
Qed.

Lemma isUnit_cases (u : string) :
  isUnit u = true → u = "h" ∨ u = "m" ∨ u = "s" ∨ u = "ms".
Proof.
  unfold isUnit. intros H.
  repeat (apply orb_true_iff in H as [H|H]); apply String.eqb_eq in H; auto.
Qed.

Lemma wrapInt_small (z : Z) : 0 ≤ z ≤ maxInt → wrapInt z = z.
Proof.
  unfold wrapInt, maxInt. intros H. rewrite Z.mod_small; lia.
Qed.

(** Within range the code computes the whole seconds of a duration;
    on text that is not a duration it computes 0. *)
Lemma parseDuration_wholeSeconds (d : string) :
  spec.fitsInt d = true →
  match spec.wholeSeconds d with
  | Some s => isValidDuration d = true ∧ parseDuration d = s ∧ 0 ≤ s
  | None => isValidDuration d = false ∧ parseDuration d = 0
  end.
Proof.
  unfold spec.fitsInt, spec.wholeSeconds, isValidDuration, parseDuration.
  destruct (durationSubmatch d) as [[digits unit]|] eqn:Hd; [|auto].
  destruct (Atoi_digits _ _ _ Hd) as (n & Hn & Hpos & Hatoi).
  apply durationSubmatch_Some in Hd as (_ & _ & Hu).
  rewrite Hn. simpl. intros Hfit. apply Z.leb_le in Hfit.
  rewrite Hatoi, Z.min_l by lia. split; [reflexivity|].
  apply isUnit_cases in Hu as [-> | [-> | [-> | ->]]]; simpl.
  - rewrite wrapInt_small; lia.
  - rewrite wrapInt_small; lia.
  - lia.
  - rewrite Z.quot_div_nonneg by lia. split; [reflexivity|].
    apply Z.div_pos; lia.
Qed.

Lemma orderingError_not_format (idx : Z) (b r : string) :
  orderingError idx b r ≠ requestFormatError idx
  ∧ orderingError idx b r ≠ backendRequestFormatError idx.
Proof.
  unfold orderingError, requestFormatError, backendRequestFormatError.
  split; intros H; apply String.app_inj in H; apply String.app_inj in H;
    cbv in H; discriminate H.
Qed.

(** The findings of [validateTimeouts] are appended to the result. *)
Lemma validateTimeouts_appends (request backendRequest : string) (idx : Z)
    (result : ValidationResult) :
  Errors (validateTimeouts
            {| gatewayv1.Request := Some request;
               gatewayv1.BackendRequest := Some backendRequest |} idx result)
  = Errors result ++ spec.timeoutFindings request backendRequest idx.
Proof.
  unfold spec.timeoutFindings, validateTimeouts. simpl.
  destruct ((0 <? parseDuration request) && (0 <? parseDuration backendRequest)
            && (parseDuration request <? parseDuration backendRequest));
    destruct (isValidDuration request); destruct (isValidDuration backendRequest);
    simpl; rewrite <- ?app_assoc; try reflexivity; rewrite ?app_nil_r; reflexivity.
Qed.

(** The ordering error is reported exactly when the guard of the code
    holds. *)
Lemma reportsOrderingError_guard (request backendRequest : string) (idx : Z) :
  spec.reportsOrderingError request backendRequest idx ↔
  0 < parseDuration request
  ∧ parseDuration request < parseDuration backendRequest.
Proof.
  unfold spec.reportsOrderingError, spec.timeoutFindings, validateTimeouts.
  simpl.
  destruct (orderingError_not_format idx backendRequest request) as [Hr Hb].
  destruct (Z.ltb_spec 0 (parseDuration request));
    destruct (Z.ltb_spec 0 (parseDuration backendRequest));
    destruct (Z.ltb_spec (parseDuration request) (parseDuration backendRequest));
    destruct (isValidDuration request); destruct (isValidDuration backendRequest);
    simpl; split; try lia; try tauto; intros H';
    repeat (destruct H' as [H'|H']; try (symmetry in H'; contradiction));
    try contradiction.
Qed.

(** C8, as stated, fails: with request "0s" and backendRequest "5s" both
    durations are well-formed and 5 > 0 in whole seconds, and no ordering
    error is reported. *)
Lemma ordering_error_missed_for_zero_request :
  ¬ (spec.reportsOrderingError "0s" "5s" 0 ↔
     isValidDuration "0s" = true ∧ isValidDuration "5s" = true
     ∧ ∃ requestSec backendSec,
         spec.wholeSeconds "0s" = Some requestSec
         ∧ spec.wholeSeconds "5s" = Some backendSec
         ∧ requestSec < backendSec).
Proof.
  intros [_ H].
  assert (Hreported : spec.reportsOrderingError "0s" "5s" 0).
  { apply H. split; [reflexivity|]. split; [reflexivity|].
    exists 0, 5. split; [reflexivity|]. split; [reflexivity | lia]. }
  vm_compute in Hreported. exact Hreported.
Qed.

(** C8 (amended). For timeouts with both fields set, whose numbers stay
    within the range of [int], the validator reports the ordering error
    exactly when both durations are well-formed, the request duration is
    at least one whole second, and backendRequest exceeds request, both
    in whole seconds with sub-second units truncated. *)
Theorem validateTimeouts_ordering_error (request backendRequest : string)
    (idx : Z) :
  spec.fitsInt request = true →
  spec.fitsInt backendRequest = true →
  (spec.reportsOrderingError request backendRequest idx ↔
   isValidDuration request = true ∧ isValidDuration backendRequest = true
   ∧ ∃ requestSec backendSec,
       spec.wholeSeconds request = Some requestSec
       ∧ spec.wholeSeconds backendRequest = Some backendSec
       ∧ 0 < requestSec ∧ requestSec < backendSec).
Proof.
  intros Hr Hb. rewrite reportsOrderingError_guard.
  pose proof (parseDuration_wholeSeconds request Hr) as Hreq.
  pose proof (parseDuration_wholeSeconds backendRequest Hb) as Hback.
  destruct (spec.wholeSeconds request) as [rs|];
    destruct (spec.wholeSeconds backendRequest) as [bs|].
  - destruct Hreq as (Hvr & -> & _), Hback as (Hvb & -> & _). split.
    + intros [? ?]. split; [assumption|]. split; [assumption|].
      exists rs, bs. auto.
    + intros (_ & _ & rs' & bs' & Hrs & Hbs & ? & ?).
      inversion Hrs; inversion Hbs; subst. auto.
  - destruct Hback as (_ & ->). split; [lia|].
    intros (_ & _ & ? & ? & _ & Hbs & _). discriminate Hbs.
  - destruct Hreq as (_ & ->). split; [lia|].
    intros (_ & _ & ? & ? & Hrs & _). discriminate Hrs.
  - destruct Hreq as (_ & ->). split; [lia|].
    intros (_ & _ & ? & ? & Hrs & _). discriminate Hrs.
Qed.

Lemma validateTimeouts_ordering_error_witness :
  spec.reportsOrderingError "300s" "600s" 0.
Proof.
  apply (validateTimeouts_ordering_error "300s" "600s" 0).
  - vm_compute. reflexivity.
  - vm_compute. reflexivity.
  - split; [reflexivity|]. split; [reflexivity|].
    exists 300, 600. split; [reflexivity|]. split; [reflexivity|]. lia.
Defined.

(** *** Durations written by the converter *)

Lemma pretty_N_char_digit (x : N) :
  (x < 10)%N →
  strconv.isDigit (pretty_N_char x) = true
  ∧ strconv.digitVal (pretty_N_char x) = Z.of_N x.
Proof.
  intros H. destruct x as [|p]; [split; reflexivity|].
  repeat (destruct p as [p|p|]; try lia; try (split; reflexivity)).
Qed.

(** Reading back the digits written for [x] in front of [s]. *)
Lemma parseDigits_pretty_N_go (x : N) (s : string) :
  strconv.parseDigits (pretty_N_go x s) 0 = strconv.parseDigits s (Z.of_N x).
Proof.
  revert s. induction (N.lt_wf_0 x) as [x _ IH]; intros s.
  destruct (N.eq_0_gt_0_cases x) as [->|Hpos]; [reflexivity|].
  rewrite pretty_N_go_step by assumption.
  rewrite IH by (apply N.div_lt; [assumption | reflexivity]).
  destruct (pretty_N_char_digit (x `mod` 10)) as [Hd Hv];
    [apply N.mod_lt; discriminate|].
  simpl. rewrite Hd, Hv. f_equal.
  rewrite (N.div_mod x 10) at 3 by discriminate. lia.
Qed.

Lemma spanDigits_pretty_N_go (x : N) (s : string) :
  spanDigits (pretty_N_go x s) =
    (pretty_N_go x (spanDigits s).1, (spanDigits s).2).
Proof.
  revert s. induction (N.lt_wf_0 x) as [x _ IH]; intros s.
  destruct (N.eq_0_gt_0_cases x) as [->|Hpos].
  - rewrite !pretty_N_go_0. destruct (spanDigits s); reflexivity.
  - rewrite (pretty_N_go_step x s), (pretty_N_go_step x (spanDigits s).1)
      by assumption.
    rewrite IH by (apply N.div_lt; [assumption | reflexivity]).
    destruct (pretty_N_char_digit (x `mod` 10)) as [Hd _];
      [apply N.mod_lt; discriminate|].
    simpl. rewrite Hd. destruct (spanDigits s); reflexivity.
Qed.

Lemma pretty_N_go_app (x : N) (s t : string) :
  pretty_N_go x s +:+ t = pretty_N_go x (s +:+ t).
Proof.
  revert s. induction (N.lt_wf_0 x) as [x _ IH]; intros s.
  destruct (N.eq_0_gt_0_cases x) as [->|Hpos]; [reflexivity|].
  rewrite (pretty_N_go_step x s), (pretty_N_go_step x (s +:+ t))
    by assumption.
  rewrite IH by (apply N.div_lt; [assumption | reflexivity]). reflexivity.
Qed.

(** A number of seconds within [int] is written as a well-formed
    duration, which [parseDuration] reads back. *)
Lemma durationOfSeconds_parses (n : Z) :
  0 ≤ n ≤ maxInt →
  isValidDuration (converter.durationOfSeconds n) = true
  ∧ parseDuration (converter.durationOfSeconds n) = n.
Proof.
  intros Hn. destruct n as [|p|p]; [split; reflexivity | | lia].
  assert (Hsub : durationSubmatch (converter.durationOfSeconds (Z.pos p))
                 = Some (pretty_N_go (N.pos p) "", "s")).
  { unfold converter.durationOfSeconds, strconv.Itoa, pretty, pretty_Z,
      pretty, pretty_positive, pretty, pretty_N.
    rewrite decide_False by discriminate.
    rewrite pretty_N_go_app. unfold durationSubmatch.
    rewrite spanDigits_pretty_N_go. simpl.
    destruct (String.eqb_spec (pretty_N_go (N.pos p) "") "") as [Hempty|];
      [|reflexivity].
    pose proof (parseDigits_pretty_N_go (N.pos p) "") as Hparse.
    rewrite Hempty in Hparse. simpl in Hparse. discriminate Hparse. }
  unfold isValidDuration, parseDuration. rewrite Hsub.
  split; [reflexivity|].
  destruct (Atoi_digits _ _ _ Hsub) as (m & Hm & _ & Hatoi).
  rewrite parseDigits_pretty_N_go in Hm. simpl in Hm. inversion Hm; subst m.
  simpl. rewrite Hatoi. lia.
Qed.

Lemma Atoi_ok_range (s : string) (n : Z) :
  strconv.Atoi s = (n, true) → minInt ≤ n ≤ maxInt.
Proof.
  unfold strconv.Atoi. destruct s as [|c r]; [discriminate|].
  destruct (if Ascii.eqb c "-" then (true, r)
            else if Ascii.eqb c "+" then (false, r) else (false, String c r))
    as [neg body].
  destruct body as [|c' r']; [discriminate|].
  destruct (strconv.parseDigits (String c' r') 0) as [m|]; [|discriminate].
  destruct (Z.ltb_spec maxInt (if neg then - m else m)); [discriminate|].
  destruct (Z.ltb_spec (if neg then - m else m) minInt); [discriminate|].
  intros H'. inversion H'; subst. lia.
Qed.

(** On equal well-formed durations the validator has no finding. *)
Lemma timeoutFindings_equal (d : string) (idx : Z) :
  isValidDuration d = true → spec.timeoutFindings d d idx = [].
Proof.
  intros Hd. unfold spec.timeoutFindings, validateTimeouts. simpl.
  rewrite Z.ltb_irrefl, andb_false_r, Hd. reflexivity.
Qed.

End TimeoutOrdering.

(** ** Timeouts derived from annotations *)

Section Timeouts.

Import networkingv1 converter.

(** Whatever the annotations are, a generated [Timeouts] value has both
    fields set, and to the same duration. *)
Lemma extractTimeouts_fields_equal (ing : Ingress) (t : gatewayv1.HTTPRouteTimeouts) :
  extractTimeouts ing = Some t →
  ∃ d, gatewayv1.Request t = Some d ∧ gatewayv1.BackendRequest t = Some d.
Proof.
  unfold extractTimeouts.
  destruct (Annotations ing !! readTimeoutKey) as [rv|];
    [destruct (strconv.Atoi rv) as [rn [|]]|];
    (destruct (Annotations ing !! sendTimeoutKey) as [sv|];
      [destruct (strconv.Atoi sv) as [sn [|]]|]);
    simpl; intros H; inversion H; subst; simpl; eauto.
Qed.

(** C5. With timeout annotations that are non-negative numbers of
    seconds, a read-timeout of N sets request and backendRequest to "Ns"
    whether or not a send-timeout is present; without a read-timeout a
    send-timeout of N sets both to "Ns"; the validator reads "Ns" back as
    N seconds and has no finding on these timeouts.  Every generated
    Timeouts value has both fields set with backendRequest at most
    request, so that the validator reports no ordering error on it. *)
Theorem extractTimeouts_sets_both (ing : Ingress) :
  (∀ v n, spec.validSeconds v n →
     Annotations ing !! readTimeoutKey = Some v
     ∨ (Annotations ing !! readTimeoutKey = None
        ∧ Annotations ing !! sendTimeoutKey = Some v) →
     extractTimeouts ing =
       Some {| gatewayv1.Request := Some (strconv.Itoa n +:+ "s");
               gatewayv1.BackendRequest := Some (strconv.Itoa n +:+ "s") |}
     ∧ validator.parseDuration (strconv.Itoa n +:+ "s") = n
     ∧ ∀ idx, spec.timeoutFindings (strconv.Itoa n +:+ "s")
                (strconv.Itoa n +:+ "s") idx = [])
  ∧ (∀ t, extractTimeouts ing = Some t →
       ∃ request backendRequest,
         gatewayv1.Request t = Some request
         ∧ gatewayv1.BackendRequest t = Some backendRequest
         ∧ validator.parseDuration backendRequest
             ≤ validator.parseDuration request
         ∧ ∀ idx, ¬ spec.reportsOrderingError request backendRequest idx).
Proof.
  split.
  - intros v n [Hv Hn] Hann.
    pose proof (Atoi_ok_range v n Hv) as [_ Hmax].
    destruct (durationOfSeconds_parses n (conj Hn Hmax)) as [Hvalid Hparse].
    unfold durationOfSeconds in Hvalid, Hparse.
    split; [|split; [exact Hparse | intros idx; apply timeoutFindings_equal, Hvalid]].
    destruct Hann as [Hread | [Hread Hsend]]; unfold extractTimeouts;
      rewrite Hread.
    + rewrite Hv.
      destruct (Annotations ing !! sendTimeoutKey) as [sv|];
        [destruct (strconv.Atoi sv) as [sn [|]]|]; reflexivity.
    + rewrite Hsend, Hv. reflexivity.
  - intros t Ht. destruct (extractTimeouts_fields_equal ing t Ht) as (d & Hr & Hb).
    exists d, d. split; [assumption|]. split; [assumption|]. split; [lia|].
    intros idx Hreported. apply reportsOrderingError_guard in Hreported. lia.
Qed.

Lemma extractTimeouts_sets_both_witness :
  extractTimeouts samples.withDefaultBackend =
    Some {| gatewayv1.Request := Some "600s";
            gatewayv1.BackendRequest := Some "600s" |}.
Proof.
  apply (proj1 (extractTimeouts_sets_both samples.withDefaultBackend) "600" 600).
  - split; [vm_compute; reflexivity | lia].
  - left. vm_compute. reflexivity.
Defined.

End Timeouts.

(** ** Rule synthesis *)

Section RuleSynthesis.

Import networkingv1 converter.

Lemma extractFilters_Ok (ing : Ingress) : ∃ filters, extractFilters ing = Ok filters.
Proof. unfold extractFilters. eauto. Qed.

Lemma ruleOfPath_Ok (ing : Ingress) (path : HTTPIngressPath)
    (svc : IngressServiceBackend) :
  ∃ rule, ruleOfPath ing path svc = Ok rule.
Proof.
  unfold ruleOfPath. destruct (extractFilters_Ok ing) as [filters ->].
  simpl. eauto.
Qed.

Lemma firstSeen_cons {A} `{EqDecision A} (seen : list A) (x : A) (r : list A) :
  spec.firstSeen seen (x :: r) =
    if decide (x ∈ seen) then spec.firstSeen seen r
    else x :: spec.firstSeen (x :: seen) r.
Proof. reflexivity. Qed.

Lemma seenAs_empty : spec.seenAs ∅ [].
Proof.
  intros k. rewrite lookup_empty. simpl. split; [discriminate|].
  intros H. inversion H.
Qed.

Lemma seenAs_insert (seen : gmap string bool) (seenl : list string) (key : string) :
  spec.seenAs seen seenl → spec.seenAs (<[key := true]> seen) (key :: seenl).
Proof.
  intros H k. destruct (decide (key = k)) as [->|Hne].
  - rewrite lookup_insert_eq. simpl. split; [intros _; left | reflexivity].
  - rewrite lookup_insert_ne by assumption. split.
    + intros Hk. right. apply H. assumption.
    + intros Hin. apply H. inversion Hin; subst; [contradiction | assumption].
Qed.

(** When every path refers to a service the loop returns, and adds one
    rule per key met for the first time. *)
Lemma convertHTTPRules_loop_complete (ing : Ingress) (paths : list HTTPIngressPath) :
  forallb spec.pathComplete paths = true →
  ∀ seen seenl rules, spec.seenAs seen seenl →
  ∃ rules', convertHTTPRules_loop ing paths seen rules = Ok rules'
    ∧ length rules' =
        (length rules + length (spec.firstSeen seenl (spec.pathKey <$> paths)))%nat.
Proof.
  induction paths as [|path rest IH]; intros Hcomplete seen seenl rules Hseen.
  - exists rules. simpl. split; [reflexivity | lia].
  - simpl in Hcomplete. apply andb_true_iff in Hcomplete as [Hpath Hrest].
    unfold spec.pathComplete in Hpath.
    destruct (Service (Backend path)) as [svc|] eqn:Hsvc; [|discriminate].
    assert (Hkey : spec.pathKey path = dedupKey (Path path) (svc_Name svc)).
    { unfold spec.pathKey. rewrite Hsvc. reflexivity. }
    rewrite fmap_cons, firstSeen_cons, Hkey.
    cbn [convertHTTPRules_loop]. rewrite Hsvc.
    destruct (default false (seen !! dedupKey (Path path) (svc_Name svc)))
      eqn:Hlook.
    + apply Hseen in Hlook. rewrite decide_True by assumption.
      apply IH; assumption.
    + assert (Hnot : dedupKey (Path path) (svc_Name svc) ∉ seenl).
      { intros Hin. apply Hseen in Hin. congruence. }
      rewrite decide_False by assumption.
      destruct (ruleOfPath_Ok ing path svc) as [rule ->].
      cbn [mbind result_bind].
      destruct (IH Hrest _ _ (rules ++ [rule])
                  (seenAs_insert _ _ (dedupKey (Path path) (svc_Name svc)) Hseen))
        as (rules' & -> & Hlen).
      exists rules'. split; [reflexivity|].
      rewrite Hlen, length_app. simpl. lia.
Qed.

(** The rules synthesized from complete paths are those of the path
    entries that come first for their key, in path-list order. *)
Lemma convertHTTPRules_loop_retained (ing : Ingress) (paths : list HTTPIngressPath) :
  forallb spec.pathComplete paths = true →
  ∀ seen seenl rules, spec.seenAs seen seenl →
  ∃ new, convertHTTPRules_loop ing paths seen rules = Ok (rules ++ new)
    ∧ Forall2 (spec.ruleFor ing) (spec.retained seenl paths) new.
Proof.
  induction paths as [|path rest IH]; intros Hcomplete seen seenl rules Hseen.
  - exists []. simpl. rewrite app_nil_r. split; [reflexivity | constructor].
  - simpl in Hcomplete. apply andb_true_iff in Hcomplete as [Hpath Hrest].
    unfold spec.pathComplete in Hpath.
    destruct (Service (Backend path)) as [svc|] eqn:Hsvc; [|discriminate].
    assert (Hkey : spec.pathKey path = dedupKey (Path path) (svc_Name svc)).
    { unfold spec.pathKey. rewrite Hsvc. reflexivity. }
    cbn [convertHTTPRules_loop spec.retained]. rewrite Hsvc, Hkey.
    destruct (default false (seen !! dedupKey (Path path) (svc_Name svc)))
      eqn:Hlook.
    + apply Hseen in Hlook. rewrite decide_True by assumption.
      apply IH; assumption.
    + assert (Hnot : dedupKey (Path path) (svc_Name svc) ∉ seenl).
      { intros Hin. apply Hseen in Hin. congruence. }
      rewrite decide_False by assumption.
      destruct (ruleOfPath_Ok ing path svc) as [rule Hrule]. rewrite Hrule.
      cbn [mbind result_bind].
      destruct (IH Hrest _ _ (rules ++ [rule])
                  (seenAs_insert _ _ (dedupKey (Path path) (svc_Name svc)) Hseen))
        as (new & -> & Hnew).
      exists (rule :: new). split; [rewrite <- app_assoc; reflexivity|].
      constructor; [|exact Hnew]. exists svc. split; assumption.
Qed.

Lemma convertHTTPRules_retained (ing : Ingress) (paths : list HTTPIngressPath) :
  forallb spec.pathComplete paths = true →
  ∃ rules, convertHTTPRules ing paths = Ok rules
    ∧ Forall2 (spec.ruleFor ing) (spec.retained [] paths) rules.
Proof.
  intros H.
  destruct (convertHTTPRules_loop_retained ing paths H ∅ [] [] seenAs_empty)
    as (rules & Hrules & Hforall).
  exists rules. split; [exact Hrules | exact Hforall].
Qed.

(** A path without a service makes the loop panic, wherever it is. *)
Lemma convertHTTPRules_loop_missing (ing : Ingress) (paths : list HTTPIngressPath) :
  forallb spec.pathComplete paths = false →
  ∀ seen rules, convertHTTPRules_loop ing paths seen rules = Panic.
Proof.
  induction paths as [|path rest IH]; intros Hmissing seen rules;
    [discriminate|].
  simpl in Hmissing. unfold spec.pathComplete in Hmissing at 1.
  cbn [convertHTTPRules_loop].
  destruct (Service (Backend path)) as [svc|]; [|reflexivity].
  simpl in Hmissing.
  destruct (default false (seen !! dedupKey (Path path) (svc_Name svc))).
  - apply IH. assumption.
  - destruct (ruleOfPath_Ok ing path svc) as [rule ->].
    cbn [mbind result_bind]. apply IH. assumption.
Qed.

(** The number of rules synthesized from complete paths is the number of
    distinct key texts. *)
Lemma convertHTTPRules_count (ing : Ingress) (paths : list HTTPIngressPath) :
  forallb spec.pathComplete paths = true →
  ∃ rules, convertHTTPRules ing paths = Ok rules
    ∧ length rules = length (spec.distinct (spec.pathKey <$> paths)).
Proof.
  intros H.
  destruct (convertHTTPRules_loop_complete ing paths H ∅ [] [] seenAs_empty)
    as (rules & Hrules & Hlen).
  exists rules. split; [exact Hrules | exact Hlen].
Qed.

(** *** Keys and (path, service) pairs *)

Lemma append_nil_l (s : string) : "" +:+ s = s.
Proof. reflexivity. Qed.

Lemma append_cons (c : ascii) (r s : string) :
  String c r +:+ s = String c (r +:+ s).
Proof. reflexivity. Qed.

Lemma colonFree_app_colon (r n : string) :
  spec.colonFree (r +:+ String ":" n) = false.
Proof.
  induction r as [|c r IH]; [reflexivity|].
  rewrite append_cons. simpl. rewrite IH. apply andb_false_r.
Qed.

(** The key text determines the pair when the service names have no
    colon, as the names of Kubernetes services do. *)
Lemma dedupKey_inj (p1 n1 p2 n2 : string) :
  spec.colonFree n1 = true → spec.colonFree n2 = true →
  dedupKey p1 n1 = dedupKey p2 n2 → p1 = p2 ∧ n1 = n2.
Proof.
  unfold dedupKey. intros H1 H2. revert p2.
  induction p1 as [|c r IH]; intros [|c' r'] Heq;
    rewrite ?append_cons, ?append_nil_l in Heq.
  - inversion Heq. auto.
  - inversion Heq as [[Hc Hn]]. subst n1.
    rewrite colonFree_app_colon in H1. discriminate H1.
  - inversion Heq as [[Hc Hn]]. subst n2.
    rewrite colonFree_app_colon in H2. discriminate H2.
  - inversion Heq as [[Hc Hn]]. apply IH in Hn as [-> ->]. auto.
Qed.

Lemma firstSeen_length_inj {A B} `{EqDecision A} `{EqDecision B}
    (f : A → B) (l seen : list A) :
  (∀ x y, x ∈ seen ++ l → y ∈ seen ++ l → f x = f y → x = y) →
  length (spec.firstSeen (f <$> seen) (f <$> l))
  = length (spec.firstSeen seen l).
Proof.
  revert seen. induction l as [|x r IH]; intros seen Hinj; [reflexivity|].
  rewrite fmap_cons, !firstSeen_cons.
  assert (Hkeep : ∀ z, z ∈ seen ++ r → z ∈ seen ++ x :: r).
  { intros z. rewrite !elem_of_app, !elem_of_cons. tauto. }
  assert (Hmove : ∀ z, z ∈ (x :: seen) ++ r → z ∈ seen ++ x :: r).
  { intros z. rewrite !elem_of_app, !elem_of_cons. tauto. }
  destruct (decide (x ∈ seen)) as [Hin|Hnotin].
  - rewrite decide_True by (apply list_elem_of_fmap_2; assumption).
    apply IH. intros y z Hy Hz Hf.
    apply Hinj; [apply Hkeep, Hy | apply Hkeep, Hz | exact Hf].
  - rewrite decide_False.
    + simpl. f_equal. rewrite <- fmap_cons. apply IH.
      intros y z Hy Hz Hf.
      apply Hinj; [apply Hmove, Hy | apply Hmove, Hz | exact Hf].
    + intros Hfx. apply list_elem_of_fmap in Hfx as (y & Hxy & Hy).
      apply Hinj in Hxy; [subst; contradiction | |].
      * apply Hmove. left.
      * apply Hkeep, elem_of_app. left. exact Hy.
Qed.

(** For complete paths whose service names have no colon, one rule is
    synthesized per distinct (path value, backend service name) pair. *)
Lemma convertHTTPRules_count_pairs (ing : Ingress) (paths : list HTTPIngressPath) :
  forallb spec.pathComplete paths = true →
  forallb (λ p, spec.colonFree (spec.pathPair p).2) paths = true →
  ∃ rules, convertHTTPRules ing paths = Ok rules
    ∧ length rules = length (spec.distinct (spec.pathPair <$> paths)).
Proof.
  intros Hcomplete Hcolon.
  destruct (convertHTTPRules_count ing paths Hcomplete) as (rules & Hrules & Hlen).
  exists rules. split; [assumption|]. rewrite Hlen. unfold spec.distinct.
  replace (spec.pathKey <$> paths)
    with ((λ pr : string * string, dedupKey pr.1 pr.2) <$> (spec.pathPair <$> paths))
    by (rewrite <- list_fmap_compose; reflexivity).
  apply (firstSeen_length_inj (λ pr : string * string, dedupKey pr.1 pr.2) _ []).
  simpl. intros [p1 n1] [p2 n2] H1 H2 Heq.
  apply list_elem_of_fmap in H1 as (q1 & Hq1 & Hin1).
  apply list_elem_of_fmap in H2 as (q2 & Hq2 & Hin2).
  rewrite forallb_forall in Hcolon.
  apply list_elem_of_In, Hcolon in Hin1, Hin2.
  rewrite <- Hq1 in Hin1. rewrite <- Hq2 in Hin2. simpl in *.
  destruct (dedupKey_inj _ _ _ _ Hin1 Hin2 Heq) as [-> ->]. reflexivity.
Qed.

(** C4. The two entries of [collidingPaths] have different paths and
    different services, and the text of their keys is the same: the
    second entry is dropped and a single rule is synthesized for the two
    distinct (path, service) pairs. *)
Theorem convertHTTPRules_key_collision :
  length (spec.distinct (spec.pathPair <$> samples.collidingPaths)) = 2%nat
  ∧ ∃ rules,
      convertHTTPRules samples.twoHosts samples.collidingPaths = Ok rules
      ∧ length rules = 1%nat.
Proof.
  split; [vm_compute; reflexivity|].
  eexists. split; [vm_compute; reflexivity | reflexivity].
Qed.

End RuleSynthesis.

(** ** The structure of a batch conversion *)

Section Batch.

Import networkingv1 converter.

Lemma Convert_loop_acc (ro : RangeOrder) (c : Converter) (ingresses : list Resource)
    (httpRoutes : list gatewayv1.HTTPRoute) :
  Convert_loop ro c ingresses httpRoutes =
    (routes ← Convert_loop ro c ingresses []; Ok (httpRoutes ++ routes)).
Proof.
  revert httpRoutes.
  induction ingresses as [|[ing|] rest IH]; intros httpRoutes; simpl.
  - rewrite app_nil_r. reflexivity.
  - destruct (convertIngress ro c ing) as [routes| |]; try reflexivity.
    rewrite (IH (httpRoutes ++ routes)), (IH routes).
    destruct (Convert_loop ro c rest []) as [more| |]; simpl;
      [rewrite app_assoc|..]; reflexivity.
  - reflexivity.
Qed.

(** [Convert] on a batch with a first element. *)
Lemma Convert_cons (ro : RangeOrder) (c : Converter) (it : Resource)
    (rest : list Resource) :
  Convert ro c (it :: rest) =
    (routes ← Convert ro c [it];
     more ← Convert ro c rest;
     Ok (routes ++ more)).
Proof.
  unfold Convert. destruct it as [ing|]; simpl; [|reflexivity].
  destruct (convertIngress ro c ing) as [routes| |]; simpl; try reflexivity.
  rewrite Convert_loop_acc. reflexivity.
Qed.

Lemma Convert_app (ro : RangeOrder) (c : Converter) (pre post : list Resource) :
  Convert ro c (pre ++ post) =
    (routes ← Convert ro c pre;
     more ← Convert ro c post;
     Ok (routes ++ more)).
Proof.
  induction pre as [|it pre IH].
  - simpl. destruct (Convert ro c post); reflexivity.
  - rewrite <- app_comm_cons, Convert_cons, IH, (Convert_cons ro c it pre).
    destruct (Convert ro c [it]) as [r1| |]; simpl; try reflexivity.
    destruct (Convert ro c pre) as [r2| |]; simpl; try reflexivity.
    destruct (Convert ro c post) as [r3| |]; simpl; try reflexivity.
    rewrite app_assoc. reflexivity.
Qed.

(** C1, as stated, fails: the first resource of the batch converts, the
    second is not an Ingress, and [Convert] returns a single error for
    the batch, without the routes of the first resource; with a second
    resource whose first path has no service the whole call panics. *)
Lemma Convert_batch_single_error :
  let ro := samples.inListedOrder in
  let c := samples.converterOf "single" in
  (∃ hr, Convert ro c [IngressRes samples.twoHosts] = Ok [hr])
  ∧ Convert ro c [IngressRes samples.twoHosts; OtherRes]
    = Err "invalid ingress type"
  ∧ Convert ro c [IngressRes samples.twoHosts;
                  IngressRes samples.missingBackendFirst]
    = Panic.
Proof.
  split; [eexists|split]; vm_compute; reflexivity.
Qed.

(** C1 (amended). [Convert] works through the batch in order.  While the
    resources convert, their routes are gathered in order; the first
    resource that fails ends the call with that resource's failure alone,
    whatever follows it in the batch.  The outcome for one resource is
    the outcome of [Convert] on the batch of that resource alone. *)
Theorem Convert_stops_at_first_failure (ro : RangeOrder) (c : Converter)
    (pre : list Resource) (it : Resource) (post : list Resource)
    (routes : list gatewayv1.HTTPRoute) :
  Convert ro c pre = Ok routes →
  match Convert ro c [it] with
  | Ok itRoutes =>
      Convert ro c (pre ++ [it]) = Ok (routes ++ itRoutes)
      ∧ Convert ro c (pre ++ it :: post) =
          (more ← Convert ro c post; Ok (routes ++ itRoutes ++ more))
  | Err e => Convert ro c (pre ++ it :: post) = Err e
  | Panic => Convert ro c (pre ++ it :: post) = Panic
  end.
Proof.
  intros Hpre.
  rewrite (Convert_app ro c pre (it :: post)), (Convert_app ro c pre [it]).
  rewrite Hpre, (Convert_cons ro c it post). simpl.
  destruct (Convert ro c [it]) as [itRoutes| |]; simpl; try reflexivity.
  split; [reflexivity|].
  destruct (Convert ro c post); reflexivity.
Qed.

Lemma Convert_stops_at_first_failure_witness :
  Convert samples.inListedOrder (samples.converterOf "single")
    ([IngressRes samples.twoHosts] ++ OtherRes :: [IngressRes samples.twoPatterns])
  = Err "invalid ingress type".
Proof.
  exact (Convert_stops_at_first_failure samples.inListedOrder
           (samples.converterOf "single") [IngressRes samples.twoHosts]
           OtherRes [IngressRes samples.twoPatterns]
           (match Convert samples.inListedOrder (samples.converterOf "single")
                    [IngressRes samples.twoHosts] with
            | Ok routes => routes
            | _ => []
            end)
           eq_refl).
Defined.

End Batch.

(** ** The split modes *)

Section SplitModes.

Import networkingv1 converter.

Lemma firstRuleRules_complete (ing : Ingress) :
  spec.singleComplete ing = true → ∃ rules, firstRuleRules ing = Ok rules.
Proof.
  unfold spec.singleComplete, firstRuleRules. intros H.
  apply andb_true_iff in H as [H _].
  destruct (Rules ing) as [|rule0 rest]; [eauto|].
  unfold spec.ruleComplete in H.
  destruct (HTTP rule0) as [paths|]; [|eauto].
  destruct (convertHTTPRules_count ing paths H) as (rules & -> & _). eauto.
Qed.

Lemma backendsComplete_single (ing : Ingress) :
  spec.backendsComplete ing = true → spec.singleComplete ing = true.
Proof.
  unfold spec.backendsComplete, spec.singleComplete. intros H.
  apply andb_true_iff in H as [Hrules ->]. rewrite andb_true_r.
  destruct (Rules ing) as [|rule0 rest]; [reflexivity|].
  simpl in Hrules. apply andb_true_iff in Hrules as [-> _]. reflexivity.
Qed.

(** The hostnames [convertSingle] collects. *)
Lemma collected_hostnames (rules : list IngressRule) (hostnames : list string) :
  fold_left (λ hostnames rule,
               if String.eqb (Host rule) "" then hostnames
               else hostnames ++ [Host rule]) rules hostnames
  = hostnames ++ filter (λ h, h ≠ "") (Host <$> rules).
Proof.
  revert hostnames. induction rules as [|rule rest IH]; intros hostnames.
  - simpl. rewrite app_nil_r. reflexivity.
  - cbn [fold_left]. rewrite IH, fmap_cons. destruct (String.eqb_spec (Host rule) "") as [Heq|Hne].
    + rewrite filter_cons_False by (intros Hn; apply Hn, Heq). reflexivity.
    + rewrite filter_cons_True by assumption. rewrite <- app_assoc. reflexivity.
Qed.

(** What [convertSingle] returns when it returns. *)
Lemma convertSingle_shape (c : Converter) (ing : Ingress) :
  spec.singleComplete ing = true →
  ∃ hr, convertSingle c ing = Ok [hr]
        ∧ gatewayv1.Hostnames hr = spec.sourceHosts ing.
Proof.
  intros H. destruct (firstRuleRules_complete ing H) as [rules Hrules].
  unfold convertSingle. rewrite Hrules. simpl.
  unfold spec.singleComplete in H. apply andb_true_iff in H as [_ H].
  unfold spec.defaultBackendComplete in H.
  unfold createDefaultBackendRule.
  destruct (DefaultBackend ing) as [backend|];
    [destruct (Service backend) as [svc|]; [|discriminate H]|];
    simpl; eexists; (split; [reflexivity|]); simpl;
    rewrite collected_hostnames; reflexivity.
Qed.

Lemma firstSeen_NoDup_id {A} `{EqDecision A} (l seen : list A) :
  NoDup l → (∀ x, x ∈ l → x ∉ seen) → spec.firstSeen seen l = l.
Proof.
  revert seen. induction l as [|x r IH]; intros seen Hnd Hdisj; [reflexivity|].
  apply NoDup_cons in Hnd as [Hx Hr]. rewrite firstSeen_cons.
  rewrite decide_False by (apply Hdisj; left).
  f_equal. apply IH; [assumption|].
  intros y Hy Hin. apply elem_of_cons in Hin as [->|Hin]; [contradiction|].
  apply (Hdisj y); [right; assumption | assumption].
Qed.

Lemma distinct_NoDup_id {A} `{EqDecision A} (l : list A) :
  NoDup l → spec.distinct l = l.
Proof.
  intros H. apply firstSeen_NoDup_id; [assumption|].
  intros x _ Hin. inversion Hin.
Qed.

(** C7, as stated, fails: the host of [repeatedHost] is in two source
    rules and is twice in the hostname list of the target. *)
Lemma single_mode_repeats_hostname :
  ∃ hr,
    convertSingle (samples.converterOf "single") samples.repeatedHost = Ok [hr]
    ∧ gatewayv1.Hostnames hr = ["a.example.com"; "a.example.com"]
    ∧ gatewayv1.Hostnames hr
        ≠ spec.distinct (spec.sourceHosts samples.repeatedHost).
Proof.
  eexists. split; [vm_compute; reflexivity|].
  split; [reflexivity|]. vm_compute. discriminate.
Qed.

(** C7 (amended). In single mode the hostname list of the target is the
    list of the non-empty hostnames of the source rules, in source order,
    one entry per source rule; when no hostname is in two source rules
    this is their ordered (first-seen) union. *)
Theorem convertSingle_hostnames (c : Converter) (ing : Ingress) :
  spec.singleComplete ing = true →
  ∃ hr, convertSingle c ing = Ok [hr]
        ∧ gatewayv1.Hostnames hr = spec.sourceHosts ing
        ∧ (NoDup (spec.sourceHosts ing) →
           gatewayv1.Hostnames hr = spec.distinct (spec.sourceHosts ing)).
Proof.
  intros H. destruct (convertSingle_shape c ing H) as (hr & Hconv & Hhosts).
  exists hr. split; [assumption|]. split; [assumption|].
  intros Hnd. rewrite Hhosts, distinct_NoDup_id; [reflexivity | assumption].
Qed.

Lemma convertSingle_hostnames_witness :
  ∃ hr, convertSingle (samples.converterOf "single") samples.twoHosts = Ok [hr]
        ∧ gatewayv1.Hostnames hr = ["app.example.com"; "api.example.com"].
Proof.
  destruct (convertSingle_hostnames (samples.converterOf "single")
              samples.twoHosts eq_refl) as (hr & Hconv & Hhosts & _).
  exists hr. split; [exact Hconv|]. rewrite Hhosts. vm_compute. reflexivity.
Defined.

(** *** How many targets each mode yields *)

Lemma elem_of_firstSeen {A} `{EqDecision A} (l seen : list A) (y : A) :
  y ∈ spec.firstSeen seen l ↔ y ∈ l ∧ y ∉ seen.
Proof.
  revert seen. induction l as [|x r IH]; intros seen.
  - simpl. split; [intros H; inversion H | intros [H _]; inversion H].
  - rewrite firstSeen_cons. destruct (decide (x ∈ seen)) as [Hin|Hnotin].
    + rewrite IH, elem_of_cons. split; [tauto|].
      intros [[->|Hr] Hs]; [contradiction | auto].
    + rewrite !elem_of_cons, IH, not_elem_of_cons. split.
      * intros [->|(Hr & Hne & Hs)]; auto.
      * intros [[->|Hr] Hs]; [auto|].
        destruct (decide (y = x)) as [->|Hne]; auto.
Qed.

Lemma NoDup_firstSeen {A} `{EqDecision A} (l seen : list A) :
  NoDup (spec.firstSeen seen l).
Proof.
  revert seen. induction l as [|x r IH]; intros seen; [constructor|].
  rewrite firstSeen_cons. destruct (decide (x ∈ seen)); [apply IH|].
  apply NoDup_cons. split; [|apply IH].
  rewrite elem_of_firstSeen, not_elem_of_cons. tauto.
Qed.

(** The length of the ordered union is the number of distinct elements. *)
Lemma distinct_length_size (l : list string) :
  length (spec.distinct l) = size (list_to_set l : gset string).
Proof.
  rewrite <- (size_list_to_set (C := gset string) (spec.distinct l))
    by apply NoDup_firstSeen.
  f_equal. apply set_eq. intros x.
  rewrite !elem_of_list_to_set. unfold spec.distinct.
  rewrite elem_of_firstSeen. split; [tauto|].
  intros H. split; [assumption|]. intros Hin. inversion Hin.
Qed.

Lemma convertPerHost_loop_complete (c : Converter) (ing : Ingress)
    (rules : list IngressRule) :
  forallb spec.ruleComplete rules = true →
  ∀ i httpRoutes,
  ∃ routes, convertPerHost_loop c ing i rules httpRoutes = Ok routes
    ∧ length routes =
        (length httpRoutes + length (filter (λ h, h ≠ "") (Host <$> rules)))%nat.
Proof.
  induction rules as [|rule rest IH]; intros Hcomplete i httpRoutes.
  - exists httpRoutes. simpl. split; [reflexivity | lia].
  - simpl in Hcomplete. apply andb_true_iff in Hcomplete as [Hrule Hrest].
    cbn [convertPerHost_loop]. rewrite fmap_cons.
    destruct (String.eqb_spec (Host rule) "") as [Heq|Hne].
    + rewrite filter_cons_False by (intros Hn; apply Hn, Heq).
      apply IH. assumption.
    + rewrite filter_cons_True by assumption.
      assert (Hrr : ∃ routeRules,
                 match HTTP rule with
                 | Some paths => convertHTTPRules ing paths
                 | None => Ok []
                 end = Ok routeRules).
      { unfold spec.ruleComplete in Hrule.
        destruct (HTTP rule) as [paths|]; [|eauto].
        destruct (convertHTTPRules_count ing paths Hrule) as (rr & -> & _).
        eauto. }
      destruct Hrr as [routeRules ->]. simpl.
      destruct (IH Hrest (i + 1) (httpRoutes ++ [hostRoute c ing i rule routeRules]))
        as (routes & -> & Hlen).
      exists routes. split; [reflexivity|].
      rewrite Hlen, length_app. simpl. lia.
Qed.

(** The loop over the groups: nothing for no group; otherwise the rules
    of the first source rule decide the outcome, and each group gets its
    route, in the order of the entries. *)
Lemma convertPerPattern_loop_shape (c : Converter) (ing : Ingress)
    (entries : list (string * list string))
    (httpRoutes : list gatewayv1.HTTPRoute) :
  convertPerPattern_loop c ing entries httpRoutes =
    match entries with
    | [] => Ok httpRoutes
    | _ :: _ =>
        routeRules ← firstRuleRules ing;
        Ok (httpRoutes
            ++ ((λ e, patternRoute c ing e.1 e.2 routeRules) <$> entries))
    end.
Proof.
  revert httpRoutes.
  induction entries as [|[pattern hosts] rest IH]; intros httpRoutes;
    [reflexivity|].
  cbn [convertPerPattern_loop].
  destruct (firstRuleRules ing) as [routeRules| |] eqn:Hrr; simpl;
    try reflexivity.
  rewrite IH. destruct rest as [|e rest'].
  - reflexivity.
  - simpl. rewrite <- app_assoc. reflexivity.
Qed.

(** The patterns that key the [groups] map. *)
Lemma groupHosts_dom (rules : list IngressRule) (groups : gmap string (list string)) :
  dom (fold_left
         (λ (groups : gmap string (list string)) rule,
            if String.eqb (Host rule) "" then groups
            else
              let pattern := extractHostPattern (Host rule) in
              <[pattern := default [] (groups !! pattern) ++ [Host rule]]> groups)
         rules groups)
  = dom groups
    ∪ list_to_set (extractHostPattern <$> filter (λ h, h ≠ "") (Host <$> rules)).
Proof.
  revert groups. induction rules as [|rule rest IH]; intros groups.
  - simpl. rewrite (right_id_L ∅ (∪)). reflexivity.
  - cbn [fold_left]. rewrite IH, fmap_cons.
    destruct (String.eqb_spec (Host rule) "") as [Heq|Hne].
    + rewrite filter_cons_False by (intros Hn; apply Hn, Heq). reflexivity.
    + rewrite filter_cons_True by assumption.
      rewrite dom_insert_L, fmap_cons, list_to_set_cons.
      rewrite (comm_L (∪) _ (dom groups)), (assoc_L (∪)). reflexivity.
Qed.

Lemma groupHosts_size (ing : Ingress) :
  size (groupHosts (Rules ing))
  = length (spec.distinct (extractHostPattern <$> spec.sourceHosts ing)).
Proof.
  rewrite distinct_length_size, <- size_dom. f_equal.
  unfold groupHosts. rewrite groupHosts_dom, dom_empty_L.
  rewrite (left_id_L ∅ (∪)). reflexivity.
Qed.

Lemma convertPerPattern_complete (ro : RangeOrder) (c : Converter) (ing : Ingress) :
  spec.singleComplete ing = true →
  ∃ routes, convertPerPattern ro c ing = Ok routes
    ∧ length routes =
        length (spec.distinct (extractHostPattern <$> spec.sourceHosts ing)).
Proof.
  intros H. destruct (firstRuleRules_complete ing H) as [routeRules Hrr].
  unfold convertPerPattern. rewrite convertPerPattern_loop_shape, Hrr.
  pose proof (range_entries_perm ro (map_to_list (groupHosts (Rules ing))))
    as Hperm.
  pose proof (Permutation_length Hperm) as Hlen.
  rewrite length_map_to_list, groupHosts_size in Hlen.
  destruct (ro (map_to_list (groupHosts (Rules ing)))) as [|e rest] eqn:Hro.
  - exists []. split; [reflexivity | exact Hlen].
  - simpl. eexists. split; [reflexivity|].
    rewrite <- Hlen. simpl. rewrite length_fmap. reflexivity.
Qed.

(** C6, as stated, fails: [repeatedHost] has one distinct hostname, in
    two source rules, and per-host mode yields two targets. *)
Lemma per_host_counts_source_rules :
  ∃ routes,
    convertIngress samples.inListedOrder (samples.converterOf "per-host")
      samples.repeatedHost = Ok routes
    ∧ length routes = 2%nat
    ∧ length (spec.distinct (spec.sourceHosts samples.repeatedHost)) = 1%nat.
Proof.
  eexists. split; [vm_compute; reflexivity|]. split; reflexivity.
Qed.

(** C6 (amended). For a source whose paths and default backend refer to
    services: per-host mode yields one target per source rule with a
    non-empty hostname, which is the number of distinct hostnames when no
    hostname is in two source rules; single mode yields one target;
    per-pattern mode yields one target per distinct pattern (the last two
    DNS labels) of the non-empty hostnames. *)
Theorem split_mode_cardinality (ro : RangeOrder) (c : Converter) (ing : Ingress) :
  spec.backendsComplete ing = true →
  (SplitMode (opts c) = "per-host" →
     ∃ routes, convertIngress ro c ing = Ok routes
       ∧ length routes = length (spec.sourceHosts ing)
       ∧ (NoDup (spec.sourceHosts ing) →
          length routes = length (spec.distinct (spec.sourceHosts ing))))
  ∧ (SplitMode (opts c) = "single" →
     ∃ routes, convertIngress ro c ing = Ok routes ∧ length routes = 1%nat)
  ∧ (SplitMode (opts c) = "per-pattern" →
     ∃ routes, convertIngress ro c ing = Ok routes
       ∧ length routes =
           length (spec.distinct (extractHostPattern <$> spec.sourceHosts ing))).
Proof.
  intros Hcomplete.
  pose proof (backendsComplete_single ing Hcomplete) as Hsingle.
  unfold convertIngress. repeat split; intros ->; simpl.
  - unfold spec.backendsComplete in Hcomplete.
    apply andb_true_iff in Hcomplete as [Hrules _].
    destruct (convertPerHost_loop_complete c ing (Rules ing) Hrules 0 [])
      as (routes & Hroutes & Hlen).
    exists routes. split; [exact Hroutes|]. simpl in Hlen.
    split; [exact Hlen|]. intros Hnd.
    rewrite distinct_NoDup_id by assumption. exact Hlen.
  - destruct (convertSingle_shape c ing Hsingle) as (hr & -> & _).
    exists [hr]. split; reflexivity.
  - apply convertPerPattern_complete. assumption.
Qed.

Lemma split_mode_cardinality_witness :
  (∃ routes,
     convertIngress samples.inListedOrder (samples.converterOf "per-host")
       samples.twoPatterns = Ok routes ∧ length routes = 2%nat)
  ∧ (∃ routes,
       convertIngress samples.inListedOrder (samples.converterOf "per-pattern")
         samples.twoHosts = Ok routes ∧ length routes = 1%nat).
Proof.
  split.
  - destruct (proj1 (split_mode_cardinality samples.inListedOrder
                       (samples.converterOf "per-host") samples.twoPatterns
                       eq_refl) eq_refl)
      as (routes & Hroutes & Hlen & _).
    exists routes. split; [exact Hroutes | exact Hlen].
  - destruct (proj2 (proj2 (split_mode_cardinality samples.inListedOrder
                       (samples.converterOf "per-pattern") samples.twoHosts
                       eq_refl)) eq_refl)
      as (routes & Hroutes & Hlen).
    exists routes. split; [exact Hroutes | exact Hlen].
Defined.

(** *** Input defects *)

(** A path without a service in the first source rule: the conversion
    panics. *)
Example Convert_missing_backend_first :
  Convert samples.inListedOrder (samples.converterOf "single")
    [IngressRes samples.missingBackendFirst] = Panic.
Proof. vm_compute. reflexivity. Qed.

(** C2, as stated, fails: the second source rule of
    [missingBackendLater] has a path without a service, and the
    conversion in single mode succeeds. *)
Lemma Convert_ignores_missing_backend :
  spec.backendsComplete samples.missingBackendLater = false
  ∧ ∃ hr, Convert samples.inListedOrder (samples.converterOf "single")
            [IngressRes samples.missingBackendLater] = Ok [hr].
Proof.
  split; [reflexivity|]. eexists. vm_compute. reflexivity.
Qed.

(** C2 (amended). With an unsupported split mode, [Convert] on a batch
    that starts with an Ingress returns the error that names this
    Ingress and the mode.  A missing service reference is a defect only
    where the mode reads it: in single mode, when the first source rule
    and the default backend refer to services, the conversion succeeds
    whatever the other source rules hold. *)
Theorem Convert_input_defects (ro : RangeOrder) (c : Converter) (ing : Ingress)
    (rest : list Resource) :
  (SplitMode (opts c) ≠ "single" → SplitMode (opts c) ≠ "per-host" →
   SplitMode (opts c) ≠ "per-pattern" →
     Convert ro c (IngressRes ing :: rest) =
       Err ("failed to convert ingress " +:+ Name ing
            +:+ ": invalid split mode: " +:+ SplitMode (opts c)))
  ∧ (SplitMode (opts c) = "single" → spec.singleComplete ing = true →
     ∃ hr, Convert ro c [IngressRes ing] = Ok [hr]).
Proof.
  split.
  - intros H1 H2 H3. unfold Convert. cbn [Convert_loop].
    unfold convertIngress.
    apply String.eqb_neq in H1, H2, H3. rewrite H1, H2, H3. reflexivity.
  - intros Hmode Hcomplete. unfold Convert. cbn [Convert_loop].
    unfold convertIngress. rewrite Hmode. simpl.
    destruct (convertSingle_shape c ing Hcomplete) as (hr & -> & _).
    exists hr. reflexivity.
Qed.

Lemma Convert_input_defects_witness :
  Convert samples.inListedOrder (samples.converterOf "per-domain")
    [IngressRes samples.twoHosts; IngressRes samples.twoPatterns]
  = Err "failed to convert ingress web: invalid split mode: per-domain".
Proof.
  apply (proj1 (Convert_input_defects samples.inListedOrder
                  (samples.converterOf "per-domain") samples.twoHosts
                  [IngressRes samples.twoPatterns]));
    simpl; discriminate.
Defined.

(** *** Repeated calls *)

Lemma sameUpToOrder_refl {A} (r : result (list A)) : spec.sameUpToOrder r r.
Proof. destruct r; simpl; auto. Qed.

Lemma convertPerPattern_sameUpToOrder (ro1 ro2 : RangeOrder) (c : Converter)
    (ing : Ingress) :
  spec.sameUpToOrder (convertPerPattern ro1 c ing) (convertPerPattern ro2 c ing).
Proof.
  unfold convertPerPattern. rewrite !convertPerPattern_loop_shape.
  pose proof (range_entries_perm ro1 (map_to_list (groupHosts (Rules ing))))
    as H1.
  pose proof (range_entries_perm ro2 (map_to_list (groupHosts (Rules ing))))
    as H2.
  assert (Hperm : ro1 (map_to_list (groupHosts (Rules ing)))
                  ≡ₚ ro2 (map_to_list (groupHosts (Rules ing))))
    by (rewrite H1, H2; reflexivity).
  destruct (ro1 (map_to_list (groupHosts (Rules ing)))) as [|e1 l1];
    destruct (ro2 (map_to_list (groupHosts (Rules ing)))) as [|e2 l2].
  - simpl. reflexivity.
  - apply Permutation_nil_cons in Hperm. contradiction.
  - symmetry in Hperm. apply Permutation_nil_cons in Hperm. contradiction.
  - destruct (firstRuleRules ing) as [routeRules| |]; simpl; auto.
    exact (fmap_Permutation
             (λ e, patternRoute c ing e.1 e.2 routeRules) _ _ Hperm).
Qed.

Lemma convertIngress_sameUpToOrder (ro1 ro2 : RangeOrder) (c : Converter)
    (ing : Ingress) :
  spec.sameUpToOrder (convertIngress ro1 c ing) (convertIngress ro2 c ing).
Proof.
  unfold convertIngress.
  destruct (String.eqb (SplitMode (opts c)) "single");
    [apply sameUpToOrder_refl|].
  destruct (String.eqb (SplitMode (opts c)) "per-host");
    [apply sameUpToOrder_refl|].
  destruct (String.eqb (SplitMode (opts c)) "per-pattern");
    [apply convertPerPattern_sameUpToOrder | apply sameUpToOrder_refl].
Qed.

Lemma convertIngress_order_free (ro1 ro2 : RangeOrder) (c : Converter)
    (ing : Ingress) :
  SplitMode (opts c) ≠ "per-pattern" →
  convertIngress ro1 c ing = convertIngress ro2 c ing.
Proof.
  intros H. apply String.eqb_neq in H. unfold convertIngress. rewrite H.
  reflexivity.
Qed.

(** C3, as stated, fails: in per-pattern mode the targets of
    [twoPatterns] come in the order in which [range] yields the two
    groups, and two calls that differ in it return different lists. *)
Lemma per_pattern_order_varies :
  Convert samples.inListedOrder (samples.converterOf "per-pattern")
    [IngressRes samples.twoPatterns]
  ≠ Convert samples.inReverseOrder (samples.converterOf "per-pattern")
      [IngressRes samples.twoPatterns].
Proof. vm_compute. discriminate. Qed.

(** C3 (amended). Two calls of [Convert] on the same batch and options
    end alike and, when they succeed, return the same targets, each with
    the same hostnames, rules, filters and timeouts in the same order;
    the order of the targets is the same as well in single and per-host
    mode, and in per-pattern mode the targets of one source may come in
    a different order. *)
Theorem Convert_repeatable (ro1 ro2 : RangeOrder) (c : Converter)
    (ingresses : list Resource) :
  spec.sameUpToOrder (Convert ro1 c ingresses) (Convert ro2 c ingresses)
  ∧ (SplitMode (opts c) ≠ "per-pattern" →
     Convert ro1 c ingresses = Convert ro2 c ingresses).
Proof.
  split.
  - induction ingresses as [|it rest IH]; [simpl; reflexivity|].
    rewrite (Convert_cons ro1), (Convert_cons ro2).
    assert (Hit : spec.sameUpToOrder (Convert ro1 c [it]) (Convert ro2 c [it])).
    { destruct it as [ing|]; [|simpl; reflexivity].
      pose proof (convertIngress_sameUpToOrder ro1 ro2 c ing) as H.
      unfold Convert. cbn [Convert_loop].
      destruct (convertIngress ro1 c ing); destruct (convertIngress ro2 c ing);
        simpl in *; try contradiction; auto.
      congruence. }
    destruct (Convert ro1 c [it]) as [r1| |]; destruct (Convert ro2 c [it]) as [r2| |];
      simpl in *; try contradiction; auto.
    destruct (Convert ro1 c rest) as [m1| |]; destruct (Convert ro2 c rest) as [m2| |];
      simpl in *; try contradiction; auto.
    apply Permutation_app; assumption.
  - intros Hmode. unfold Convert. generalize (@nil gatewayv1.HTTPRoute).
    induction ingresses as [|[ing|] rest IH]; intros acc; simpl; try reflexivity.
    rewrite (convertIngress_order_free ro1 ro2 c ing Hmode).
    destruct (convertIngress ro2 c ing); try reflexivity. apply IH.
Qed.

Lemma Convert_repeatable_witness :
  Convert samples.inListedOrder (samples.converterOf "per-host")
    [IngressRes samples.twoPatterns]
  = Convert samples.inReverseOrder (samples.converterOf "per-host")
      [IngressRes samples.twoPatterns].
Proof.
  apply (proj2 (Convert_repeatable samples.inListedOrder samples.inReverseOrder
                  (samples.converterOf "per-host")
                  [IngressRes samples.twoPatterns])).
  simpl. discriminate.
Defined.

End SplitModes.

(** * Further properties *)

(** ** The rest of the embedding on the cases of the repository's tests *)

Section FurtherTestCases.

Import validator routecheck analysis.

Example test_validateHTTPRoute :
  (λ hr, moresamples.counts (validateHTTPRoute moresamples.listed hr))
    <$> [ moresamples.routeOf [moresamples.rootMatch];
          moresamples.testRoute "" [] moresamples.gatewayNginx [];
          moresamples.testRoute "test-route" ["APP.EXAMPLE.COM"]
            moresamples.gatewayNginx [];
          moresamples.testRoute "test-route" ["app.example.com"] [] [];
          moresamples.testRoute "test-route" ["app.example.com"]
            moresamples.gatewayNginx [];
          moresamples.testRoute "test-route" ["app.example.com"]
            moresamples.gatewayNginx
            [ moresamples.backendRule
                (Some {| gatewayv1.Request := Some "300s";
                         gatewayv1.BackendRequest := Some "600s" |}) ];
          moresamples.testRoute "test-route" [] moresamples.gatewayNginx
            [ moresamples.backendRule None ] ]
  = [ Some (0, 0); Some (2, 1); Some (2, 0); Some (2, 0); Some (1, 0);
      Some (1, 1); Some (0, 2) ]%nat.
Proof. vm_compute. reflexivity. Qed.

Example test_validateMatch :
  (λ path, length (Errors (validateMatch {| gatewayv1.Path := Some path |} 0 0
                             moresamples.emptyResult)))
    <$> [ {| gatewayv1.pm_Type := Some gatewayv1.PathMatchPathPrefix;
             gatewayv1.pm_Value := Some "/api" |};
          {| gatewayv1.pm_Type := Some gatewayv1.PathMatchPathPrefix;
             gatewayv1.pm_Value := Some "api" |};
          {| gatewayv1.pm_Type := Some gatewayv1.PathMatchPathPrefix;
             gatewayv1.pm_Value := None |} ]
  = [0; 1; 1]%nat.
Proof. vm_compute. reflexivity. Qed.

Example test_detectFeatures :
  detectFeatures moresamples.listed
    (moresamples.analyzed
       {[ "nginx.ingress.kubernetes.io/rewrite-target" := "/$2" ]} [])
  = ["URL_REWRITE"]
  ∧ detectFeatures moresamples.listed
      (moresamples.analyzed ∅ [moresamples.tlsSecret])
    = ["TLS_TERMINATION"]
  ∧ detectFeatures moresamples.listed
      (moresamples.analyzed
         {[ "nginx.ingress.kubernetes.io/rewrite-target" := "/$2";
            "nginx.ingress.kubernetes.io/proxy-read-timeout" := "600";
            "nginx.ingress.kubernetes.io/enable-cors" := "true";
            "nginx.ingress.kubernetes.io/canary" := "true";
            "nginx.ingress.kubernetes.io/canary-weight" := "20" ]}
         [moresamples.tlsSecret])
    = ["URL_REWRITE"; "PROXY_READ_TIMEOUT"; "CORS"; "CANARY"; "CANARY_WEIGHT";
       "TLS_TERMINATION"].
Proof. vm_compute. auto. Qed.

Example test_calculateComplexity :
  calculateComplexity
    {| ing := samples.ingressOf ∅ None
                [ samples.hostRule "example.com" [];
                  samples.hostRule "api.example.com" [];
                  samples.hostRule "www.example.com" [] ];
       TLS := [] |}
    ["CUSTOM_SNIPPET"; "URL_REWRITE"; "CANARY"]
  = 28.
Proof. vm_compute. reflexivity. Qed.

Example test_getIngressClass :
  getIngressClass samples.testIngress = "nginx"
  ∧ getIngressClass
      (moresamples.analyzed {[ "kubernetes.io/ingress.class" := "nginx" ]} [])
    = "nginx"
  ∧ getIngressClass (moresamples.analyzed ∅ []) = "".
Proof. vm_compute. auto. Qed.

End FurtherTestCases.


(** ** Host patterns *)

Section HostPatterns.

Import converter.

Lemma Split_cons (c : ascii) (r : string) (sep : ascii) :
  gostrings.Split (String c r) sep =
    if Ascii.eqb c sep then EmptyString :: gostrings.Split r sep
    else match gostrings.Split r sep with
         | h :: t => String c h :: t
         | [] => [String c EmptyString]
         end.
Proof. reflexivity. Qed.

Lemma Split_not_nil (s : string) (sep : ascii) : gostrings.Split s sep ≠ [].
Proof.
  induction s as [|c r IH]; [discriminate|].
  rewrite Split_cons. destruct (Ascii.eqb c sep); [discriminate|].
  destruct (gostrings.Split r sep); discriminate.
Qed.

Lemma Join_cons2 (e e' : string) (rest : list string) (sep : string) :
  gostrings.Join (e :: e' :: rest) sep
  = e +:+ sep +:+ gostrings.Join (e' :: rest) sep.
Proof. reflexivity. Qed.

Lemma Join_cons_head (c : ascii) (h : string) (t : list string) (sep : string) :
  gostrings.Join (String c h :: t) sep = String c (gostrings.Join (h :: t) sep).
Proof. destruct t; reflexivity. Qed.

(** Joining what [Split] returns gives the text back. *)
Lemma Join_Split (s : string) (sep : ascii) :
  gostrings.Join (gostrings.Split s sep) (String sep EmptyString) = s.
Proof.
  induction s as [|c r IH]; [reflexivity|].
  rewrite Split_cons. destruct (Ascii.eqb_spec c sep) as [->|Hne].
  - pose proof (Split_not_nil r sep) as Hnil.
    destruct (gostrings.Split r sep) as [|e rest]; [contradiction|].
    rewrite Join_cons2, IH. reflexivity.
  - pose proof (Split_not_nil r sep) as Hnil.
    destruct (gostrings.Split r sep) as [|e rest]; [contradiction|].
    rewrite Join_cons_head, IH. reflexivity.
Qed.

Lemma Split_parts_without (s : string) (sep : ascii) :
  Forall (λ p, vocab.without sep p = true) (gostrings.Split s sep).
Proof.
  induction s as [|c r IH]; [repeat constructor|].
  rewrite Split_cons. destruct (Ascii.eqb c sep) eqn:Hc.
  - constructor; [reflexivity | exact IH].
  - destruct (gostrings.Split r sep) as [|e rest]; [repeat constructor; simpl; rewrite Hc; reflexivity|].
    inversion IH; subst. constructor; [|assumption].
    simpl. rewrite Hc. assumption.
Qed.

Lemma Split_without (s : string) (sep : ascii) :
  vocab.without sep s = true → gostrings.Split s sep = [s].
Proof.
  induction s as [|c r IH]; [reflexivity|]. simpl.
  intros H. apply andb_true_iff in H as [Hc Hr].
  apply negb_true_iff in Hc. rewrite Hc, (IH Hr). reflexivity.
Qed.

Lemma Split_app_sep (e rest : string) (sep : ascii) :
  vocab.without sep e = true →
  gostrings.Split (e +:+ String sep rest) sep = e :: gostrings.Split rest sep.
Proof.
  induction e as [|c r IH]; intros H.
  - rewrite append_nil_l, Split_cons, Ascii.eqb_refl. reflexivity.
  - simpl in H. apply andb_true_iff in H as [Hc Hr].
    apply negb_true_iff in Hc.
    rewrite append_cons, Split_cons, Hc, (IH Hr). reflexivity.
Qed.

(** Splitting a text joined from separator-free parts gives the parts. *)
Lemma Split_Join (parts : list string) (sep : ascii) :
  parts ≠ [] →
  Forall (λ p, vocab.without sep p = true) parts →
  gostrings.Split (gostrings.Join parts (String sep EmptyString)) sep = parts.
Proof.
  induction parts as [|e rest IH]; [contradiction|]. intros _ Hall.
  inversion Hall as [|? ? He Hrest]; subst.
  destruct rest as [|e' rest'].
  - simpl. apply Split_without. assumption.
  - rewrite Join_cons2, append_cons, append_nil_l, Split_app_sep by assumption.
    f_equal. apply IH; [discriminate | assumption].
Qed.

Lemma append_assoc (a b c : string) : (a +:+ b) +:+ c = a +:+ b +:+ c.
Proof.
  induction a as [|x a IH]; [reflexivity|].
  rewrite !append_cons, IH. reflexivity.
Qed.

Lemma append_nil_r (a : string) : a +:+ "" = a.
Proof.
  induction a as [|x a IH]; [reflexivity|]. rewrite append_cons, IH.
  reflexivity.
Qed.

Lemma Join_drop_suffix (parts : list string) (sep : string) (k : nat) :
  ∃ pre, gostrings.Join parts sep = pre +:+ gostrings.Join (drop k parts) sep.
Proof.
  revert parts. induction k as [|k IH]; intros parts.
  - exists "". rewrite drop_0. reflexivity.
  - destruct parts as [|e rest]; [exists ""; reflexivity|].
    destruct (IH rest) as [pre Hpre]. simpl drop.
    destruct rest as [|e' rest'].
    + exists e. rewrite drop_nil. simpl. rewrite append_nil_r. reflexivity.
    + exists (e +:+ sep +:+ pre).
      rewrite Join_cons2, Hpre, !append_assoc. reflexivity.
Qed.

Lemma extractHostPattern_long (host : string) :
  (2 ≤ length (gostrings.Split host "."))%nat →
  extractHostPattern host =
    gostrings.Join (drop (length (gostrings.Split host ".") - 2)
                      (gostrings.Split host ".")) ".".
Proof.
  intros H. unfold extractHostPattern.
  destruct (Nat.leb_spec 2 (length (gostrings.Split host "."))); [reflexivity | lia].
Qed.

Lemma extractHostPattern_short (host : string) :
  (length (gostrings.Split host ".") < 2)%nat → extractHostPattern host = host.
Proof.
  intros H. unfold extractHostPattern.
  destruct (Nat.leb_spec 2 (length (gostrings.Split host "."))); [lia | reflexivity].
Qed.

(** X1. The pattern of a host is the end of the host; a host of at most two
    labels is its own pattern; and the pattern of a pattern is the
    pattern itself. *)
Theorem extractHostPattern_suffix_idempotent (host : string) :
  (∃ pre, host = pre +:+ extractHostPattern host)
  ∧ ((length (gostrings.Split host ".") ≤ 2)%nat →
     extractHostPattern host = host)
  ∧ extractHostPattern (extractHostPattern host) = extractHostPattern host.
Proof.
  pose proof (Join_Split host ".") as Hjoin.
  pose proof (Split_parts_without host ".") as Hparts.
  destruct (Nat.leb_spec 2 (length (gostrings.Split host "."))) as [Hlen|Hlen].
  - rewrite (extractHostPattern_long host Hlen).
    set (last2 := drop (length (gostrings.Split host ".") - 2)
                    (gostrings.Split host ".")).
    split; [|split].
    + destruct (Join_drop_suffix (gostrings.Split host ".") "."
                  (length (gostrings.Split host ".") - 2)) as [pre Hpre].
      exists pre. fold last2 in Hpre. rewrite <- Hpre, Hjoin. reflexivity.
    + intros Hle. unfold last2.
      replace (length (gostrings.Split host ".") - 2)%nat with 0%nat by lia.
      rewrite drop_0. exact Hjoin.
    + assert (Hl2 : length last2 = 2%nat) by (unfold last2; rewrite length_drop; lia).
      assert (Hw : Forall (λ p, vocab.without "." p = true) last2)
        by (apply Forall_drop; exact Hparts).
      assert (Hsplit : gostrings.Split (gostrings.Join last2 ".") "." = last2).
      { apply Split_Join; [intros Hnil; rewrite Hnil in Hl2; discriminate Hl2 | exact Hw]. }
      rewrite extractHostPattern_long; rewrite Hsplit; [|lia].
      rewrite Hl2. reflexivity.
  - rewrite !(extractHostPattern_short host Hlen).
    split; [exists ""; reflexivity|]. split; reflexivity.
Qed.

End HostPatterns.


(** ** Grouping by pattern *)

Section PatternGroups.

Import networkingv1 converter.

Lemma hostsOfPattern_snoc (p h : string) (seen : list string) :
  vocab.hostsOfPattern p (seen ++ [h]) =
    vocab.hostsOfPattern p seen ++ (if decide (extractHostPattern h = p) then [h] else []).
Proof.
  unfold vocab.hostsOfPattern. rewrite filter_app.
  destruct (decide (extractHostPattern h = p)) as [Heq|Hne].
  - rewrite (filter_cons_True _ h []) by assumption. reflexivity.
  - rewrite (filter_cons_False _ h []) by assumption. reflexivity.
Qed.

Lemma groupHosts_fold (rules : list IngressRule) :
  ∀ (groups : gmap string (list string)) (seen : list string),
  vocab.groupsOf groups seen →
  vocab.groupsOf
    (fold_left
       (λ (groups : gmap string (list string)) rule,
          if String.eqb (Host rule) "" then groups
          else
            let pattern := extractHostPattern (Host rule) in
            <[pattern := default [] (groups !! pattern) ++ [Host rule]]> groups)
       rules groups)
    (seen ++ filter (λ h, h ≠ "") (Host <$> rules)).
Proof.
  induction rules as [|rule rest IH]; intros groups seen Hg.
  - simpl. rewrite app_nil_r. exact Hg.
  - cbn [fold_left]. rewrite fmap_cons.
    destruct (String.eqb_spec (Host rule) "") as [Heq|Hne].
    + rewrite filter_cons_False by (intros Hn; apply Hn, Heq).
      apply IH. exact Hg.
    + rewrite filter_cons_True by assumption.
      replace (seen ++ Host rule :: filter (λ h, h ≠ "") (Host <$> rest))
        with ((seen ++ [Host rule]) ++ filter (λ h, h ≠ "") (Host <$> rest))
        by (rewrite <- app_assoc; reflexivity).
      apply IH. intros p. rewrite hostsOfPattern_snoc.
      destruct (decide (extractHostPattern (Host rule) = p)) as [<-|Hp].
      * rewrite lookup_insert_eq, (Hg (extractHostPattern (Host rule))).
        destruct (vocab.hostsOfPattern (extractHostPattern (Host rule)) seen);
          reflexivity.
      * rewrite lookup_insert_ne by assumption. rewrite app_nil_r. apply Hg.
Qed.

(** Each group of [groupHosts] holds the source hosts of its pattern, in
    source order, and no group is empty. *)
Lemma groupHosts_lookup (ing : Ingress) (p : string) (hosts : list string) :
  groupHosts (Rules ing) !! p = Some hosts ↔
  hosts = vocab.hostsOfPattern p (spec.sourceHosts ing) ∧ hosts ≠ [].
Proof.
  assert (Hg : vocab.groupsOf (groupHosts (Rules ing)) (spec.sourceHosts ing)).
  { apply (groupHosts_fold (Rules ing) ∅ []). intros q. apply lookup_empty. }
  rewrite (Hg p).
  destruct (vocab.hostsOfPattern p (spec.sourceHosts ing)) as [|h l]; split.
  - discriminate.
  - intros [-> Hne]. contradiction.
  - intros H. inversion H; subst. split; [reflexivity | discriminate].
  - intros [-> _]. reflexivity.
Qed.

Lemma fold_left_snoc (hosts acc : list string) :
  fold_left (λ hs host, hs ++ [host]) hosts acc = acc ++ hosts.
Proof.
  revert acc. induction hosts as [|h rest IH]; intros acc; simpl.
  - rewrite app_nil_r. reflexivity.
  - rewrite IH, <- app_assoc. reflexivity.
Qed.

Lemma patternRoute_hostnames (c : Converter) (ing : Ingress) (p : string)
    (hosts : list string) (rr : list gatewayv1.HTTPRouteRule) :
  gatewayv1.Hostnames (patternRoute c ing p hosts rr) = hosts.
Proof. simpl. apply fold_left_snoc. Qed.

(** The routes of per-pattern mode are those of the entries of the
    [groups] map, in the order [range] yields them. *)
Lemma convertPerPattern_routes (ro : RangeOrder) (c : Converter) (ing : Ingress)
    (routes : list gatewayv1.HTTPRoute) :
  convertPerPattern ro c ing = Ok routes →
  ∃ routeRules,
    routes = (λ e, patternRoute c ing e.1 e.2 routeRules)
               <$> ro (map_to_list (groupHosts (Rules ing)))
    ∧ (routes ≠ [] → firstRuleRules ing = Ok routeRules).
Proof.
  unfold convertPerPattern. rewrite convertPerPattern_loop_shape.
  destruct (ro (map_to_list (groupHosts (Rules ing)))) as [|e rest].
  - intros H. inversion H; subst. exists []. split; [reflexivity | intros Hn; contradiction].
  - destruct (firstRuleRules ing) as [rr| |]; simpl; intros H; inversion H; subst.
    exists rr. split; [reflexivity | reflexivity].
Qed.

(** X2. In per-pattern mode each target carries the source hostnames of one
    pattern, all of them and in source order; every source hostname is
    in a target; and two targets have no hostname in common. *)
Theorem per_pattern_groups_hostnames (ro : RangeOrder) (c : Converter)
    (ing : Ingress) (routes : list gatewayv1.HTTPRoute) :
  convertPerPattern ro c ing = Ok routes →
  (∀ hr, hr ∈ routes →
     gatewayv1.Hostnames hr ≠ []
     ∧ ∃ p, gatewayv1.Hostnames hr
            = vocab.hostsOfPattern p (spec.sourceHosts ing))
  ∧ (∀ h, h ∈ spec.sourceHosts ing →
       ∃ hr, hr ∈ routes ∧ h ∈ gatewayv1.Hostnames hr)
  ∧ (∀ i j hr1 hr2 h, routes !! i = Some hr1 → routes !! j = Some hr2 →
       h ∈ gatewayv1.Hostnames hr1 → h ∈ gatewayv1.Hostnames hr2 → i = j).
Proof.
  intros Hconv.
  destruct (convertPerPattern_routes ro c ing routes Hconv) as (rr & -> & _).
  pose proof (range_entries_perm ro (map_to_list (groupHosts (Rules ing))))
    as Hperm.
  set (entries := ro (map_to_list (groupHosts (Rules ing)))) in *.
  assert (Hentry : ∀ p hosts, (p, hosts) ∈ entries ↔
            hosts = vocab.hostsOfPattern p (spec.sourceHosts ing) ∧ hosts ≠ []).
  { intros p hosts. rewrite Hperm, elem_of_map_to_list. apply groupHosts_lookup. }
  assert (Hnodup : NoDup entries.*1).
  { rewrite Hperm. apply NoDup_fst_map_to_list. }
  split; [|split].
  - intros hr Hin. apply list_elem_of_fmap in Hin as ([p hosts] & -> & Hin).
    rewrite patternRoute_hostnames. simpl.
    apply Hentry in Hin as [-> Hne]. split; [assumption | eauto].
  - intros h Hh.
    set (p := extractHostPattern h).
    assert (Hin : h ∈ vocab.hostsOfPattern p (spec.sourceHosts ing)).
    { apply list_elem_of_filter. split; [reflexivity | assumption]. }
    assert (He : (p, vocab.hostsOfPattern p (spec.sourceHosts ing)) ∈ entries).
    { apply Hentry. split; [reflexivity|]. intros Hnil. rewrite Hnil in Hin.
      inversion Hin. }
    exists (patternRoute c ing p (vocab.hostsOfPattern p (spec.sourceHosts ing)) rr).
    split; [|rewrite patternRoute_hostnames; assumption].
    apply list_elem_of_fmap. eexists. split; [|exact He]. reflexivity.
  - intros i j hr1 hr2 h H1 H2 Hh1 Hh2.
    rewrite list_lookup_fmap in H1, H2.
    destruct (entries !! i) as [[p1 hosts1]|] eqn:He1; [|discriminate].
    destruct (entries !! j) as [[p2 hosts2]|] eqn:He2; [|discriminate].
    simpl in H1, H2. inversion H1; inversion H2; subst.
    rewrite patternRoute_hostnames in Hh1, Hh2. simpl in *.
    assert (Hp1 : (p1, hosts1) ∈ entries) by (eapply list_elem_of_lookup_2; eauto).
    assert (Hp2 : (p2, hosts2) ∈ entries) by (eapply list_elem_of_lookup_2; eauto).
    apply Hentry in Hp1 as [-> _]. apply Hentry in Hp2 as [-> _].
    apply list_elem_of_filter in Hh1 as [Hq1 _].
    apply list_elem_of_filter in Hh2 as [Hq2 _].
    apply (NoDup_lookup _ i j p1 Hnodup).
    + rewrite list_lookup_fmap, He1. reflexivity.
    + rewrite list_lookup_fmap, He2. simpl. congruence.
Qed.

Lemma per_pattern_groups_hostnames_witness :
  Forall (λ h,
            ∃ hr,
              hr ∈ match convertPerPattern samples.inListedOrder
                           (samples.converterOf "per-pattern")
                           samples.twoPatterns with
                   | Ok routes => routes
                   | _ => []
                   end
              ∧ h ∈ gatewayv1.Hostnames hr)
    (spec.sourceHosts samples.twoPatterns).
Proof.
  apply Forall_forall.
  refine (proj1 (proj2 (per_pattern_groups_hostnames samples.inListedOrder
                          (samples.converterOf "per-pattern") samples.twoPatterns
                          (match convertPerPattern samples.inListedOrder
                                   (samples.converterOf "per-pattern")
                                   samples.twoPatterns with
                           | Ok routes => routes
                           | _ => []
                           end) _))).
  vm_compute. reflexivity.
Defined.

End PatternGroups.


(** ** One target per source rule with a host *)

Section PerHost.

Import networkingv1 converter.

Lemma convertPerHost_loop_built (c : Converter) (ing : Ingress)
    (rules : list IngressRule) :
  ∀ i httpRoutes routes,
  convertPerHost_loop c ing i rules httpRoutes = Ok routes →
  ∃ new, routes = httpRoutes ++ new
    ∧ Forall2 (vocab.builtFromRule c ing) (vocab.indexedHostRules i rules) new.
Proof.
  induction rules as [|rule rest IH]; intros i httpRoutes routes Hloop.
  - simpl in Hloop. inversion Hloop; subst. exists [].
    rewrite app_nil_r. split; [reflexivity | constructor].
  - cbn [convertPerHost_loop vocab.indexedHostRules] in *.
    destruct (String.eqb (Host rule) ""); [apply IH; assumption|].
    destruct (match HTTP rule with
              | Some paths => convertHTTPRules ing paths
              | None => Ok []
              end) as [rr| |] eqn:Hrr; simpl in Hloop; try discriminate.
    apply IH in Hloop as (new & -> & Hnew).
    exists (hostRoute c ing i rule rr :: new).
    split; [rewrite <- app_assoc; reflexivity|].
    constructor; [|exact Hnew].
    exists rr. simpl. split; [|reflexivity].
    destruct (HTTP rule); [exact Hrr | inversion Hrr; reflexivity].
Qed.

Lemma indexedHostRules_hosts (i : Z) (rules : list IngressRule) :
  (λ e, Host e.2) <$> vocab.indexedHostRules i rules
  = filter (λ h, h ≠ "") (Host <$> rules).
Proof.
  revert i. induction rules as [|rule rest IH]; intros i; [reflexivity|].
  cbn [vocab.indexedHostRules]. rewrite fmap_cons.
  destruct (String.eqb_spec (Host rule) "") as [Heq|Hne].
  - rewrite filter_cons_False by (intros Hn; apply Hn, Heq). apply IH.
  - rewrite filter_cons_True by assumption. rewrite fmap_cons, IH. reflexivity.
Qed.

Lemma indexedHostRules_indices (i : Z) (rules : list IngressRule) :
  Forall (λ j, i ≤ j) (vocab.indexedHostRules i rules).*1
  ∧ NoDup (vocab.indexedHostRules i rules).*1.
Proof.
  revert i. induction rules as [|rule rest IH]; intros i.
  - split; constructor.
  - cbn [vocab.indexedHostRules]. destruct (IH (i + 1)) as [Hge Hnd].
    assert (Hge' : Forall (λ j, i ≤ j) (vocab.indexedHostRules (i + 1) rest).*1).
    { eapply Forall_impl; [exact Hge|]. simpl. intros; lia. }
    destruct (String.eqb (Host rule) ""); [split; assumption|].
    rewrite fmap_cons. split; [constructor; [simpl; lia | assumption]|].
    apply NoDup_cons. split; [|assumption].
    intros Hin. rewrite Forall_forall in Hge. apply Hge in Hin. simpl in Hin. lia.
Qed.

Lemma hostRoute_name_inj (c : Converter) (ing : Ingress) :
  Inj (=) (=) (λ j : Z, Name ing +:+ "-httproute-" +:+ strconv.Itoa (j + 1)).
Proof.
  intros j k H. apply String.app_inj, String.app_inj in H.
  apply pretty_Z_inj in H. lia.
Qed.

(** X3. In per-host mode the targets follow the source rules that have a
    host, in source order: each target has the one hostname of its rule
    and the rules synthesized from the paths of that rule, and its name
    ends with the position of the rule among all source rules, so that no
    two targets have the same name. *)
Theorem per_host_targets (c : Converter) (ing : Ingress)
    (routes : list gatewayv1.HTTPRoute) :
  convertPerHost c ing = Ok routes →
  Forall2 (vocab.builtFromRule c ing)
    (vocab.indexedHostRules 0 (Rules ing)) routes
  ∧ gatewayv1.Hostnames <$> routes = (λ h, [h]) <$> spec.sourceHosts ing
  ∧ NoDup (gatewayv1.Name <$> routes).
Proof.
  intros Hconv. unfold convertPerHost in Hconv.
  apply convertPerHost_loop_built in Hconv as (new & -> & Hbuilt).
  simpl. split; [exact Hbuilt|].
  assert (Hnames : gatewayv1.Name <$> new
                   = (λ j : Z, Name ing +:+ "-httproute-" +:+ strconv.Itoa (j + 1))
                       <$> (vocab.indexedHostRules 0 (Rules ing)).*1).
  { clear -Hbuilt. induction Hbuilt as [|e hr es hrs (rr & _ & ->) _ IH];
      [reflexivity|].
    rewrite !fmap_cons, IH. reflexivity. }
  assert (Hhosts : gatewayv1.Hostnames <$> new
                   = (λ e, [Host e.2]) <$> vocab.indexedHostRules 0 (Rules ing)).
  { clear -Hbuilt. induction Hbuilt as [|e hr es hrs (rr & _ & ->) _ IH];
      [reflexivity|].
    rewrite !fmap_cons, IH. reflexivity. }
  split.
  - rewrite Hhosts. unfold spec.sourceHosts.
    rewrite <- (indexedHostRules_hosts 0), <- list_fmap_compose. reflexivity.
  - rewrite Hnames.
    apply (@NoDup_fmap_2 _ _ _ (hostRoute_name_inj c ing)).
    apply indexedHostRules_indices.
Qed.

Lemma per_host_targets_witness :
  NoDup (gatewayv1.Name
           <$> match convertPerHost (samples.converterOf "per-host")
                       samples.repeatedHost with
               | Ok routes => routes
               | _ => []
               end).
Proof.
  refine (proj2 (proj2 (per_host_targets (samples.converterOf "per-host")
                          samples.repeatedHost
                          (match convertPerHost (samples.converterOf "per-host")
                                   samples.repeatedHost with
                           | Ok routes => routes
                           | _ => []
                           end) _))).
  vm_compute. reflexivity.
Defined.

End PerHost.


(** ** When a conversion succeeds, panics or fails *)

Section Outcomes.

Import networkingv1 converter.

Lemma convertHTTPRules_outcome (ing : Ingress) (paths : list HTTPIngressPath) :
  if forallb spec.pathComplete paths
  then ∃ rules, convertHTTPRules ing paths = Ok rules
  else convertHTTPRules ing paths = Panic.
Proof.
  destruct (forallb spec.pathComplete paths) eqn:H.
  - destruct (convertHTTPRules_count ing paths H) as (rules & Hrules & _). eauto.
  - apply convertHTTPRules_loop_missing. assumption.
Qed.

Lemma convertRule_outcome (ing : Ingress) (rule : IngressRule) :
  if spec.ruleComplete rule
  then ∃ rules, match HTTP rule with
                | Some paths => convertHTTPRules ing paths
                | None => Ok []
                end = Ok rules
  else match HTTP rule with
       | Some paths => convertHTTPRules ing paths
       | None => Ok []
       end = Panic.
Proof.
  unfold spec.ruleComplete. destruct (HTTP rule) as [paths|]; [|eauto].
  apply convertHTTPRules_outcome.
Qed.

Lemma firstRuleRules_outcome (ing : Ingress) :
  if vocab.firstRuleComplete ing
  then ∃ rules, firstRuleRules ing = Ok rules
  else firstRuleRules ing = Panic.
Proof.
  unfold vocab.firstRuleComplete, firstRuleRules.
  destruct (Rules ing) as [|rule0 rest]; [eauto|].
  apply convertRule_outcome.
Qed.

Lemma convertSingle_outcome (c : Converter) (ing : Ingress) :
  if spec.singleComplete ing
  then ∃ hr, convertSingle c ing = Ok [hr]
  else convertSingle c ing = Panic.
Proof.
  destruct (spec.singleComplete ing) eqn:H.
  - destruct (convertSingle_shape c ing H) as (hr & Hhr & _). eauto.
  - unfold spec.singleComplete in H. fold (vocab.firstRuleComplete ing) in H.
    unfold convertSingle. pose proof (firstRuleRules_outcome ing) as Hfirst.
    destruct (vocab.firstRuleComplete ing).
    + destruct Hfirst as [rules ->]. simpl in *.
      unfold spec.defaultBackendComplete in H. unfold createDefaultBackendRule.
      destruct (DefaultBackend ing) as [backend|]; [|discriminate].
      destruct (Service backend); [discriminate | reflexivity].
    + rewrite Hfirst. reflexivity.
Qed.

Lemma convertPerHost_loop_outcome (c : Converter) (ing : Ingress)
    (rules : list IngressRule) :
  ∀ i httpRoutes,
  if forallb (λ rule, String.eqb (Host rule) "" || spec.ruleComplete rule) rules
  then ∃ routes, convertPerHost_loop c ing i rules httpRoutes = Ok routes
  else convertPerHost_loop c ing i rules httpRoutes = Panic.
Proof.
  induction rules as [|rule rest IH]; intros i httpRoutes; [simpl; eauto|].
  cbn [forallb convertPerHost_loop].
  destruct (String.eqb (Host rule) ""); [apply IH|].
  simpl orb. pose proof (convertRule_outcome ing rule) as Hrule.
  destruct (spec.ruleComplete rule).
  - destruct Hrule as [rr ->]. simpl. apply IH.
  - rewrite Hrule. reflexivity.
Qed.

Lemma range_entries_nil (ro : RangeOrder) (l : list (string * list string)) :
  ro l = [] ↔ l = [].
Proof.
  pose proof (range_entries_perm ro l) as H. split; intros Hnil.
  - rewrite Hnil in H. symmetry in H. apply Permutation_nil_r in H. exact H.
  - subst. apply Permutation_nil_r in H. exact H.
Qed.

Lemma groupHosts_empty (ing : Ingress) :
  map_to_list (groupHosts (Rules ing)) = [] ↔ spec.sourceHosts ing = [].
Proof.
  rewrite <- length_zero_iff_nil, length_map_to_list, groupHosts_size.
  rewrite length_zero_iff_nil. unfold spec.distinct.
  destruct (spec.sourceHosts ing) as [|h l]; [split; reflexivity|].
  rewrite fmap_cons, firstSeen_cons, decide_False by (intros H; inversion H).
  split; discriminate.
Qed.

Lemma convertPerPattern_outcome (ro : RangeOrder) (c : Converter) (ing : Ingress) :
  if vocab.perPatternComplete ing
  then ∃ routes, convertPerPattern ro c ing = Ok routes
  else convertPerPattern ro c ing = Panic.
Proof.
  unfold vocab.perPatternComplete, convertPerPattern.
  rewrite convertPerPattern_loop_shape.
  pose proof (groupHosts_empty ing) as Hempty.
  pose proof (range_entries_nil ro (map_to_list (groupHosts (Rules ing)))) as Hro.
  destruct (spec.sourceHosts ing) as [|h l].
  - rewrite (proj2 Hro (proj2 Hempty eq_refl)). eauto.
  - destruct (ro (map_to_list (groupHosts (Rules ing)))) as [|e rest].
    + pose proof (proj1 Hempty (proj1 Hro eq_refl)) as Hbad. discriminate Hbad.
    + pose proof (firstRuleRules_outcome ing) as Hfirst.
      destruct (vocab.firstRuleComplete ing).
      * destruct Hfirst as [rr ->]. simpl. eauto.
      * rewrite Hfirst. reflexivity.
Qed.

(** X4. A conversion succeeds or panics, and the paths the mode reads decide
    which: single mode reads the first source rule and the default
    backend; per-host mode reads the source rules with a host; per-pattern
    mode reads the first source rule, and only when some source rule has
    a host.  A path without a service that the mode reads makes it panic;
    elsewhere it is not looked at. *)
Theorem conversion_outcomes (ro : RangeOrder) (c : Converter) (ing : Ingress) :
  (spec.singleComplete ing = true → ∃ hr, convertSingle c ing = Ok [hr])
  ∧ (spec.singleComplete ing = false → convertSingle c ing = Panic)
  ∧ (vocab.hostRulesComplete ing = true →
     ∃ routes, convertPerHost c ing = Ok routes)
  ∧ (vocab.hostRulesComplete ing = false → convertPerHost c ing = Panic)
  ∧ (vocab.perPatternComplete ing = true →
     ∃ routes, convertPerPattern ro c ing = Ok routes)
  ∧ (vocab.perPatternComplete ing = false → convertPerPattern ro c ing = Panic).
Proof.
  pose proof (convertSingle_outcome c ing) as Hs.
  pose proof (convertPerHost_loop_outcome c ing (Rules ing) 0 []) as Hh.
  pose proof (convertPerPattern_outcome ro c ing) as Hp.
  unfold vocab.hostRulesComplete, convertPerHost.
  destruct (spec.singleComplete ing);
    destruct (forallb _ (Rules ing));
    destruct (vocab.perPatternComplete ing);
    repeat split; intros; try discriminate; assumption.
Qed.

Lemma conversion_outcomes_witness :
  convertSingle (samples.converterOf "single") samples.missingBackendFirst = Panic
  ∧ ∃ routes, convertPerHost (samples.converterOf "per-host")
                samples.twoHosts = Ok routes.
Proof.
  pose proof (conversion_outcomes samples.inListedOrder
                (samples.converterOf "single") samples.missingBackendFirst)
    as (_ & Hpanic & _).
  pose proof (conversion_outcomes samples.inListedOrder
                (samples.converterOf "per-host") samples.twoHosts)
    as (_ & _ & Hok & _).
  split; [apply Hpanic | apply Hok]; reflexivity.
Defined.

Lemma convertIngress_Err (ro : RangeOrder) (c : Converter) (ing : Ingress)
    (e : string) :
  convertIngress ro c ing = Err e →
  SplitMode (opts c) ≠ "single" ∧ SplitMode (opts c) ≠ "per-host"
  ∧ SplitMode (opts c) ≠ "per-pattern"
  ∧ e = "invalid split mode: " +:+ SplitMode (opts c).
Proof.
  unfold convertIngress.
  pose proof (convertSingle_outcome c ing) as Hs.
  pose proof (convertPerHost_loop_outcome c ing (Rules ing) 0 []) as Hh.
  pose proof (convertPerPattern_outcome ro c ing) as Hp.
  destruct (String.eqb_spec (SplitMode (opts c)) "single").
  { destruct (spec.singleComplete ing); [destruct Hs as [? ->] | rewrite Hs];
      discriminate. }
  destruct (String.eqb_spec (SplitMode (opts c)) "per-host").
  { unfold convertPerHost. destruct (forallb _ (Rules ing));
      [destruct Hh as [? ->] | rewrite Hh]; discriminate. }
  destruct (String.eqb_spec (SplitMode (opts c)) "per-pattern").
  { destruct (vocab.perPatternComplete ing);
      [destruct Hp as [? ->] | rewrite Hp]; discriminate. }
  intros H. inversion H. auto.
Qed.

(** X5. [Convert] returns an error in two cases only: an element of the
    batch is not an Ingress, or the split mode is not one of the three.
    A source that cannot be converted otherwise makes it panic. *)
Theorem Convert_error_causes (ro : RangeOrder) (c : Converter)
    (ingresses : list Resource) (e : string) :
  Convert ro c ingresses = Err e →
  (OtherRes ∈ ingresses ∧ e = "invalid ingress type")
  ∨ (SplitMode (opts c) ≠ "single" ∧ SplitMode (opts c) ≠ "per-host"
     ∧ SplitMode (opts c) ≠ "per-pattern"
     ∧ ∃ ing, IngressRes ing ∈ ingresses
         ∧ e = "failed to convert ingress " +:+ Name ing
               +:+ ": invalid split mode: " +:+ SplitMode (opts c)).
Proof.
  unfold Convert. generalize (@nil gatewayv1.HTTPRoute).
  induction ingresses as [|[ing|] rest IH]; intros acc; cbn [Convert_loop].
  - discriminate.
  - destruct (convertIngress ro c ing) as [routes|e'|] eqn:Hing; [| |discriminate].
    + intros H. apply IH in H as [[Hin He]|(H1 & H2 & H3 & ing' & Hin & He)].
      * left. split; [right; assumption | assumption].
      * right. repeat (split; [assumption|]). exists ing'.
        split; [right; assumption | assumption].
    + intros H. inversion H; subst. right.
      apply convertIngress_Err in Hing as (H1 & H2 & H3 & ->).
      repeat (split; [assumption|]). exists ing. split; [left | reflexivity].
  - intros H. inversion H. left. split; [left | reflexivity].
Qed.

Lemma Convert_error_causes_witness :
  (OtherRes ∈ [IngressRes samples.twoHosts; OtherRes]
   ∧ "invalid ingress type" = "invalid ingress type")
  ∨ (SplitMode (opts (samples.converterOf "single")) ≠ "single"
     ∧ SplitMode (opts (samples.converterOf "single")) ≠ "per-host"
     ∧ SplitMode (opts (samples.converterOf "single")) ≠ "per-pattern"
     ∧ ∃ ing, IngressRes ing ∈ [IngressRes samples.twoHosts; OtherRes]
         ∧ "invalid ingress type"
           = "failed to convert ingress " +:+ Name ing
             +:+ ": invalid split mode: "
             +:+ SplitMode (opts (samples.converterOf "single"))).
Proof.
  apply (Convert_error_causes samples.inListedOrder
           (samples.converterOf "single")).
  vm_compute. reflexivity.
Defined.

End Outcomes.


(** ** What every target and every rule carries *)

Section TargetShape.

Import networkingv1 converter.

(** The name of the gateway a target refers to. *)
Lemma parentRefsOf_name (c : Converter) (ing : Ingress) :
  ∃ gw, parentRefsOf c ing
        = [ {| gatewayv1.pr_Name := gw; gatewayv1.pr_Kind := None |} ]
    ∧ gw ≠ ""
    ∧ (GatewayName (opts c) ≠ "" → gw = GatewayName (opts c))
    ∧ (GatewayName (opts c) = "" → gw = deriveGatewayName ing).
Proof.
  unfold parentRefsOf.
  destruct (String.eqb_spec (GatewayName (opts c)) "") as [Heq|Hne].
  - exists (deriveGatewayName ing). split; [reflexivity|].
    split; [|split; [intros H; contradiction | reflexivity]].
    unfold deriveGatewayName.
    destruct (IngressClassName ing); [discriminate|].
    destruct (Annotations ing !! ingressClassKey); discriminate.
  - exists (GatewayName (opts c)). split; [reflexivity|].
    split; [assumption|]. split; [reflexivity | intros H; contradiction].
Qed.

Lemma convertSingle_Ok (c : Converter) (ing : Ingress)
    (routes : list gatewayv1.HTTPRoute) :
  convertSingle c ing = Ok routes →
  ∃ rules,
    routes = [ {| gatewayv1.APIVersion := "gateway.networking.k8s.io/v1";
                  gatewayv1.Kind := "HTTPRoute";
                  gatewayv1.Name := Name ing +:+ "-httproute";
                  gatewayv1.Namespace := Namespace ing;
                  gatewayv1.Labels := Labels ing;
                  gatewayv1.Hostnames := spec.sourceHosts ing;
                  gatewayv1.ParentRefs := parentRefsOf c ing;
                  gatewayv1.Rules := rules |} ].
Proof.
  unfold convertSingle. rewrite collected_hostnames. simpl.
  destruct (firstRuleRules ing) as [rr| |]; simpl; try discriminate.
  destruct (DefaultBackend ing) as [backend|]; simpl.
  - destruct (createDefaultBackendRule ing backend) as [dr| |]; simpl;
      try discriminate.
    intros H. inversion H. eauto.
  - intros H. inversion H. eauto.
Qed.

(** X6. Every target of a conversion, in any mode, is an HTTPRoute of
    gateway.networking.k8s.io/v1 in the namespace and with the labels of
    its source; its name starts with the name of the source followed by
    -httproute; and it refers to exactly one gateway, by a name that is
    not empty: the configured gateway name, or else the one derived from
    the class of the source. *)
Theorem target_identity (ro : RangeOrder) (c : Converter) (ing : Ingress)
    (routes : list gatewayv1.HTTPRoute) :
  convertIngress ro c ing = Ok routes →
  Forall (λ hr,
            gatewayv1.APIVersion hr = "gateway.networking.k8s.io/v1"
            ∧ gatewayv1.Kind hr = "HTTPRoute"
            ∧ gatewayv1.Namespace hr = Namespace ing
            ∧ gatewayv1.Labels hr = Labels ing
            ∧ (∃ suffix, gatewayv1.Name hr
                         = Name ing +:+ "-httproute" +:+ suffix)
            ∧ ∃ gw, gatewayv1.ParentRefs hr
                    = [ {| gatewayv1.pr_Name := gw;
                           gatewayv1.pr_Kind := None |} ]
                ∧ gw ≠ ""
                ∧ (GatewayName (opts c) ≠ "" → gw = GatewayName (opts c))
                ∧ (GatewayName (opts c) = "" → gw = deriveGatewayName ing))
         routes.
Proof.
  unfold convertIngress. pose proof (parentRefsOf_name c ing) as Hgw.
  destruct (String.eqb (SplitMode (opts c)) "single").
  { intros H. apply convertSingle_Ok in H as (rules & ->).
    constructor; [|constructor]. simpl.
    repeat (split; [reflexivity|]). split; [|exact Hgw].
    exists "". rewrite append_nil_r. reflexivity. }
  destruct (String.eqb (SplitMode (opts c)) "per-host").
  { intros H. unfold convertPerHost in H.
    apply convertPerHost_loop_built in H as (new & -> & Hbuilt). simpl.
    clear -Hbuilt Hgw.
    induction Hbuilt as [|e hr es hrs (rr & _ & ->) _ IH]; constructor;
      [|exact IH].
    simpl. repeat (split; [reflexivity|]). split; [|exact Hgw].
    exists ("-" +:+ strconv.Itoa (e.1 + 1)). reflexivity. }
  destruct (String.eqb (SplitMode (opts c)) "per-pattern"); [|discriminate].
  intros H. apply convertPerPattern_routes in H as (rr & -> & _).
  apply Forall_fmap, Forall_forall. intros [p hosts] _. simpl.
  repeat (split; [reflexivity|]). split; [|exact Hgw].
  exists ("-" +:+ sanitizeName p). reflexivity.
Qed.

Lemma target_identity_witness :
  Forall (λ hr, gatewayv1.Namespace hr = "default")
    match convertIngress samples.inListedOrder
            (samples.converterOf "per-pattern") samples.twoPatterns with
    | Ok routes => routes
    | _ => []
    end.
Proof.
  refine (Forall_impl _ _ _
            (target_identity samples.inListedOrder
               (samples.converterOf "per-pattern") samples.twoPatterns
               (match convertIngress samples.inListedOrder
                        (samples.converterOf "per-pattern")
                        samples.twoPatterns with
                | Ok routes => routes
                | _ => []
                end) _) _).
  - vm_compute. reflexivity.
  - intros hr (_ & _ & Hns & _). exact Hns.
Defined.

Lemma retained_subset (seen : list string) (paths : list HTTPIngressPath) :
  (length (spec.retained seen paths) ≤ length paths)%nat
  ∧ ∀ p, p ∈ spec.retained seen paths → p ∈ paths.
Proof.
  revert seen. induction paths as [|path rest IH]; intros seen.
  - split; [reflexivity | intros p H; exact H].
  - cbn [spec.retained]. destruct (decide (spec.pathKey path ∈ seen)).
    + destruct (IH seen) as [Hlen Hin]. split; [simpl; lia|].
      intros p Hp. right. apply Hin, Hp.
    + destruct (IH (spec.pathKey path :: seen)) as [Hlen Hin].
      split; [simpl; lia|].
      intros p Hp. apply elem_of_cons in Hp as [->|Hp]; [left|].
      right. apply Hin, Hp.
Qed.

Lemma convertHTTPRules_Ok_complete (ing : Ingress) (paths : list HTTPIngressPath)
    (rules : list gatewayv1.HTTPRouteRule) :
  convertHTTPRules ing paths = Ok rules →
  forallb spec.pathComplete paths = true.
Proof.
  intros H. pose proof (convertHTTPRules_outcome ing paths) as Hout.
  destruct (forallb spec.pathComplete paths); [reflexivity|].
  rewrite Hout in H. discriminate H.
Qed.

(** X7. The rules synthesized from a path list are at most as many as the
    paths.  Each comes from one path entry: it has the single match of
    that path, of type Exact when the path type is Exact and PathPrefix
    otherwise, with the value / in place of an empty path; the single
    backend reference of the service of that path, with its port and
    weight 1; and the filters and timeouts of the annotations, the same
    on every rule. *)
Theorem synthesized_rule_shape (ing : Ingress) (paths : list HTTPIngressPath)
    (rules : list gatewayv1.HTTPRouteRule) :
  convertHTTPRules ing paths = Ok rules →
  (length rules ≤ length paths)%nat
  ∧ ∃ filters, extractFilters ing = Ok filters
    ∧ Forall (λ rule,
                ∃ p svc, p ∈ paths ∧ Service (Backend p) = Some svc
                  ∧ gatewayv1.Matches rule =
                      [ {| gatewayv1.Path := Some {|
                             gatewayv1.pm_Type :=
                               Some (match PathType_ p with
                                     | Some PathTypeExact =>
                                         gatewayv1.PathMatchExact
                                     | _ => gatewayv1.PathMatchPathPrefix
                                     end);
                             gatewayv1.pm_Value :=
                               Some (if String.eqb (Path p) "" then "/"
                                     else Path p) |} |} ]
                  ∧ gatewayv1.BackendRefs rule =
                      [ {| gatewayv1.br_Name := svc_Name svc;
                           gatewayv1.br_Port := Some (Number (Port svc));
                           gatewayv1.br_Weight := Some 1 |} ]
                  ∧ gatewayv1.Filters rule = filters
                  ∧ gatewayv1.Timeouts rule = extractTimeouts ing)
             rules.
Proof.
  intros Hconv.
  pose proof (convertHTTPRules_Ok_complete ing paths rules Hconv) as Hc.
  destruct (convertHTTPRules_retained ing paths Hc) as (rules' & Hrules' & Hall).
  rewrite Hconv in Hrules'. inversion Hrules'; subst rules'. clear Hrules'.
  destruct (retained_subset [] paths) as [Hlen Hsub].
  split; [rewrite <- (Forall2_length _ _ _ Hall); exact Hlen|].
  destruct (extractFilters_Ok ing) as [filters Hf]. exists filters.
  split; [exact Hf|].
  clear Hlen Hconv Hc. revert Hall Hsub. generalize (spec.retained [] paths).
  intros kept Hall. 
  induction Hall as [|p rule ps rs (svc & Hsvc & Hrule) _ IH]; intros Hsub;
    constructor.
  - exists p, svc. split; [apply Hsub; left|]. split; [exact Hsvc|].
    unfold ruleOfPath in Hrule. rewrite Hf in Hrule. simpl in Hrule.
    inversion Hrule; subst rule. simpl.
    repeat (split; [reflexivity|]). split; [|reflexivity].
    destruct filters; reflexivity.
  - apply IH. intros q Hq. apply Hsub. right. exact Hq.
Qed.

Lemma synthesized_rule_shape_witness :
  (length match convertHTTPRules samples.twoHosts samples.collidingPaths with
          | Ok rules => rules
          | _ => []
          end ≤ length samples.collidingPaths)%nat.
Proof.
  refine (proj1 (synthesized_rule_shape samples.twoHosts samples.collidingPaths
                   (match convertHTTPRules samples.twoHosts
                            samples.collidingPaths with
                    | Ok rules => rules
                    | _ => []
                    end) _)).
  vm_compute. reflexivity.
Defined.

(** *** The default backend outside single mode *)

Lemma extract_setDefaultBackend (ing : Ingress) (backend : option IngressBackend) :
  extractFilters (vocab.setDefaultBackend ing backend) = extractFilters ing
  ∧ extractTimeouts (vocab.setDefaultBackend ing backend) = extractTimeouts ing.
Proof. split; reflexivity. Qed.

Lemma convertHTTPRules_loop_setDefaultBackend (ing : Ingress)
    (backend : option IngressBackend) (paths : list HTTPIngressPath) :
  ∀ seen rules,
  convertHTTPRules_loop (vocab.setDefaultBackend ing backend) paths seen rules
  = convertHTTPRules_loop ing paths seen rules.
Proof.
  induction paths as [|path rest IH]; intros seen rules; [reflexivity|].
  cbn [convertHTTPRules_loop].
  destruct (Service (Backend path)) as [svc|]; [|reflexivity].
  destruct (default false (seen !! dedupKey (Path path) (svc_Name svc)));
    [apply IH|].
  change (ruleOfPath (vocab.setDefaultBackend ing backend) path svc)
    with (ruleOfPath ing path svc).
  destruct (ruleOfPath ing path svc); simpl; [apply IH | reflexivity..].
Qed.

Lemma convertRule_setDefaultBackend (ing : Ingress)
    (backend : option IngressBackend) (rule : IngressRule) :
  match HTTP rule with
  | Some paths => convertHTTPRules (vocab.setDefaultBackend ing backend) paths
  | None => Ok []
  end
  = match HTTP rule with
    | Some paths => convertHTTPRules ing paths
    | None => Ok []
    end.
Proof.
  destruct (HTTP rule); [|reflexivity].
  apply convertHTTPRules_loop_setDefaultBackend.
Qed.

(** X8. Per-host and per-pattern mode do not look at the default backend:
    whatever default backend the source declares, also one without a
    service, they return what they return without it. *)
Theorem default_backend_ignored (ro : RangeOrder) (c : Converter) (ing : Ingress)
    (backend : option IngressBackend) :
  convertPerHost c (vocab.setDefaultBackend ing backend) = convertPerHost c ing
  ∧ convertPerPattern ro c (vocab.setDefaultBackend ing backend)
    = convertPerPattern ro c ing.
Proof.
  split.
  - unfold convertPerHost. change (Rules (vocab.setDefaultBackend ing backend))
      with (Rules ing).
    generalize (@nil gatewayv1.HTTPRoute), 0.
    induction (Rules ing) as [|rule rest IH]; intros acc i; [reflexivity|].
    cbn [convertPerHost_loop].
    destruct (String.eqb (Host rule) ""); [apply IH|].
    rewrite convertRule_setDefaultBackend.
    destruct (match HTTP rule with
              | Some paths => convertHTTPRules ing paths
              | None => Ok []
              end); simpl; [apply IH | reflexivity..].
  - unfold convertPerPattern. rewrite !convertPerPattern_loop_shape.
    change (Rules (vocab.setDefaultBackend ing backend)) with (Rules ing).
    assert (Hfirst : firstRuleRules (vocab.setDefaultBackend ing backend)
                     = firstRuleRules ing).
    { unfold firstRuleRules.
      change (Rules (vocab.setDefaultBackend ing backend)) with (Rules ing).
      destruct (Rules ing) as [|rule0 rest]; [reflexivity|].
      apply convertRule_setDefaultBackend. }
    rewrite Hfirst. reflexivity.
Qed.

End TargetShape.


(** ** A batch as the sequence of its resources *)

Section BatchItems.

Import networkingv1 converter.

(** X9. A batch converts exactly when each of its resources converts on its
    own, and the result is then the routes of the resources one after
    the other, in the order of the batch. *)
Theorem Convert_concatenates (ro : RangeOrder) (c : Converter)
    (ingresses : list Resource) (routes : list gatewayv1.HTTPRoute) :
  Convert ro c ingresses = Ok routes ↔
  ∃ parts, Forall2 (λ it rs, Convert ro c [it] = Ok rs) ingresses parts
           ∧ routes = concat parts.
Proof.
  revert routes. induction ingresses as [|it rest IH]; intros routes.
  - split.
    + intros H. inversion H. exists []. split; [constructor | reflexivity].
    + intros (parts & Hall & ->). inversion Hall. reflexivity.
  - rewrite Convert_cons. split.
    + destruct (Convert ro c [it]) as [rs| |] eqn:Hit; simpl; try discriminate.
      destruct (Convert ro c rest) as [more| |] eqn:Hrest; simpl;
        try discriminate.
      intros H. inversion H; subst.
      destruct (proj1 (IH more) eq_refl) as (parts & Hall & ->).
      exists (rs :: parts). split; [constructor; assumption | reflexivity].
    + intros (parts & Hall & ->).
      inversion Hall as [|? rs ? parts' Hit Hrest]; subst.
      rewrite Hit. simpl.
      rewrite (proj2 (IH (concat parts')) (ex_intro _ parts' (conj Hrest eq_refl))).
      reflexivity.
Qed.

End BatchItems.

(** ** Negative timeouts *)

Section NegativeTimeouts.

Import networkingv1 converter validator.

Lemma durationOfSeconds_negative (n : Z) :
  n < 0 → durationSubmatch (durationOfSeconds n) = None.
Proof.
  intros Hn. destruct n as [|p|p]; try lia.
  unfold durationOfSeconds, strconv.Itoa, pretty, pretty_Z.
  rewrite append_assoc. reflexivity.
Qed.

(** X10. A timeout annotation that is a negative number is converted like any
    other: both fields are set to that number followed by s.  The
    validator then rejects the two fields for their format, and reports
    no ordering error. *)
Theorem negative_timeout_rejected (ing : Ingress) (v : string) (n idx : Z) :
  Annotations ing !! readTimeoutKey = Some v →
  strconv.Atoi v = (n, true) →
  n < 0 →
  extractTimeouts ing =
    Some {| gatewayv1.Request := Some (strconv.Itoa n +:+ "s");
            gatewayv1.BackendRequest := Some (strconv.Itoa n +:+ "s") |}
  ∧ spec.timeoutFindings (strconv.Itoa n +:+ "s") (strconv.Itoa n +:+ "s") idx
    = [requestFormatError idx; backendRequestFormatError idx].
Proof.
  intros Hread Hv Hn. split.
  - unfold extractTimeouts. rewrite Hread, Hv.
    destruct (Annotations ing !! sendTimeoutKey) as [sv|];
      [destruct (strconv.Atoi sv) as [sn [|]]|]; reflexivity.
  - pose proof (durationOfSeconds_negative n Hn) as Hsub.
    unfold durationOfSeconds in Hsub.
    unfold spec.timeoutFindings, validateTimeouts, parseDuration,
      isValidDuration. simpl. rewrite Hsub. reflexivity.
Qed.

Lemma negative_timeout_rejected_witness :
  spec.timeoutFindings "-5s" "-5s" 0
  = [requestFormatError 0; backendRequestFormatError 0].
Proof.
  refine (proj2 (negative_timeout_rejected
                   (samples.ingressOf {[ readTimeoutKey := "-5" ]} None [])
                   "-5" (-5) 0 _ _ _)).
  - vm_compute. reflexivity.
  - vm_compute. reflexivity.
  - lia.
Defined.

End NegativeTimeouts.

(** ** Sanitized names *)

Section SanitizedNames.

Import converter.

Lemma allBytes_replaceInvalid (s : string) :
  vocab.allBytes vocab.nameByte (replaceInvalid s) = true.
Proof.
  induction s as [|c r IH]; [reflexivity|]. simpl. rewrite IH, andb_true_r.
  unfold sanitizeByte, vocab.nameByte.
  destruct ((97 <=? N_of_ascii c)%N && (N_of_ascii c <=? 122)%N
            || (48 <=? N_of_ascii c)%N && (N_of_ascii c <=? 57)%N
            || (N_of_ascii c =? 45)%N) eqn:H; [exact H | reflexivity].
Qed.

Lemma allBytes_TrimLeft (P : ascii → bool) (s : string) (cut : ascii) :
  vocab.allBytes P s = true → vocab.allBytes P (gostrings.TrimLeft s cut) = true.
Proof.
  induction s as [|c r IH]; [reflexivity|]. intros H. simpl.
  destruct (Ascii.eqb c cut); [|exact H].
  simpl in H. apply andb_true_iff in H as [_ H]. apply IH, H.
Qed.

Lemma allBytes_rev_app (P : ascii → bool) (s acc : string) :
  vocab.allBytes P (String.rev_app s acc)
  = vocab.allBytes P s && vocab.allBytes P acc.
Proof.
  revert acc. induction s as [|c r IH]; intros acc; [reflexivity|].
  simpl. rewrite IH. simpl. 
  destruct (P c), (vocab.allBytes P r); reflexivity.
Qed.

Lemma allBytes_rev (P : ascii → bool) (s : string) :
  vocab.allBytes P (String.rev s) = vocab.allBytes P s.
Proof. unfold String.rev. rewrite allBytes_rev_app. apply andb_true_r. Qed.

Lemma allBytes_Trim (P : ascii → bool) (s : string) (cut : ascii) :
  vocab.allBytes P s = true → vocab.allBytes P (gostrings.Trim s cut) = true.
Proof.
  intros H. unfold gostrings.Trim, gostrings.TrimRight.
  rewrite allBytes_rev. apply allBytes_TrimLeft. rewrite allBytes_rev.
  apply allBytes_TrimLeft, H.
Qed.

Lemma substring_prefix (n : nat) (s : string) :
  (String.length (String.substring 0 n s) ≤ n)%nat
  ∧ ∃ rest, s = String.substring 0 n s +:+ rest.
Proof.
  revert s. induction n as [|n IH]; intros s.
  - destruct s; (split; [simpl; lia | eexists; reflexivity]).
  - destruct s as [|c r]; [split; [simpl; lia | exists ""; reflexivity]|].
    simpl. destruct (IH r) as [Hlen [rest Hrest]].
    split; [lia|]. exists rest. rewrite append_cons, <- Hrest. reflexivity.
Qed.

Lemma allBytes_app (P : ascii → bool) (a b : string) :
  vocab.allBytes P (a +:+ b) = vocab.allBytes P a && vocab.allBytes P b.
Proof.
  induction a as [|c r IH]; [reflexivity|].
  rewrite append_cons. simpl. rewrite IH, andb_assoc. reflexivity.
Qed.

Lemma rev_app_rev_app (a b c : string) :
  String.rev_app (String.rev_app a b) c = String.rev_app b (a +:+ c).
Proof.
  revert b c. induction a as [|x a IH]; intros b c; [reflexivity|].
  simpl. rewrite IH. reflexivity.
Qed.

Lemma rev_app_append (a b : string) :
  String.rev_app a b = String.rev a +:+ b.
Proof.
  unfold String.rev. revert b. induction a as [|x a IH]; intros b; [reflexivity|].
  simpl. rewrite (IH (String x b)), (IH (String x "")), append_assoc.
  reflexivity.
Qed.

Lemma rev_rev (s : string) : String.rev (String.rev s) = s.
Proof.
  unfold String.rev. rewrite rev_app_rev_app. simpl. apply append_nil_r.
Qed.

Lemma rev_app_distr (a b : string) :
  String.rev (a +:+ b) = String.rev b +:+ String.rev a.
Proof.
  induction a as [|x a IH].
  - rewrite append_nil_l, append_nil_r. reflexivity.
  - rewrite append_cons. unfold String.rev at 1 3. simpl.
    rewrite !rev_app_append, IH, append_assoc. reflexivity.
Qed.

Lemma TrimLeft_suffix (s : string) (cut : ascii) :
  ∃ pre, s = pre +:+ gostrings.TrimLeft s cut.
Proof.
  induction s as [|c r [pre Hpre]]; [exists ""; reflexivity|].
  simpl. destruct (Ascii.eqb c cut).
  - exists (String c pre). rewrite append_cons, <- Hpre. reflexivity.
  - exists "". reflexivity.
Qed.

Lemma TrimLeft_head (s : string) (cut : ascii) :
  vocab.startsWith cut (gostrings.TrimLeft s cut) = false.
Proof.
  induction s as [|c r IH]; [reflexivity|]. simpl.
  destruct (Ascii.eqb c cut) eqn:Hc; [exact IH | simpl; exact Hc].
Qed.

Lemma TrimRight_prefix (s : string) (cut : ascii) :
  ∃ rest, s = gostrings.TrimRight s cut +:+ rest.
Proof.
  unfold gostrings.TrimRight.
  destruct (TrimLeft_suffix (String.rev s) cut) as [pre Hpre].
  exists (String.rev pre).
  rewrite <- rev_app_distr, <- Hpre, rev_rev. reflexivity.
Qed.

Lemma startsWith_prefix (c : ascii) (a b : string) :
  vocab.startsWith c (a +:+ b) = false → vocab.startsWith c a = false.
Proof. destruct a as [|x a]; [reflexivity|]. rewrite append_cons. auto. Qed.

(** X11. On ASCII text [sanitizeName] returns at most 63 bytes, all of them
    lower-case letters, digits or hyphens, and never a text that starts
    with a hyphen. *)
Theorem sanitizeName_form (name : string) :
  vocab.isASCII name = true →
  (String.length (sanitizeName name) ≤ 63)%nat
  ∧ vocab.allBytes vocab.nameByte (sanitizeName name) = true
  ∧ vocab.startsWith "-" (sanitizeName name) = false.
Proof.
  intros _. unfold sanitizeName.
  set (trimmed := gostrings.Trim (replaceInvalid (gostrings.ToLower name)) "-").
  assert (Hbytes : vocab.allBytes vocab.nameByte trimmed = true)
    by apply allBytes_Trim, allBytes_replaceInvalid.
  assert (Hhead : vocab.startsWith "-" trimmed = false).
  { unfold trimmed, gostrings.Trim.
    destruct (TrimRight_prefix
                (gostrings.TrimLeft (replaceInvalid (gostrings.ToLower name)) "-")
                "-") as [rest Hrest].
    pose proof (TrimLeft_head (replaceInvalid (gostrings.ToLower name)) "-") as Hh.
    rewrite Hrest in Hh. apply startsWith_prefix in Hh. exact Hh. }
  destruct (Nat.ltb_spec 63 (String.length trimmed)) as [Hlong|Hshort].
  - destruct (substring_prefix 63 trimmed) as [Hlen [rest Hrest]].
    split; [exact Hlen|]. split.
    + rewrite Hrest, allBytes_app in Hbytes.
      apply andb_true_iff in Hbytes as [H _]. exact H.
    + rewrite Hrest in Hhead. apply startsWith_prefix in Hhead. exact Hhead.
  - split; [exact Hshort|]. split; assumption.
Qed.

Lemma sanitizeName_form_witness :
  (String.length (sanitizeName "EXAMPLE.COM") ≤ 63)%nat
  ∧ vocab.allBytes vocab.nameByte (sanitizeName "EXAMPLE.COM") = true
  ∧ vocab.startsWith "-" (sanitizeName "EXAMPLE.COM") = false.
Proof.
  apply (sanitizeName_form "EXAMPLE.COM"). vm_compute. reflexivity.
Defined.

End SanitizedNames.

(** ** The paths and the annotations a conversion reads *)

Section SourcesRead.

Import networkingv1 converter.

Lemma firstRuleRules_paths (ing : Ingress) :
  firstRuleRules ing = convertHTTPRules ing (vocab.firstRulePaths ing).
Proof.
  unfold firstRuleRules, vocab.firstRulePaths.
  destruct (Rules ing) as [|rule0 rest]; [reflexivity|].
  destruct (HTTP rule0); reflexivity.
Qed.

(** X23. In single and in per-pattern mode the rules of a route come from the
    paths of the first source rule only, whatever host that rule has:
    the route of single mode has these rules, followed by the rule of
    the default backend when there is one, and every route of
    per-pattern mode has exactly these rules.  The paths of the other
    source rules are in no route. *)
Theorem first_rule_paths_only (ro : RangeOrder) (c : Converter) (ing : Ingress) :
  (∀ hr, convertSingle c ing = Ok [hr] →
     ∃ rr, convertHTTPRules ing (vocab.firstRulePaths ing) = Ok rr
           ∧ match DefaultBackend ing with
             | Some backend =>
                 ∃ rule, createDefaultBackendRule ing backend = Ok rule
                         ∧ gatewayv1.Rules hr = rr ++ [rule]
             | None => gatewayv1.Rules hr = rr
             end)
  ∧ (∀ routes, convertPerPattern ro c ing = Ok routes →
       Forall (λ hr, convertHTTPRules ing (vocab.firstRulePaths ing)
                     = Ok (gatewayv1.Rules hr)) routes).
Proof.
  split.
  - intros hr. unfold convertSingle. rewrite firstRuleRules_paths.
    destruct (convertHTTPRules ing (vocab.firstRulePaths ing)) as [rr| |];
      simpl; try discriminate.
    destruct (DefaultBackend ing) as [backend|]; simpl.
    + destruct (createDefaultBackendRule ing backend) as [rule| |]; simpl;
        try discriminate.
      intros H. inversion H; subst hr. exists rr. split; [reflexivity|].
      exists rule. split; reflexivity.
    + intros H. inversion H; subst hr. exists rr. split; reflexivity.
  - intros routes H.
    apply convertPerPattern_routes in H as (rr & -> & Hfirst).
    destruct (ro (map_to_list (groupHosts (Rules ing)))) as [|e rest];
      [constructor|].
    rewrite <- firstRuleRules_paths, Hfirst by discriminate.
    apply Forall_fmap, Forall_forall. intros e' _. reflexivity.
Qed.

Lemma first_rule_paths_only_witness :
  Forall (λ hr, convertHTTPRules samples.twoPatterns
                  (vocab.firstRulePaths samples.twoPatterns)
                = Ok (gatewayv1.Rules hr))
    match convertPerPattern samples.inListedOrder
            (samples.converterOf "per-pattern") samples.twoPatterns with
    | Ok routes => routes
    | _ => []
    end.
Proof.
  apply (proj2 (first_rule_paths_only samples.inListedOrder
                  (samples.converterOf "per-pattern") samples.twoPatterns)).
  vm_compute. reflexivity.
Defined.

Lemma extract_setAnnotations (c : Converter) (ing : Ingress)
    (annotations : gmap string string) :
  Forall (λ k, annotations !! k = Annotations ing !! k) vocab.readAnnotations →
  extractFilters (vocab.setAnnotations ing annotations) = extractFilters ing
  ∧ extractTimeouts (vocab.setAnnotations ing annotations) = extractTimeouts ing
  ∧ parentRefsOf c (vocab.setAnnotations ing annotations) = parentRefsOf c ing.
Proof.
  intros H. unfold vocab.readAnnotations in H.
  apply Forall_cons in H as [H1 H]. apply Forall_cons in H as [H2 H].
  apply Forall_cons in H as [H3 H]. apply Forall_cons in H as [H4 H].
  apply Forall_cons in H as [H5 _].
  unfold extractFilters, extractTimeouts, parentRefsOf, deriveGatewayName.
  cbn [Annotations IngressClassName vocab.setAnnotations].
  rewrite H1, H2, H3, H4, H5. auto.
Qed.

Lemma convertHTTPRules_loop_setAnnotations (ing : Ingress)
    (annotations : gmap string string) (paths : list HTTPIngressPath) :
  Forall (λ k, annotations !! k = Annotations ing !! k) vocab.readAnnotations →
  ∀ seen rules,
  convertHTTPRules_loop (vocab.setAnnotations ing annotations) paths seen rules
  = convertHTTPRules_loop ing paths seen rules.
Proof.
  intros H.
  destruct (extract_setAnnotations (NewConverter
              {| SplitMode := ""; GatewayName := ""; GatewayClass := "";
                 OutputFormat := "" |}) ing annotations H) as (Hf & Ht & _).
  induction paths as [|path rest IH]; intros seen rules; [reflexivity|].
  cbn [convertHTTPRules_loop].
  destruct (Service (Backend path)) as [svc|]; [|reflexivity].
  destruct (default false (seen !! dedupKey (Path path) (svc_Name svc)));
    [apply IH|].
  assert (Hrule : ruleOfPath (vocab.setAnnotations ing annotations) path svc
                  = ruleOfPath ing path svc)
    by (unfold ruleOfPath; rewrite Hf, Ht; reflexivity).
  rewrite Hrule.
  destruct (ruleOfPath ing path svc); simpl; [apply IH | reflexivity..].
Qed.

Lemma convertRule_setAnnotations (ing : Ingress)
    (annotations : gmap string string) (rule : IngressRule) :
  Forall (λ k, annotations !! k = Annotations ing !! k) vocab.readAnnotations →
  match HTTP rule with
  | Some paths => convertHTTPRules (vocab.setAnnotations ing annotations) paths
  | None => Ok []
  end
  = match HTTP rule with
    | Some paths => convertHTTPRules ing paths
    | None => Ok []
    end.
Proof.
  intros H. destruct (HTTP rule); [|reflexivity].
  apply convertHTTPRules_loop_setAnnotations, H.
Qed.

(** X24. A conversion reads five annotations: the rewrite target, the
    permanent redirect, the two proxy timeouts and the ingress class.
    Whatever else is annotated, canary and CORS settings among it, has
    no effect on the result, in any split mode. *)
Theorem other_annotations_ignored (ro : RangeOrder) (c : Converter)
    (ing : Ingress) (annotations : gmap string string) :
  Forall (λ k, annotations !! k = Annotations ing !! k) vocab.readAnnotations →
  convertIngress ro c (vocab.setAnnotations ing annotations)
  = convertIngress ro c ing.
Proof.
  intros H. destruct (extract_setAnnotations c ing annotations H)
    as (_ & _ & Hrefs).
  assert (Hfirst : firstRuleRules (vocab.setAnnotations ing annotations)
                   = firstRuleRules ing).
  { unfold firstRuleRules.
    change (Rules (vocab.setAnnotations ing annotations)) with (Rules ing).
    destruct (Rules ing) as [|rule0 rest]; [reflexivity|].
    apply convertRule_setAnnotations, H. }
  unfold convertIngress.
  destruct (String.eqb (SplitMode (opts c)) "single").
  { unfold convertSingle. rewrite Hfirst, Hrefs. reflexivity. }
  destruct (String.eqb (SplitMode (opts c)) "per-host").
  { unfold convertPerHost.
    change (Rules (vocab.setAnnotations ing annotations)) with (Rules ing).
    generalize (@nil gatewayv1.HTTPRoute), 0.
    induction (Rules ing) as [|rule rest IH]; intros acc i; [reflexivity|].
    cbn [convertPerHost_loop].
    destruct (String.eqb (Host rule) ""); [apply IH|].
    rewrite (convertRule_setAnnotations ing annotations rule H).
    destruct (match HTTP rule with
              | Some paths => convertHTTPRules ing paths
              | None => Ok []
              end) as [rr| |]; simpl; [|reflexivity..].
    unfold hostRoute. rewrite Hrefs. apply IH. }
  destruct (String.eqb (SplitMode (opts c)) "per-pattern"); [|reflexivity].
  unfold convertPerPattern. rewrite !convertPerPattern_loop_shape.
  change (Rules (vocab.setAnnotations ing annotations)) with (Rules ing).
  rewrite Hfirst. unfold patternRoute. rewrite Hrefs. reflexivity.
Qed.

Lemma other_annotations_ignored_witness :
  convertIngress samples.inListedOrder (samples.converterOf "per-host")
    (vocab.setAnnotations samples.testIngress moresamples.withCanary)
  = convertIngress samples.inListedOrder (samples.converterOf "per-host")
      samples.testIngress.
Proof.
  apply (other_annotations_ignored samples.inListedOrder
           (samples.converterOf "per-host") samples.testIngress
           moresamples.withCanary).
  vm_compute. repeat constructor.
Defined.

End SourcesRead.

(** ** Path conflicts and panics of the validator *)

Section PathConflicts.

Import gatewayv1 validator routecheck.

Lemma indicesOf_app (k : string) (l1 l2 : list (string * Z)) :
  vocab.indicesOf k (l1 ++ l2) = vocab.indicesOf k l1 ++ vocab.indicesOf k l2.
Proof. unfold vocab.indicesOf. rewrite filter_app, fmap_app. reflexivity. Qed.

Lemma indicesOf_cons (k : string) (e : string * Z) (l : list (string * Z)) :
  vocab.indicesOf k (e :: l)
  = if decide (e.1 = k) then e.2 :: vocab.indicesOf k l
    else vocab.indicesOf k l.
Proof.
  unfold vocab.indicesOf. destruct (decide (e.1 = k)) as [He|He].
  - rewrite filter_cons_True by exact He. reflexivity.
  - rewrite filter_cons_False by exact He. reflexivity.
Qed.

Lemma indicesOf_nil_iff (k : string) (l : list (string * Z)) :
  vocab.indicesOf k l = [] ↔ k ∉ l.*1.
Proof.
  induction l as [|e r IH]; simpl.
  - split; [intros _ H; inversion H | reflexivity].
  - rewrite indicesOf_cons, not_elem_of_cons.
    destruct (decide (e.1 = k)) as [He|He].
    + split; [discriminate | intros [Hne _]; congruence].
    + rewrite IH. split; [intros H; split; [congruence | exact H] | tauto].
Qed.

Lemma pathsOf_record (paths : gmap string (list Z))
    (events : list (string * Z)) (key : string) (i : Z) :
  vocab.pathsOf paths events →
  vocab.pathsOf (<[key := default [] (paths !! key) ++ [i]]> paths)
    (events ++ [(key, i)]).
Proof.
  intros Hinv k. rewrite indicesOf_app, indicesOf_cons. simpl.
  destruct (decide (key = k)) as [->|Hne].
  - rewrite lookup_insert_eq, Hinv.
    destruct (vocab.indicesOf k events) as [|j l]; reflexivity.
  - rewrite lookup_insert_ne by exact Hne. rewrite app_nil_r. apply Hinv.
Qed.

Lemma collectMatches_outcome (matches : list HTTPRouteMatch) (i : Z) :
  ∀ paths events,
  vocab.pathsOf paths events →
  if existsb vocab.untypedPath matches
  then collectMatches matches i paths = Panic
  else ∃ paths',
         collectMatches matches i paths = Ok paths'
         ∧ vocab.pathsOf paths'
             (events ++ ((λ k, (k, i)) <$> omap vocab.matchKey matches)).
Proof.
  induction matches as [|m rest IH]; intros paths events Hinv.
  - simpl. exists paths. rewrite app_nil_r. split; [reflexivity | exact Hinv].
  - destruct m as [[[[t|] [value|]]|]];
      cbn [collectMatches existsb omap list_omap vocab.untypedPath
           vocab.matchKey Path pm_Value pm_Type pathKey mbind result_bind
           orb fmap list_fmap];
      try (apply IH; exact Hinv); [|reflexivity].
    pose proof (IH _ _ (pathsOf_record paths events
                          (pathTypeString t +:+ ":" +:+ value) i Hinv)) as H.
    destruct (existsb vocab.untypedPath rest); [exact H|].
    destruct H as (paths' & Heq & Hinv'). exists paths'.
    split; [exact Heq|]. rewrite <- app_assoc in Hinv'. exact Hinv'.
Qed.

Lemma collectPaths_outcome (rules : list HTTPRouteRule) :
  ∀ i paths events,
  vocab.pathsOf paths events →
  if existsb (λ rule, existsb vocab.untypedPath (Matches rule)) rules
  then collectPaths rules i paths = Panic
  else ∃ paths',
         collectPaths rules i paths = Ok paths'
         ∧ vocab.pathsOf paths' (events ++ vocab.keyEvents rules i).
Proof.
  induction rules as [|rule rest IH]; intros i paths events Hinv.
  - simpl. exists paths. rewrite app_nil_r. split; [reflexivity | exact Hinv].
  - cbn [collectPaths existsb vocab.keyEvents].
    pose proof (collectMatches_outcome (Matches rule) i paths events Hinv) as H.
    destruct (existsb vocab.untypedPath (Matches rule)); simpl.
    + rewrite H. reflexivity.
    + destruct H as (paths1 & -> & Hinv1). simpl.
      pose proof (IH (i + 1) paths1 _ Hinv1) as H.
      destruct (existsb _ rest); [exact H|].
      destruct H as (paths' & Heq & Hinv'). exists paths'.
      split; [exact Heq|]. rewrite <- app_assoc in Hinv'. exact Hinv'.
Qed.

Lemma pathsOf_empty : vocab.pathsOf ∅ [].
Proof. intros k. rewrite lookup_empty. reflexivity. Qed.

Lemma pathsOf_entries (paths : gmap string (list Z))
    (events : list (string * Z)) :
  vocab.pathsOf paths events →
  map_to_list paths
  ≡ₚ (λ k, (k, vocab.indicesOf k events)) <$> spec.distinct events.*1.
Proof.
  intros Hinv. apply NoDup_Permutation.
  - apply NoDup_map_to_list.
  - assert (Hinj : Inj (=) (=) (λ k : string, (k, vocab.indicesOf k events)))
      by (intros k1 k2 Heq; inversion Heq; reflexivity).
    apply (@NoDup_fmap_2 _ _ _ Hinj). apply NoDup_firstSeen.
  - intros [k v]. rewrite elem_of_map_to_list, Hinv, list_elem_of_fmap.
    split.
    + intros H. exists k.
      assert (Hv : vocab.indicesOf k events = v)
        by (destruct (vocab.indicesOf k events); [discriminate | congruence]).
      split; [rewrite Hv; reflexivity|].
      unfold spec.distinct. rewrite elem_of_firstSeen.
      split; [|intros Hin; inversion Hin].
      destruct (decide (k ∈ events.*1)) as [Hin|Hnin]; [exact Hin|].
      apply indicesOf_nil_iff in Hnin. rewrite Hnin in H. discriminate.
    + intros (k' & Heq & Hin). inversion Heq; subst k' v.
      unfold spec.distinct in Hin. rewrite elem_of_firstSeen in Hin.
      destruct Hin as [Hin _].
      destruct (vocab.indicesOf k events) eqn:Hl; [|reflexivity].
      apply indicesOf_nil_iff in Hl. contradiction.
Qed.

Lemma reportConflict_fold (entries : list (string * list Z)) :
  ∀ res,
  ResourceName (fold_left reportConflict entries res) = ResourceName res
  ∧ Errors (fold_left reportConflict entries res) = Errors res
  ∧ Warnings (fold_left reportConflict entries res)
    = Warnings res
      ++ ((λ e, conflictWarning e.1 e.2)
            <$> filter (λ e, (1 < length e.2)%nat) entries).
Proof.
  induction entries as [|e rest IH]; intros res.
  - simpl. rewrite app_nil_r. auto.
  - cbn [fold_left]. destruct (IH (reportConflict res e)) as (Hn & He & Hw).
    rewrite Hn, He, Hw. unfold reportConflict.
    destruct (Nat.ltb_spec 1 (length e.2)) as [Hlt|Hge].
    + rewrite filter_cons_True by exact Hlt. simpl.
      rewrite <- app_assoc. auto.
    + rewrite filter_cons_False by lia. auto.
Qed.

Lemma filter_fmap_entries (f : string → list Z) (keys : list string) :
  filter (λ e : string * list Z, (1 < length e.2)%nat)
    ((λ k, (k, f k)) <$> keys)
  = (λ k, (k, f k)) <$> filter (λ k, (1 < length (f k))%nat) keys.
Proof.
  induction keys as [|k r IH]; [reflexivity|].
  rewrite fmap_cons. destruct (decide (1 < length (f k))%nat) as [H|H].
  - rewrite !filter_cons_True by exact H. rewrite fmap_cons, IH. reflexivity.
  - rewrite !filter_cons_False by exact H. exact IH.
Qed.

Lemma NoDup_keys_indices (events : list (string * Z)) :
  NoDup events.*1 ↔ ∀ k, (length (vocab.indicesOf k events) ≤ 1)%nat.
Proof.
  induction events as [|e r IH].
  - split; [intros _ k; simpl; lia | intros _; constructor].
  - rewrite fmap_cons, NoDup_cons, IH. split.
    + intros [Hnin Hr] k. rewrite indicesOf_cons.
      destruct (decide (e.1 = k)) as [<-|Hne]; [|apply Hr].
      apply indicesOf_nil_iff in Hnin. rewrite Hnin. simpl. lia.
    + intros H. split.
      * intros Hin. pose proof (H e.1) as He. rewrite indicesOf_cons in He.
        rewrite decide_True in He by reflexivity.
        destruct (vocab.indicesOf e.1 r) eqn:Hl; [|simpl in He; lia].
        apply indicesOf_nil_iff in Hl. contradiction.
      * intros k. pose proof (H k) as Hk. rewrite indicesOf_cons in Hk.
        destruct (decide (e.1 = k)); [simpl in Hk; lia | exact Hk].
Qed.

Lemma conflictKeys_nil_iff (events : list (string * Z)) :
  vocab.conflictKeys events = [] ↔ NoDup events.*1.
Proof.
  rewrite NoDup_keys_indices. unfold vocab.conflictKeys. split.
  - intros Hnil k.
    destruct (decide (k ∈ events.*1)) as [Hin|Hnin].
    + destruct (decide (1 < length (vocab.indicesOf k events))%nat) as [Hlt|];
        [|lia].
      assert (Hk : k ∈ filter (λ k, (1 < length (vocab.indicesOf k events))%nat)
                     (spec.distinct events.*1)).
      { apply list_elem_of_filter. split; [exact Hlt|].
        unfold spec.distinct. rewrite elem_of_firstSeen.
        split; [exact Hin | intros H; inversion H]. }
      rewrite Hnil in Hk. inversion Hk.
    + apply indicesOf_nil_iff in Hnin. rewrite Hnin. simpl. lia.
  - intros H. induction (spec.distinct events.*1) as [|k r IH];
      [reflexivity|].
    rewrite filter_cons_False by (pose proof (H k); lia). exact IH.
Qed.

(** X12. When [checkPathConflicts] returns, it has added no error and one
    warning for every pair of match type and path value that the rules
    match more than once: the warning lists the index of a rule once for
    each of its matches with that pair, so that a rule which repeats a
    match is reported as a conflict with itself.  Which warning comes
    first depends on the iteration order of the map.  No warning is added
    exactly when all the typed path matches of the route differ. *)
Theorem path_conflict_warnings (ro : MapRange (list Z)) (hr : HTTPRoute)
    (res res' : ValidationResult) :
  checkPathConflicts ro hr res = Ok res' →
  ResourceName res' = ResourceName res
  ∧ Errors res' = Errors res
  ∧ ∃ new,
      Warnings res' = Warnings res ++ new
      ∧ new ≡ₚ (λ k, conflictWarning k
                       (vocab.indicesOf k (vocab.keyEvents (Rules hr) 0)))
               <$> vocab.conflictKeys (vocab.keyEvents (Rules hr) 0)
      ∧ (new = [] ↔ NoDup (vocab.keyEvents (Rules hr) 0).*1).
Proof.
  unfold checkPathConflicts.
  pose proof (collectPaths_outcome (Rules hr) 0 ∅ [] pathsOf_empty) as H.
  destruct (existsb _ (Rules hr)); [rewrite H; discriminate|].
  destruct H as (paths & -> & Hinv). simpl in Hinv. simpl.
  intros Hres. inversion Hres as [Hres']. clear Hres Hres'.
  destruct (reportConflict_fold (ro (map_to_list paths)) res)
    as (Hn & He & Hw).
  split; [exact Hn|]. split; [exact He|].
  set (events := vocab.keyEvents (Rules hr) 0) in *.
  assert (Hperm :
    (λ e : string * list Z, conflictWarning e.1 e.2)
      <$> filter (λ e, (1 < length e.2)%nat) (ro (map_to_list paths))
    ≡ₚ (λ k, conflictWarning k (vocab.indicesOf k events))
         <$> vocab.conflictKeys events).
  { rewrite (map_range_perm ro), (pathsOf_entries paths events Hinv).
    rewrite filter_fmap_entries, <- list_fmap_compose. reflexivity. }
  eexists. split; [exact Hw|]. split; [exact Hperm|].
  rewrite <- conflictKeys_nil_iff. split.
  - intros Hnil. rewrite Hnil in Hperm. symmetry in Hperm.
    apply Permutation_nil_r in Hperm. apply fmap_nil_inv in Hperm. exact Hperm.
  - intros Hnil. rewrite Hnil in Hperm. simpl in Hperm.
    apply Permutation_nil_r in Hperm. exact Hperm.
Qed.

Lemma path_conflict_warnings_witness :
  ∃ new,
    Warnings match checkPathConflicts moresamples.listed
                     moresamples.repeatedMatchRoute moresamples.emptyResult with
             | Ok res' => res'
             | _ => moresamples.emptyResult
             end
    = [] ++ new
    ∧ new ≡ₚ ["path PathPrefix:/ appears in multiple rules: [0 0]"].
Proof.
  destruct (path_conflict_warnings moresamples.listed moresamples.repeatedMatchRoute
              moresamples.emptyResult
              (match checkPathConflicts moresamples.listed
                       moresamples.repeatedMatchRoute moresamples.emptyResult with
               | Ok res' => res'
               | _ => moresamples.emptyResult
               end)) as (_ & _ & new & Hw & Hperm & _).
  - vm_compute. reflexivity.
  - exists new. split; [exact Hw | exact Hperm].
Defined.

(** X13. The validator returns a result for a route, or panics; it panics
    exactly when some rule of the route has a path match with a value and
    no type.  The check of the match itself accepts such a match; reading
    its type for the conflict check is what fails. *)
Theorem validateHTTPRoute_outcome (ro : MapRange (list Z)) (hr : HTTPRoute) :
  (vocab.hasUntypedPath hr = true → validateHTTPRoute ro hr = Panic)
  ∧ (vocab.hasUntypedPath hr = false →
     ∃ res, validateHTTPRoute ro hr = Ok res).
Proof.
  unfold validateHTTPRoute, validateRules, checkPathConflicts,
    vocab.hasUntypedPath.
  pose proof (collectPaths_outcome (Rules hr) 0 ∅ [] pathsOf_empty) as H.
  destruct (Rules hr) as [|rule rest] eqn:Hrules.
  - split; [discriminate | eauto].
  - destruct (existsb _ (rule :: rest)).
    + split; [|discriminate]. intros _. rewrite H. reflexivity.
    + split; [discriminate|]. intros _. destruct H as (paths & -> & _).
      simpl. eauto.
Qed.

Lemma validateHTTPRoute_outcome_witness :
  validateHTTPRoute moresamples.listed moresamples.untypedRoute = Panic.
Proof.
  apply (proj1 (validateHTTPRoute_outcome moresamples.listed
                  moresamples.untypedRoute)).
  vm_compute. reflexivity.
Defined.

End PathConflicts.

(** ** What the validator accepts *)

Section Acceptance.

Import gatewayv1 validator routecheck.

Lemma reports_id (P : Prop) : P → vocab.reports (λ res, res) P.
Proof.
  intros HP res. exists []. rewrite app_nil_r. split; [reflexivity|].
  split; [intros _; exact HP | reflexivity].
Qed.

Lemma reports_addError (msg : string) :
  vocab.reports (λ res, addError res msg) False.
Proof.
  intros res. exists [msg]. split; [reflexivity|].
  split; [discriminate | contradiction].
Qed.

Lemma reports_addWarning (msg : string) :
  vocab.reports (λ res, addWarning res msg) True.
Proof. intros res. exists []. rewrite app_nil_r. split; [reflexivity | tauto]. Qed.

Lemma reports_compose (f g : ValidationResult → ValidationResult)
    (P Q : Prop) :
  vocab.reports f P → vocab.reports g Q →
  vocab.reports (λ res, g (f res)) (P ∧ Q).
Proof.
  intros Hf Hg res. destruct (Hf res) as (m1 & E1 & I1).
  destruct (Hg (f res)) as (m2 & E2 & I2). exists (m1 ++ m2).
  rewrite E2, E1, app_assoc. split; [reflexivity|].
  rewrite <- I1, <- I2. split.
  - intros H. apply app_eq_nil in H. exact H.
  - intros [-> ->]. reflexivity.
Qed.

Lemma reports_iff (f : ValidationResult → ValidationResult) (P Q : Prop) :
  (P ↔ Q) → vocab.reports f P → vocab.reports f Q.
Proof.
  intros HPQ Hf res. destruct (Hf res) as (m & E & I). exists m.
  split; [exact E|]. rewrite I. exact HPQ.
Qed.

Lemma reports_rangeIndexed {A}
    (body : Z → A → ValidationResult → ValidationResult) (Px : A → Prop)
    (l : list A) :
  (∀ i x, vocab.reports (body i x) (Px x)) →
  ∀ idx, vocab.reports (rangeIndexed body idx l) (Forall Px l).
Proof.
  intros Hbody. induction l as [|x r IH]; intros idx.
  - apply (reports_id (Forall Px [])). constructor.
  - apply (reports_iff _ (Px x ∧ Forall Px r)); [symmetry; apply Forall_cons|].
    apply (reports_compose (body idx x) (rangeIndexed body (idx + 1) r));
      [apply Hbody | apply IH].
Qed.

Lemma reports_fold {A} (f : A → ValidationResult → ValidationResult)
    (Px : A → Prop) (l : list A) :
  (∀ x, vocab.reports (f x) (Px x)) →
  vocab.reports (fold_left (λ res x, f x res) l) (Forall Px l).
Proof.
  intros Hf. induction l as [|x r IH].
  - apply (reports_id (Forall Px [])). constructor.
  - apply (reports_iff _ (Px x ∧ Forall Px r)); [symmetry; apply Forall_cons|].
    apply (reports_compose (f x) (fold_left (λ res x, f x res) r));
      [apply Hf | exact IH].
Qed.

Lemma reports_validateMetadata (hr : HTTPRoute) :
  vocab.reports (validateMetadata hr)
    (nameRegex (Name hr) = true ∧ (String.length (Name hr) ≤ 63)%nat).
Proof.
  intros res. unfold validateMetadata.
  destruct (String.eqb_spec (Name hr) "") as [Hname|Hname];
    [|destruct (nameRegex (Name hr)) eqn:Hregex;
      destruct (Nat.ltb_spec 63 (String.length (Name hr))) as [Hlen|Hlen]];
    destruct (String.eqb (Namespace hr) ""); cbn [negb]; report;
    try (split; [reflexivity | lia]);
    try (intros [H1 H2]; first [ discriminate H1 | lia ]).
  all: intros [H1 _]; rewrite Hname in H1; discriminate H1.
Qed.

Lemma reports_validateHostnames (hr : HTTPRoute) :
  vocab.reports (validateHostnames hr)
    (Forall (λ h, hostnameRegex h = true) (Hostnames hr)).
Proof.
  unfold validateHostnames.
  apply (reports_iff _ (True ∧ Forall (λ h, hostnameRegex h = true)
                                 (Hostnames hr))); [tauto|].
  apply (reports_compose
           (λ res, match Hostnames hr with
                   | [] => addWarning res _
                   | _ :: _ => res
                   end)
           (fold_left (λ res h, validateHostname h res) (Hostnames hr))).
  - destruct (Hostnames hr); [apply reports_addWarning | apply reports_id; exact I].
  - apply reports_fold. intros h res. unfold validateHostname.
    destruct (String.eqb_spec h "") as [->|Hh];
      [|destruct (hostnameRegex h) eqn:Hregex]; cbn [negb]; report;
      first [ discriminate | reflexivity ].
Qed.

Lemma reports_validateParentRefs (hr : HTTPRoute) :
  vocab.reports (validateParentRefs hr)
    (ParentRefs hr ≠ [] ∧ Forall (λ ref, pr_Name ref ≠ "") (ParentRefs hr)).
Proof.
  unfold validateParentRefs. destruct (ParentRefs hr) as [|ref refs] eqn:Hrefs.
  - apply (reports_iff _ False); [|apply reports_addError].
    split; [contradiction | intros [H _]; apply H; reflexivity].
  - apply (reports_iff _ (Forall (λ ref, pr_Name ref ≠ "") (ref :: refs))).
    { split; [intros H; split; [discriminate | exact H] | tauto]. }
    apply reports_rangeIndexed. intros i x res. unfold validateParentRef.
    destruct (String.eqb_spec (pr_Name x) "") as [Hn|Hn];
      (destruct (pr_Kind x) as [kind|];
        [destruct (String.eqb kind "Gateway")|]); cbn [negb]; report;
      first [ contradiction | exact Hn ].
Qed.

Lemma reports_validateMatch (m : HTTPRouteMatch) (i j : Z) :
  vocab.reports (validateMatch m i j) (vocab.acceptableMatch m).
Proof.
  intros res. unfold validateMatch, vocab.acceptableMatch.
  destruct (Path m) as [path|]; [|report; exact I].
  destruct (pm_Value path) as [value|];
    [destruct (HasPrefix value "/") eqn:Hp|]; cbn [negb]; report.
  - exists value. split; [reflexivity | exact Hp].
  - intros (v & Hv & Hpre). inversion Hv; subst. congruence.
  - intros (v & Hv & _). discriminate Hv.
Qed.

Lemma reports_validateBackendRef (ref : HTTPBackendRef) (i j : Z) :
  vocab.reports (validateBackendRef ref i j) (vocab.acceptableRef ref).
Proof.
  intros res. unfold validateBackendRef, vocab.acceptableRef.
  destruct (String.eqb_spec (br_Name ref) "") as [Hn|Hn];
    destruct (br_Port ref) as [port|];
    (destruct (br_Weight ref) as [w|];
      [destruct (Z.ltb_spec w 0) as [Hw|Hw]|]); report;
    try (split; [exact Hn|]; split; [discriminate|];
         intros w' Hw'; first [ discriminate Hw' | inversion Hw'; subst; lia ]);
    try (intros (H1 & H2 & H3);
         first [ contradiction | congruence
               | specialize (H3 w eq_refl); lia ]).
Qed.

Lemma reports_validateTimeouts (t : HTTPRouteTimeouts) (i : Z) :
  vocab.reports (validateTimeouts t i) (vocab.acceptableTimeouts t).
Proof.
  intros res. unfold validateTimeouts, vocab.acceptableTimeouts.
  destruct (Request t) as [r|]; destruct (BackendRequest t) as [b|];
    try destruct (isValidDuration r) eqn:Hr;
    try destruct (isValidDuration b) eqn:Hb;
    try (destruct (Z.ltb_spec 0 (parseDuration r));
         destruct (Z.ltb_spec 0 (parseDuration b));
         destruct (Z.ltb_spec (parseDuration r) (parseDuration b)));
    cbn [negb andb]; report;
    try (split; [|split];
         [ intros r' b' Hr' Hb'; first [ discriminate Hr' | discriminate Hb'
             | inversion Hr'; inversion Hb'; subst; lia ]
         | intros r' Hr'; first [ discriminate Hr' | inversion Hr'; subst; assumption ]
         | intros b' Hb'; first [ discriminate Hb' | inversion Hb'; subst; assumption ] ]);
    try (intros (Horder & Hreq & Hback);
         first [ specialize (Hreq _ eq_refl); congruence
               | specialize (Hback _ eq_refl); congruence
               | exfalso; apply (Horder _ _ eq_refl eq_refl); lia ]).
Qed.

Lemma reports_validateFilter (f : HTTPRouteFilter) (i j : Z) :
  vocab.reports (validateFilter f i j) (vocab.acceptableFilter f).
Proof.
  intros res. unfold validateFilter, vocab.acceptableFilter.
  destruct (f_Type f);
    [destruct (URLRewrite f) | destruct (RequestRedirect f) |]; report;
    first [ discriminate | exact I | congruence ].
Qed.

Lemma reports_validateRule (i : Z) (rule : HTTPRouteRule) :
  vocab.reports (validateRule i rule) (vocab.acceptableRule rule).
Proof.
  unfold validateRule, vocab.acceptableRule.
  apply (reports_iff _
           (((((True ∧ Forall vocab.acceptableMatch (Matches rule))
               ∧ BackendRefs rule ≠ [])
              ∧ Forall vocab.acceptableRef (BackendRefs rule))
             ∧ (∀ t, Timeouts rule = Some t → vocab.acceptableTimeouts t))
            ∧ Forall vocab.acceptableFilter (Filters rule))); [tauto|].
  apply (reports_compose
           (λ res, match Timeouts rule with
                   | Some timeouts => validateTimeouts timeouts i _
                   | None => _
                   end)
           (rangeIndexed (λ j filter, validateFilter filter i j) 0
              (Filters rule)));
    [|apply reports_rangeIndexed; intros; apply reports_validateFilter].
  apply (reports_compose
           (λ res, rangeIndexed (λ j ref, validateBackendRef ref i j) 0
                     (BackendRefs rule) _)
           (λ res, match Timeouts rule with
                   | Some timeouts => validateTimeouts timeouts i res
                   | None => res
                   end)).
  2:{ destruct (Timeouts rule) as [t|].
      - apply (reports_iff _ (vocab.acceptableTimeouts t));
          [|apply reports_validateTimeouts].
        split; [intros H t' Ht'; inversion Ht'; subst; exact H | auto].
      - apply reports_id. discriminate. }
  apply (reports_compose
           (λ res, match BackendRefs rule with
                   | [] => addError _ _
                   | _ :: _ => _
                   end)
           (rangeIndexed (λ j ref, validateBackendRef ref i j) 0
              (BackendRefs rule)));
    [|apply reports_rangeIndexed; intros; apply reports_validateBackendRef].
  apply (reports_compose
           (λ res, rangeIndexed (λ j m, validateMatch m i j) 0 (Matches rule) _)
           (λ res, match BackendRefs rule with
                   | [] => addError res _
                   | _ :: _ => res
                   end)).
  2:{ destruct (BackendRefs rule).
      - apply (reports_iff _ False); [|apply reports_addError].
        split; [contradiction | intros H; apply H; reflexivity].
      - apply reports_id. discriminate. }
  apply (reports_compose
           (λ res, match Matches rule with
                   | [] => addWarning res _
                   | _ :: _ => res
                   end)
           (rangeIndexed (λ j m, validateMatch m i j) 0 (Matches rule)));
    [|apply reports_rangeIndexed; intros; apply reports_validateMatch].
  destruct (Matches rule); [apply reports_addWarning | apply reports_id; exact I].
Qed.

(** The outcome of the validator on a route: a panic when a path
    match has a value and no type, and otherwise a result that has no
    error exactly when the route is acceptable. *)
Lemma validateHTTPRoute_cases (ro : MapRange (list Z)) (hr : HTTPRoute) :
  if vocab.hasUntypedPath hr then validateHTTPRoute ro hr = Panic
  else ∃ res, validateHTTPRoute ro hr = Ok res
              ∧ (Errors res = [] ↔ vocab.acceptable hr).
Proof.
  pose proof (reports_compose _ _ _ _
                (reports_compose _ _ _ _ (reports_validateMetadata hr)
                   (reports_validateHostnames hr))
                (reports_validateParentRefs hr)) as Hhead.
  destruct (Hhead {| ResourceName := Namespace hr +:+ "/" +:+ Name hr;
                     Errors := []; Warnings := [] |})
    as (m0 & E0 & I0). cbn [Errors app] in E0.
  unfold validateHTTPRoute, validateRules, checkPathConflicts,
    vocab.hasUntypedPath, vocab.acceptable.
  set (res0 := validateParentRefs hr _) in *.
  pose proof (collectPaths_outcome (Rules hr) 0 ∅ [] pathsOf_empty) as Hpaths.
  destruct (Rules hr) as [|rule rest] eqn:Hrules.
  - eexists. split; [reflexivity|]. cbn [Errors addError existsb]. split.
    + intros Herr. apply app_eq_nil in Herr as [_ Herr]. discriminate Herr.
    + intros (_ & _ & _ & Hne & _). contradiction.
  - destruct (reports_rangeIndexed validateRule vocab.acceptableRule
                (rule :: rest) reports_validateRule 0 res0) as (m1 & E1 & I1).
    destruct (existsb _ (rule :: rest)); [rewrite Hpaths; reflexivity|].
    destruct Hpaths as (paths & -> & _). cbn [mbind result_bind].
    eexists. split; [reflexivity|].
    rewrite (proj1 (proj2 (reportConflict_fold _ _))), E1, E0. split.
    + intros Herr. apply app_eq_nil in Herr as [H0 H1].
      apply I0 in H0 as [[Hm Hh] Hp]. apply I1 in H1.
      split; [exact Hm|]. split; [exact Hh|]. split; [exact Hp|].
      split; [discriminate | exact H1].
    + intros (Hm & Hh & Hp & _ & Hr).
      rewrite (proj2 I0) by tauto. rewrite (proj2 I1) by exact Hr.
      reflexivity.
Qed.

(** X14. The validator returns a result without errors exactly on the routes
    that are acceptable and have a type on every path match with a
    value: a name that is a label of at most 63 bytes, hostnames that
    are lower-case host names, parent references with a name and rules,
    one of each at least, and in every rule path values that start with
    a slash, a backend reference at least, each with a name, a port and
    no negative weight, well-formed timeouts in order, and a
    configuration for every rewrite or redirect filter. *)
Theorem validator_accepts_iff (ro : MapRange (list Z)) (hr : HTTPRoute) :
  (∃ res, validateHTTPRoute ro hr = Ok res ∧ Errors res = [])
  ↔ vocab.acceptable hr ∧ vocab.hasUntypedPath hr = false.
Proof.
  pose proof (validateHTTPRoute_cases ro hr) as H.
  destruct (vocab.hasUntypedPath hr).
  - rewrite H. split; [intros (res & Hres & _); discriminate Hres|].
    intros [_ Hf]. discriminate Hf.
  - destruct H as (res & Hres & Hiff). split.
    + intros (res' & Hres' & Herr). rewrite Hres in Hres'.
      inversion Hres'; subst res'. split; [apply Hiff, Herr | reflexivity].
    + intros [Hacc _]. exists res. split; [exact Hres | apply Hiff, Hacc].
Qed.

End Acceptance.

(** ** Converted routes under the validator *)

Section ConvertedRoutes.

Import networkingv1 converter validator routecheck.

Lemma length_append (a b : string) :
  String.length (a +:+ b) = (String.length a + String.length b)%nat.
Proof.
  induction a as [|c r IH]; [reflexivity|].
  rewrite append_cons. simpl. rewrite IH. reflexivity.
Qed.

Lemma isLowerAlnum_isLabelByte (c : ascii) :
  isLowerAlnum c = true → isLabelByte c = true.
Proof. unfold isLabelByte. intros ->. reflexivity. Qed.

Lemma labelTail_cons (c : ascii) (r : string) :
  labelTail (String c r) = true →
  isLabelByte c = true ∧ labelTail r = true.
Proof.
  destruct r as [|c' r'].
  - simpl. intros H. split; [apply isLowerAlnum_isLabelByte, H | reflexivity].
  - intros H. apply andb_true_iff in H. exact H.
Qed.

Lemma labelTail_app (r : string) (c : ascii) (s : string) :
  labelTail r = true → labelTail (String c s) = true →
  labelTail (r +:+ String c s) = true.
Proof.
  induction r as [|x r IH]; intros Hr Hs; [exact Hs|].
  apply labelTail_cons in Hr as [Hx Hr]. rewrite append_cons.
  specialize (IH Hr Hs).
  destruct r as [|y r]; cbn [labelTail].
  - rewrite append_nil_l in *. rewrite Hx. exact IH.
  - rewrite append_cons in *. rewrite Hx. exact IH.
Qed.

Lemma nameRegex_suffix (name : string) (c : ascii) (s : string) :
  nameRegex name = true → labelTail (String c s) = true →
  nameRegex (name +:+ String c s) = true.
Proof.
  destruct name as [|x r]; [discriminate|]. intros H Hs.
  apply andb_true_iff in H as [Hx Hr]. rewrite append_cons. simpl.
  rewrite Hx. apply labelTail_app; assumption.
Qed.

Lemma cleanTimeout_valid (ing : Ingress) (t : gatewayv1.HTTPRouteTimeouts) :
  vocab.cleanTimeout ing readTimeoutKey = true →
  vocab.cleanTimeout ing sendTimeoutKey = true →
  extractTimeouts ing = Some t →
  ∃ d, gatewayv1.Request t = Some d ∧ gatewayv1.BackendRequest t = Some d
       ∧ isValidDuration d = true.
Proof.
  unfold vocab.cleanTimeout, extractTimeouts. intros Hread Hsend.
  destruct (Annotations ing !! readTimeoutKey) as [rv|];
    [destruct (strconv.Atoi rv) as [rn [|]] eqn:Hrv|];
    (destruct (Annotations ing !! sendTimeoutKey) as [sv|];
      [destruct (strconv.Atoi sv) as [sn [|]] eqn:Hsv|]);
    simpl; intros H; inversion H; subst; simpl; eexists;
    (split; [reflexivity|]); (split; [reflexivity|]);
    apply durationOfSeconds_parses;
    first [ apply Atoi_ok_range in Hrv | apply Atoi_ok_range in Hsv ]; lia.
Qed.

Lemma extractFilters_acceptable (ing : Ingress)
    (filters : list gatewayv1.HTTPRouteFilter) :
  extractFilters ing = Ok filters → Forall vocab.acceptableFilter filters.
Proof.
  unfold extractFilters.
  destruct (Annotations ing !! rewriteTargetKey);
    destruct (Annotations ing !! permanentRedirectKey);
    intros H; inversion H; subst; simpl;
    repeat (constructor; [unfold vocab.acceptableFilter; simpl; discriminate|]);
    constructor.
Qed.

(** The rule built for a clean path is acceptable, and its path match
    has a type. *)
Lemma ruleOfPath_acceptable (ing : Ingress) (p : HTTPIngressPath)
    (rule : gatewayv1.HTTPRouteRule) :
  vocab.cleanTimeout ing readTimeoutKey = true →
  vocab.cleanTimeout ing sendTimeoutKey = true →
  vocab.cleanPath p = true →
  spec.ruleFor ing p rule →
  vocab.acceptableRule rule
  ∧ existsb vocab.untypedPath (gatewayv1.Matches rule) = false.
Proof.
  intros Hread Hsend Hp (svc & Hsvc & Hrule).
  unfold vocab.cleanPath in Hp. rewrite Hsvc in Hp.
  apply andb_true_iff in Hp as [Hname Hpath].
  unfold ruleOfPath in Hrule.
  destruct (extractFilters ing) as [filters| |] eqn:Hfilters;
    simpl in Hrule; try discriminate.
  inversion Hrule; subst rule. clear Hrule.
  split; [|reflexivity]. unfold vocab.acceptableRule. simpl.
  split; [|split; [discriminate|]; split; [|split]].
  - constructor; [|constructor]. eexists. split; [reflexivity|].
    destruct (String.eqb (Path p) ""); [reflexivity|]. exact Hpath.
  - constructor; [|constructor]. split; [|split]; simpl.
    + intros Heq. rewrite Heq in Hname. discriminate.
    + discriminate.
    + intros w Hw. inversion Hw. lia.
  - intros t Ht.
    destruct (cleanTimeout_valid ing t Hread Hsend Ht) as (d & Hr & Hb & Hd).
    unfold vocab.acceptableTimeouts. rewrite Hr, Hb.
    split; [|split]; intros; simplify_eq; [lia | assumption | assumption].
  - apply extractFilters_acceptable in Hfilters.
    destruct (0 <? length filters)%nat; [exact Hfilters | constructor].
Qed.

Lemma createDefaultBackendRule_acceptable (ing : Ingress)
    (backend : IngressBackend) (svc : IngressServiceBackend) :
  Service backend = Some svc → svc_Name svc ≠ "" →
  ∃ rule, createDefaultBackendRule ing backend = Ok rule
          ∧ vocab.acceptableRule rule
          ∧ existsb vocab.untypedPath (gatewayv1.Matches rule) = false.
Proof.
  intros Hsvc Hname. unfold createDefaultBackendRule. rewrite Hsvc.
  eexists. split; [reflexivity|]. split; [|reflexivity].
  unfold vocab.acceptableRule. simpl.
  split; [|split; [discriminate|]; split; [|split]].
  - constructor; [|constructor]. eexists. split; reflexivity.
  - constructor; [|constructor]. split; [exact Hname|].
    split; [discriminate|]. intros w Hw. inversion Hw. lia.
  - discriminate.
  - constructor.
Qed.

Lemma cleanPath_complete (paths : list HTTPIngressPath) :
  forallb vocab.cleanPath paths = true →
  forallb spec.pathComplete paths = true.
Proof.
  induction paths as [|p r IH]; [reflexivity|]. simpl.
  intros H. apply andb_true_iff in H as [Hp Hr]. rewrite (IH Hr), andb_true_r.
  unfold vocab.cleanPath in Hp. unfold spec.pathComplete.
  destruct (Service (Backend p)); [reflexivity | discriminate].
Qed.

(** X15. A clean source converts, in single mode, to a route on which the
    validator reports no error.  What the converter copies without a
    check is what makes a source unclean: a name that is no label or
    leaves no room for the suffix, a host that is not a lower-case host
    name, a path that does not start with a slash, a service without a
    name, a negative timeout, or no path and no default backend at
    all. *)
Theorem clean_source_validates (ro : MapRange (list Z)) (c : Converter)
    (ing : Ingress) :
  vocab.cleanSource ing = true →
  ∃ hr res,
    convertSingle c ing = Ok [hr]
    ∧ validateHTTPRoute ro hr = Ok res
    ∧ Errors res = [].
Proof.
  unfold vocab.cleanSource. intros H.
  apply andb_true_iff in H as [H Hsend]. apply andb_true_iff in H as [H Hread].
  apply andb_true_iff in H as [H Hsome].
  apply andb_true_iff in H as [H Hdefault].
  apply andb_true_iff in H as [H Hpaths]. apply andb_true_iff in H as [H Hhosts].
  apply andb_true_iff in H as [Hname Hlen].
  apply Nat.leb_le in Hlen.
  destruct (convertHTTPRules_retained ing (vocab.firstRulePaths ing)
              (cleanPath_complete _ Hpaths)) as (rr & Hrr & Hfor).
  set (good := λ rule : gatewayv1.HTTPRouteRule,
         vocab.acceptableRule rule
         ∧ existsb vocab.untypedPath (gatewayv1.Matches rule) = false).
  assert (Hwf : Forall good rr).
  { assert (Hsub : ∀ p, p ∈ spec.retained [] (vocab.firstRulePaths ing) →
                        vocab.cleanPath p = true).
    { intros p Hp. apply retained_subset in Hp.
      rewrite forallb_forall in Hpaths. apply Hpaths.
      apply list_elem_of_In, Hp. }
    clear -Hfor Hsub Hread Hsend.
    induction Hfor as [|p rule ps rules Hrule _ IH]; constructor.
    - apply (ruleOfPath_acceptable ing p); try assumption.
      apply Hsub. left.
    - apply IH. intros q Hq. apply Hsub. right. exact Hq. }
  assert (Hlen' : length rr
                  = length (spec.retained [] (vocab.firstRulePaths ing)))
    by (symmetry; eapply Forall2_length; exact Hfor).
  destruct (parentRefsOf_name c ing) as (gw & Hgw & Hgwne & _).
  assert (Hrules : ∃ rules,
    convertSingle c ing
    = Ok [ {| gatewayv1.APIVersion := "gateway.networking.k8s.io/v1";
              gatewayv1.Kind := "HTTPRoute";
              gatewayv1.Name := Name ing +:+ "-httproute";
              gatewayv1.Namespace := Namespace ing;
              gatewayv1.Labels := Labels ing;
              gatewayv1.Hostnames := spec.sourceHosts ing;
              gatewayv1.ParentRefs := parentRefsOf c ing;
              gatewayv1.Rules := rules |} ]
    ∧ rules ≠ [] ∧ Forall good rules).
  { unfold convertSingle. rewrite collected_hostnames, firstRuleRules_paths, Hrr.
    simpl. unfold vocab.cleanDefaultBackend in Hdefault.
    destruct (DefaultBackend ing) as [backend|].
    - destruct (Service backend) as [svc|] eqn:Hsvc; [|discriminate].
      destruct (createDefaultBackendRule_acceptable ing backend svc Hsvc)
        as (rule & -> & Hrule).
      { intros Heq. rewrite Heq in Hdefault. discriminate. }
      simpl. eexists. split; [reflexivity|]. split.
      + intros Hnil. apply app_eq_nil in Hnil as [_ Hnil]. discriminate.
      + apply Forall_app. split; [exact Hwf|]. constructor; [exact Hrule|].
        constructor.
    - simpl. eexists. split; [reflexivity|]. split; [|exact Hwf].
      intros ->. destruct (vocab.firstRulePaths ing) as [|p ps];
        [discriminate|].
      cbn [spec.retained] in Hlen'.
      destruct (decide (spec.pathKey p ∈ [])) as [Hin|_];
        [inversion Hin | discriminate Hlen']. }
  destruct Hrules as (rules & Hconv & Hne & Hall).
  eexists.
  pose proof (validateHTTPRoute_cases ro
                {| gatewayv1.APIVersion := "gateway.networking.k8s.io/v1";
                   gatewayv1.Kind := "HTTPRoute";
                   gatewayv1.Name := Name ing +:+ "-httproute";
                   gatewayv1.Namespace := Namespace ing;
                   gatewayv1.Labels := Labels ing;
                   gatewayv1.Hostnames := spec.sourceHosts ing;
                   gatewayv1.ParentRefs := parentRefsOf c ing;
                   gatewayv1.Rules := rules |}) as Hcases.
  assert (Htyped : vocab.hasUntypedPath
                     {| gatewayv1.APIVersion := "gateway.networking.k8s.io/v1";
                        gatewayv1.Kind := "HTTPRoute";
                        gatewayv1.Name := Name ing +:+ "-httproute";
                        gatewayv1.Namespace := Namespace ing;
                        gatewayv1.Labels := Labels ing;
                        gatewayv1.Hostnames := spec.sourceHosts ing;
                        gatewayv1.ParentRefs := parentRefsOf c ing;
                        gatewayv1.Rules := rules |} = false).
  { unfold vocab.hasUntypedPath. simpl. clear -Hall.
    induction Hall as [|x r [_ Hx] _ IH]; [reflexivity|].
    simpl. rewrite Hx, IH. reflexivity. }
  rewrite Htyped in Hcases. destruct Hcases as (res & Hres & Hiff).
  exists res. split; [exact Hconv|]. split; [exact Hres|].
  apply Hiff. unfold vocab.acceptable. simpl.
  split; [split|split; [|split; [|split]]].
  - apply nameRegex_suffix; [exact Hname | reflexivity].
  - rewrite length_append. simpl. lia.
  - apply Forall_forall. intros h Hh. rewrite forallb_forall in Hhosts.
    apply Hhosts, list_elem_of_In, Hh.
  - rewrite Hgw. split; [discriminate|]. constructor; [exact Hgwne|].
    constructor.
  - exact Hne.
  - eapply Forall_impl; [exact Hall|]. intros x [Hx _]. exact Hx.
Qed.

Lemma clean_source_validates_witness :
  ∃ hr res,
    convertSingle (samples.converterOf "single") moresamples.cleanIngress
    = Ok [hr]
    ∧ validateHTTPRoute moresamples.listed hr = Ok res
    ∧ Errors res = [].
Proof.
  apply (clean_source_validates moresamples.listed
           (samples.converterOf "single") moresamples.cleanIngress).
  vm_compute. reflexivity.
Defined.

End ConvertedRoutes.

(** ** Sanitized names under the name check of the validator *)

Section SanitizedLabels.

Import converter routecheck.

Lemma length_ToLower (s : string) :
  String.length (gostrings.ToLower s) = String.length s.
Proof. induction s as [|c r IH]; [reflexivity|]. simpl. rewrite IH. reflexivity. Qed.

Lemma length_replaceInvalid (s : string) :
  String.length (replaceInvalid s) = String.length s.
Proof. induction s as [|c r IH]; [reflexivity|]. simpl. rewrite IH. reflexivity. Qed.

Lemma length_Trim (s : string) (cut : ascii) :
  (String.length (gostrings.Trim s cut) ≤ String.length s)%nat.
Proof.
  unfold gostrings.Trim.
  destruct (TrimLeft_suffix s cut) as [pre Hpre].
  destruct (TrimRight_prefix (gostrings.TrimLeft s cut) cut) as [rest Hrest].
  apply (f_equal String.length) in Hpre, Hrest.
  rewrite length_append in Hpre, Hrest. lia.
Qed.

Lemma rev_cons (c : ascii) (s : string) :
  String.rev (String c s) = String.rev s +:+ String c "".
Proof. unfold String.rev at 1. simpl. apply rev_app_append. Qed.

Lemma startsWith_app (c : ascii) (a b : string) :
  a ≠ "" → vocab.startsWith c (a +:+ b) = vocab.startsWith c a.
Proof.
  destruct a as [|x a]; [contradiction|]. intros _. rewrite append_cons.
  reflexivity.
Qed.

Lemma rev_nonempty (c : ascii) (s : string) : String.rev (String c s) ≠ "".
Proof.
  rewrite rev_cons. destruct (String.rev s) as [|x r].
  - rewrite append_nil_l. discriminate.
  - rewrite append_cons. discriminate.
Qed.

Lemma nameByte_not_hyphen (c : ascii) :
  vocab.nameByte c = true → Ascii.eqb c "-" = false → isLowerAlnum c = true.
Proof.
  unfold vocab.nameByte, isLowerAlnum. intros H Hc.
  apply orb_true_iff in H as [H|H]; [exact H|].
  apply N.eqb_eq in H. apply Ascii.eqb_neq in Hc. exfalso. apply Hc.
  rewrite <- (ascii_N_embedding c), H. reflexivity.
Qed.

Lemma labelTail_trimmed (r : string) :
  vocab.allBytes vocab.nameByte r = true →
  vocab.startsWith "-" (String.rev r) = false →
  labelTail r = true.
Proof.
  induction r as [|c r IH]; [reflexivity|]. intros Hall Hend.
  simpl in Hall. apply andb_true_iff in Hall as [Hc Hr].
  rewrite rev_cons in Hend. destruct r as [|c' r'].
  - simpl. apply nameByte_not_hyphen; [exact Hc | exact Hend].
  - rewrite startsWith_app in Hend by apply rev_nonempty.
    change (labelTail (String c (String c' r')))
      with (isLabelByte c && labelTail (String c' r')).
    rewrite (IH Hr Hend), andb_true_r. exact Hc.
Qed.

(** X16. A sanitized name passes the name check of the validator, when the
    source text is ASCII of at most 63 bytes and the result is not
    empty.  Longer text is cut after its 63rd byte, where a hyphen may
    be left at the end. *)
Theorem sanitized_name_is_label (name : string) :
  vocab.isASCII name = true →
  (String.length name ≤ 63)%nat →
  sanitizeName name ≠ "" →
  nameRegex (sanitizeName name) = true.
Proof.
  intros _ Hlen. unfold sanitizeName.
  set (replaced := replaceInvalid (gostrings.ToLower name)).
  pose proof (length_Trim replaced "-") as Htrim.
  unfold replaced in Htrim at 2.
  rewrite length_replaceInvalid, length_ToLower in Htrim.
  destruct (Nat.ltb_spec 63 (String.length (gostrings.Trim replaced "-")));
    [lia|].
  assert (Hbytes : vocab.allBytes vocab.nameByte (gostrings.Trim replaced "-")
                   = true) by apply allBytes_Trim, allBytes_replaceInvalid.
  assert (Hhead : vocab.startsWith "-" (gostrings.Trim replaced "-") = false).
  { unfold gostrings.Trim.
    destruct (TrimRight_prefix (gostrings.TrimLeft replaced "-") "-")
      as [rest Hrest].
    pose proof (TrimLeft_head replaced "-") as Hh.
    rewrite Hrest in Hh. apply startsWith_prefix in Hh. exact Hh. }
  assert (Hlast : vocab.startsWith "-"
                    (String.rev (gostrings.Trim replaced "-")) = false).
  { unfold gostrings.Trim, gostrings.TrimRight. rewrite rev_rev.
    apply TrimLeft_head. }
  destruct (gostrings.Trim replaced "-") as [|c r]; [contradiction|].
  intros _. simpl in Hbytes. apply andb_true_iff in Hbytes as [Hc Hr].
  simpl. rewrite (nameByte_not_hyphen c Hc Hhead). simpl.
  apply labelTail_trimmed; [exact Hr|].
  rewrite rev_cons in Hlast. destruct r as [|c' r']; [reflexivity|].
  rewrite startsWith_app in Hlast by apply rev_nonempty. exact Hlast.
Qed.

Lemma sanitized_name_is_label_witness :
  nameRegex (sanitizeName "EXAMPLE.COM") = true.
Proof.
  apply (sanitized_name_is_label "EXAMPLE.COM").
  - vm_compute. reflexivity.
  - vm_compute. lia.
  - vm_compute. discriminate.
Defined.

End SanitizedLabels.

(** ** The analysis of an Ingress *)

Section Analysis.

Import networkingv1 analyzer analysis.

Lemma contains_elem_of (slice : list string) (item : string) :
  contains slice item = true ↔ item ∈ slice.
Proof. rewrite contains_In, <- list_elem_of_In. reflexivity. Qed.

Lemma contains_perm (l1 l2 : list string) (x : string) :
  l1 ≡ₚ l2 → contains l1 x = contains l2 x.
Proof.
  intros Hp. destruct (contains l1 x) eqn:H1; symmetry.
  - apply contains_elem_of. rewrite <- Hp. apply contains_elem_of, H1.
  - destruct (contains l2 x) eqn:H2; [|reflexivity].
    apply contains_elem_of in H2. rewrite <- Hp in H2.
    apply contains_elem_of in H2. congruence.
Qed.

Lemma checkAnnotation_step (annotations : gmap string string)
    (features : list string) (ann feature : string) :
  NoDup features →
  NoDup (checkAnnotation annotations features (ann, feature))
  ∧ ∀ f, f ∈ checkAnnotation annotations features (ann, feature)
         ↔ f ∈ features ∨ (f = feature ∧ annotations !! ann ≠ None).
Proof.
  intros Hnd. unfold checkAnnotation.
  destruct (annotations !! ann) as [v|].
  - destruct (contains features feature) eqn:Hc; simpl.
    + apply contains_elem_of in Hc. split; [exact Hnd|]. intros f.
      split; [auto|]. intros [H|[-> _]]; assumption.
    + split.
      * apply NoDup_app. split; [exact Hnd|].
        split; [|apply NoDup_singleton].
        intros x Hx Hx'. apply list_elem_of_singleton in Hx'. subst x.
        apply contains_elem_of in Hx. congruence.
      * intros f. rewrite elem_of_app, list_elem_of_singleton. split.
        -- intros [H| ->]; [left; exact H|].
           right. split; [reflexivity | discriminate].
        -- intros [H|[-> _]]; auto.
  - split; [exact Hnd|]. intros f. split; [auto|].
    intros [H|[_ Hn]]; [exact H | contradiction].
Qed.

Lemma checkAnnotation_fold (annotations : gmap string string)
    (entries : list (string * string)) :
  ∀ features, NoDup features →
  NoDup (fold_left (checkAnnotation annotations) entries features)
  ∧ ∀ f, f ∈ fold_left (checkAnnotation annotations) entries features
         ↔ f ∈ features
           ∨ ∃ ann, (ann, f) ∈ entries ∧ annotations !! ann ≠ None.
Proof.
  induction entries as [|[ann feature] rest IH]; intros features Hnd.
  - simpl. split; [exact Hnd|]. intros f. split; [auto|].
    intros [H|(a & Hin & _)]; [exact H | inversion Hin].
  - cbn [fold_left].
    destruct (checkAnnotation_step annotations features ann feature Hnd)
      as [Hnd' Hmem].
    destruct (IH _ Hnd') as [Hnd'' Hmem'].
    split; [exact Hnd''|]. intros f. rewrite Hmem', Hmem. split.
    + intros [[H|[-> Hp]]|(a & Hin & Hp)].
      * left. exact H.
      * right. exists ann. split; [left | exact Hp].
      * right. exists a. split; [right; exact Hin | exact Hp].
    + intros [H|(a & Hin & Hp)]; [left; left; exact H|].
      apply elem_of_cons in Hin as [Heq|Hin].
      * inversion Heq; subst. left. right. auto.
      * right. exists a. auto.
Qed.

Lemma annotationChecks_other (f : string) :
  f = "TLS_TERMINATION" ∨ f = "DEFAULT_BACKEND" →
  ∀ ann, (ann, f) ∉ annotationChecks.
Proof.
  assert (H : Forall (λ e : string * string,
                        e.2 ≠ "TLS_TERMINATION" ∧ e.2 ≠ "DEFAULT_BACKEND")
                annotationChecks)
    by (apply (bool_decide_unpack _); vm_compute; exact I).
  intros Hf ann Hin. rewrite Forall_forall in H.
  destruct (H _ Hin) as [H1 H2]. simpl in *. destruct Hf; contradiction.
Qed.

Lemma detectFeatures_spec (ro : MapRange string) (src : Source) :
  NoDup (detectFeatures ro src)
  ∧ ∀ f, f ∈ detectFeatures ro src ↔ vocab.hasFeature src f.
Proof.
  unfold detectFeatures, vocab.hasFeature.
  destruct (checkAnnotation_fold (Annotations src) (ro annotationChecks) []
              NoDup_nil_2) as [Hnd Hmem].
  set (fs := fold_left _ (ro annotationChecks) []) in *.
  assert (Hfs : ∀ f, f ∈ fs ↔ ∃ ann, (ann, f) ∈ annotationChecks
                                    ∧ Annotations src !! ann ≠ None).
  { intros f. rewrite Hmem. split.
    - intros [H|(a & Hin & Hp)]; [inversion H|].
      exists a. split; [|exact Hp].
      rewrite <- (map_range_perm ro annotationChecks). exact Hin.
    - intros (a & Hin & Hp). right. exists a. split; [|exact Hp].
      rewrite (map_range_perm ro annotationChecks). exact Hin. }
  assert (Hother : ∀ f, f = "TLS_TERMINATION" ∨ f = "DEFAULT_BACKEND" →
                        f ∉ fs).
  { intros f Hf Hin. apply Hfs in Hin as (a & Hin & _).
    exact (annotationChecks_other f Hf a Hin). }
  clear Hmem. generalize dependent fs. intros fs Hnd Hfs Hother.
  destruct (TLS src) as [|tls0 tlsr]; destruct (DefaultBackend src) as [backend|];
    cbn [length Nat.ltb Nat.leb].
  - split.
    + apply NoDup_app. split; [exact Hnd|].
      split; [|apply NoDup_singleton].
      intros x Hx Hx'. apply list_elem_of_singleton in Hx'. subst x.
      apply (Hother "DEFAULT_BACKEND"); auto.
    + intros f. rewrite elem_of_app, list_elem_of_singleton, Hfs. split.
      * intros [H| ->]; [left; exact H | right; right].
        split; [reflexivity | discriminate].
      * intros [H|[[_ Hn]|[-> _]]]; auto. contradiction.
  - split; [exact Hnd|]. intros f. rewrite Hfs. split; [auto|].
    intros [H|[[_ Hn]|[_ Hn]]]; [exact H | contradiction | contradiction].
  - split.
    + apply NoDup_app. split; [|split; [|apply NoDup_singleton]].
      * apply NoDup_app. split; [exact Hnd|].
        split; [|apply NoDup_singleton].
        intros x Hx Hx'. apply list_elem_of_singleton in Hx'. subst x.
        apply (Hother "TLS_TERMINATION"); auto.
      * intros x Hx Hx'. apply list_elem_of_singleton in Hx'. subst x.
        apply elem_of_app in Hx as [Hx|Hx].
        -- apply (Hother "DEFAULT_BACKEND"); auto.
        -- apply list_elem_of_singleton in Hx. discriminate Hx.
    + intros f. rewrite !elem_of_app, !list_elem_of_singleton, Hfs. split.
      * intros [[H| ->]| ->]; [left; exact H | right; left | right; right];
          (split; [reflexivity | discriminate]).
      * intros [H|[[-> _]|[-> _]]]; auto.
  - split.
    + apply NoDup_app. split; [exact Hnd|].
      split; [|apply NoDup_singleton].
      intros x Hx Hx'. apply list_elem_of_singleton in Hx'. subst x.
      apply (Hother "TLS_TERMINATION"); auto.
    + intros f. rewrite elem_of_app, list_elem_of_singleton, Hfs. split.
      * intros [H| ->]; [left; exact H | right; left].
        split; [reflexivity | discriminate].
      * intros [H|[[-> _]|[_ Hn]]]; auto. contradiction.
Qed.

(** X17. Whatever the order in which the annotation checks are visited,
    [detectFeatures] returns each feature the source shows, once, and
    nothing else; so the results of two orders have the same features. *)
Theorem detectFeatures_members (ro ro' : MapRange string) (src : Source) :
  NoDup (detectFeatures ro src)
  ∧ (∀ f, f ∈ detectFeatures ro src ↔ vocab.hasFeature src f)
  ∧ detectFeatures ro src ≡ₚ detectFeatures ro' src.
Proof.
  destruct (detectFeatures_spec ro src) as [Hnd Hmem].
  destruct (detectFeatures_spec ro' src) as [Hnd' Hmem'].
  split; [exact Hnd|]. split; [exact Hmem|].
  apply NoDup_Permutation; [exact Hnd | exact Hnd'|].
  intros f. rewrite Hmem, Hmem'. reflexivity.
Qed.

End Analysis.

(** ** What the analysis reports *)

Section AnalysisResults.

Import networkingv1 analyzer analysis.

Lemma wrapInt_add_l (x y : Z) : wrapInt (wrapInt x + y) = wrapInt (x + y).
Proof.
  unfold wrapInt. f_equal.
  replace ((x + 2 ^ 63) mod 2 ^ 64 - 2 ^ 63 + y + 2 ^ 63)
    with ((x + 2 ^ 63) mod 2 ^ 64 + y) by lia.
  rewrite Zplus_mod_idemp_l. f_equal. lia.
Qed.

Lemma addWeight_comm (s : Z) (a b : string) :
  addWeight (addWeight s a) b = addWeight (addWeight s b) a.
Proof.
  unfold addWeight.
  destruct (complexityMap !! a) as [wa|], (complexityMap !! b) as [wb|];
    try reflexivity.
  rewrite !wrapInt_add_l. f_equal. lia.
Qed.

Lemma fold_addWeight_perm (l1 l2 : list string) :
  l1 ≡ₚ l2 → ∀ s, fold_left addWeight l1 s = fold_left addWeight l2 s.
Proof.
  induction 1 as [|x l l' _ IH|x y l|l l' l'' _ IH1 _ IH2]; intros s; simpl.
  - reflexivity.
  - apply IH.
  - rewrite addWeight_comm. reflexivity.
  - rewrite IH1. apply IH2.
Qed.

(** What the first loop of [analyzeIngress] leaves: the hosts of the
    rules are added to the map, and the paths of the rules to the
    count. *)
Lemma countHostsAndPaths_spec (rules : list IngressRule) :
  ∀ hostMap pathCount,
  pathCount = wrapInt pathCount →
  (∀ h, (countHostsAndPaths rules hostMap pathCount).1 !! h
        = if decide (h ∈ filter (λ h, h ≠ "") (Host <$> rules))
          then Some true else hostMap !! h)
  ∧ (countHostsAndPaths rules hostMap pathCount).2
    = wrapInt (pathCount
               + Z.of_nat (length (rules ≫= (λ rule, default [] (HTTP rule))))).
Proof.
  induction rules as [|rule rest IH]; intros hostMap pathCount Hrange.
  - simpl. split; [intros h; reflexivity|]. rewrite Z.add_0_r. exact Hrange.
  - cbn [countHostsAndPaths]. rewrite fmap_cons, bind_cons.
    set (hostMap1 := if negb (String.eqb (Host rule) "")
                     then <[Host rule := true]> hostMap else hostMap).
    set (pathCount1 := match HTTP rule with
                       | Some paths =>
                           wrapInt (pathCount + Z.of_nat (length paths))
                       | None => pathCount
                       end).
    assert (Hrange1 : pathCount1 = wrapInt pathCount1).
    { unfold pathCount1. destruct (HTTP rule); [|exact Hrange].
      rewrite <- (Z.add_0_r (wrapInt _)) at 2. rewrite wrapInt_add_l.
      rewrite Z.add_0_r. reflexivity. }
    destruct (IH hostMap1 pathCount1 Hrange1) as [Hhosts Hcount].
    split.
    + intros h. rewrite Hhosts. unfold hostMap1.
      destruct (String.eqb_spec (Host rule) "") as [Heq|Hne]; simpl.
      * rewrite filter_cons_False by (intros Hn; apply Hn, Heq). reflexivity.
      * rewrite filter_cons_True by exact Hne.
        destruct (decide (h ∈ filter (λ h, h ≠ "") (Host <$> rest)))
          as [Hin|Hnin].
        -- rewrite decide_True by (right; exact Hin). reflexivity.
        -- destruct (decide (h = Host rule)) as [->|Hh].
           ++ rewrite decide_True by left. apply lookup_insert_eq.
           ++ rewrite decide_False
                by (intros Hc; apply elem_of_cons in Hc as [?|?]; contradiction).
              apply lookup_insert_ne. congruence.
    + rewrite Hcount. unfold pathCount1. rewrite length_app, Nat2Z.inj_add.
      destruct (HTTP rule) as [paths|]; simpl.
      * rewrite wrapInt_add_l. f_equal. lia.
      * f_equal.
Qed.

Lemma hostMap_entries (hostMap : gmap string bool) (hosts : list string) :
  (∀ h, hostMap !! h = if decide (h ∈ hosts) then Some true else None) →
  map_to_list hostMap ≡ₚ (λ h, (h, true)) <$> spec.distinct hosts.
Proof.
  intros Hinv.
  assert (Hinj : Inj (=) (=) (λ h : string, (h, true)))
    by (intros h1 h2 Heq; inversion Heq; reflexivity).
  apply NoDup_Permutation.
  - apply NoDup_map_to_list.
  - apply (@NoDup_fmap_2 _ _ _ Hinj). apply NoDup_firstSeen.
  - intros [h v]. rewrite elem_of_map_to_list, Hinv, list_elem_of_fmap.
    unfold spec.distinct. split.
    + destruct (decide (h ∈ hosts)) as [Hin|Hnin]; [|discriminate].
      intros Hv. inversion Hv; subst v. exists h. split; [reflexivity|].
      rewrite elem_of_firstSeen. split; [exact Hin | intros Hc; inversion Hc].
    + intros (h' & Heq & Hin). inversion Heq; subst h' v.
      rewrite elem_of_firstSeen in Hin. destruct Hin as [Hin _].
      rewrite decide_True by exact Hin. reflexivity.
Qed.

(** X18. The analysis of a source does not depend on the order in which the
    two maps are visited, but for the order of the hostnames and of the
    detected features: the counts, the score, the readiness, the issues
    and the recommendations are the same. *)
Theorem analyzeIngress_order_free (roHosts roHosts' : MapRange bool)
    (roChecks roChecks' : MapRange string) (src : Source) :
  vocab.sameAnalysis (analyzeIngress roHosts roChecks src)
    (analyzeIngress roHosts' roChecks' src).
Proof.
  unfold analyzeIngress.
  destruct (countHostsAndPaths (Rules src) ∅ 0) as [hostMap pathCount].
  destruct (detectFeatures_spec roChecks src) as [Hnd Hmem].
  destruct (detectFeatures_spec roChecks' src) as [Hnd' Hmem'].
  assert (Hperm : detectFeatures roChecks src ≡ₚ detectFeatures roChecks' src).
  { apply NoDup_Permutation; [exact Hnd | exact Hnd'|].
    intros f. rewrite Hmem, Hmem'. reflexivity. }
  set (f1 := detectFeatures roChecks src) in *.
  set (f2 := detectFeatures roChecks' src) in *.
  assert (Hscore : calculateComplexity src f1 = calculateComplexity src f2)
    by (unfold calculateComplexity; apply fold_addWeight_perm, Hperm).
  unfold vocab.sameAnalysis. cbn [ar_Name ar_Namespace IngressClass HostCount
    ar_Hostnames PathCount TLSEnabled ar_Annotations DetectedFeatures
    ComplexityScore MigrationReadiness Issues Recommendations].
  repeat (split; [reflexivity|]).
  split; [rewrite !map_range_perm; reflexivity|].
  repeat (split; [reflexivity|]).
  split; [exact Hperm|]. split; [exact Hscore|]. rewrite Hscore.
  split; [|split].
  - unfold assessReadiness. simpl.
    rewrite !(contains_perm f1 f2) by exact Hperm. reflexivity.
  - unfold identifyIssues.
    rewrite !(contains_perm f1 f2) by exact Hperm. reflexivity.
  - unfold generateRecommendations. cbn [HostCount DetectedFeatures TLSEnabled].
    rewrite !(contains_perm f1 f2) by exact Hperm. reflexivity.
Qed.

(** X19. The analysis counts each host of the source once, however often
    the host occurs in the rules, and lists these hosts in some order;
    it counts every path of every rule, as a Go int. *)
Theorem analysis_counts (roHosts : MapRange bool) (roChecks : MapRange string)
    (src : Source) :
  HostCount (analyzeIngress roHosts roChecks src)
  = Z.of_nat (length (spec.distinct (spec.sourceHosts src)))
  ∧ ar_Hostnames (analyzeIngress roHosts roChecks src)
    ≡ₚ spec.distinct (spec.sourceHosts src)
  ∧ PathCount (analyzeIngress roHosts roChecks src)
    = wrapInt (Z.of_nat (length (vocab.allPaths src)))
  ∧ (Z.of_nat (length (vocab.allPaths src)) ≤ maxInt →
     PathCount (analyzeIngress roHosts roChecks src)
     = Z.of_nat (length (vocab.allPaths src))).
Proof.
  unfold analyzeIngress.
  destruct (countHostsAndPaths_spec (Rules src) ∅ 0 eq_refl) as [Hhosts Hcount].
  destruct (countHostsAndPaths (Rules src) ∅ 0) as [hostMap pathCount].
  cbn [fst snd] in Hhosts, Hcount.
  cbn [HostCount ar_Hostnames PathCount].
  assert (Hentries : map_to_list hostMap
                     ≡ₚ (λ h, (h, true)) <$> spec.distinct (spec.sourceHosts src)).
  { apply hostMap_entries. intros h. rewrite Hhosts, lookup_empty. reflexivity. }
  split; [|split; [|split]].
  - rewrite <- length_map_to_list, Hentries, length_fmap. reflexivity.
  - rewrite map_range_perm, Hentries, <- list_fmap_compose.
    rewrite list_fmap_id. reflexivity.
  - exact Hcount.
  - intros Hfit. rewrite Hcount. apply wrapInt_small.
    split; [lia | exact Hfit].
Qed.

Lemma analysis_counts_witness :
  PathCount (analyzeIngress moresamples.listed moresamples.listed
               moresamples.withTLS) = 2.
Proof.
  apply (proj2 (proj2 (proj2 (analysis_counts moresamples.listed
                                moresamples.listed moresamples.withTLS)))).
  vm_compute. discriminate.
Defined.

Lemma annotationChecks_snippet (ann : string) :
  ((ann, "CUSTOM_SNIPPET") ∈ annotationChecks
   ↔ ann = "nginx.ingress.kubernetes.io/configuration-snippet")
  ∧ ((ann, "SERVER_SNIPPET") ∈ annotationChecks
     ↔ ann = "nginx.ingress.kubernetes.io/server-snippet").
Proof.
  assert (H : Forall (λ e : string * string,
                (e.2 = "CUSTOM_SNIPPET" →
                 e.1 = "nginx.ingress.kubernetes.io/configuration-snippet")
                ∧ (e.2 = "SERVER_SNIPPET" →
                   e.1 = "nginx.ingress.kubernetes.io/server-snippet"))
                annotationChecks)
    by (apply (bool_decide_unpack _); vm_compute; exact I).
  rewrite Forall_forall in H. split; split.
  - intros Hin. apply (proj1 (H _ Hin)). reflexivity.
  - intros ->. apply (bool_decide_unpack _). vm_compute. exact I.
  - intros Hin. apply (proj2 (H _ Hin)). reflexivity.
  - intros ->. apply (bool_decide_unpack _). vm_compute. exact I.
Qed.

Lemma snippet_features (ro : MapRange string) (src : Source) :
  contains (detectFeatures ro src) "CUSTOM_SNIPPET"
  || contains (detectFeatures ro src) "SERVER_SNIPPET" = true
  ↔ vocab.hasSnippet src.
Proof.
  destruct (detectFeatures_spec ro src) as [_ Hmem].
  rewrite orb_true_iff, !contains_elem_of, !Hmem.
  unfold vocab.hasFeature, vocab.hasSnippet. split.
  - intros [[(a & Hin & Hp)|[[Hf _]|[Hf _]]]|[(a & Hin & Hp)|[[Hf _]|[Hf _]]]];
      try discriminate Hf.
    + apply annotationChecks_snippet in Hin. subst a. left. exact Hp.
    + apply annotationChecks_snippet in Hin. subst a. right. exact Hp.
  - intros [Hp|Hp]; [left | right]; left; eexists; (split; [|exact Hp]);
      apply annotationChecks_snippet; reflexivity.
Qed.

(** X20. The analysis asks for a manual review exactly when the source has
    one of the two snippet annotations, whatever its score; and it then
    reports the snippets as its first issue. *)
Theorem manual_review_iff_snippet (roHosts : MapRange bool)
    (roChecks : MapRange string) (src : Source) :
  (MigrationReadiness (analyzeIngress roHosts roChecks src)
   = "MANUAL_REVIEW_REQUIRED" ↔ vocab.hasSnippet src)
  ∧ (vocab.hasSnippet src →
     head (Issues (analyzeIngress roHosts roChecks src))
     = Some vocab.snippetIssue).
Proof.
  unfold analyzeIngress.
  destruct (countHostsAndPaths (Rules src) ∅ 0) as [hostMap pathCount].
  cbn [MigrationReadiness Issues].
  pose proof (snippet_features roChecks src) as Hsnip.
  set (features := detectFeatures roChecks src) in *.
  split.
  - rewrite <- Hsnip. unfold assessReadiness. simpl. rewrite orb_false_r.
    destruct (contains features "CUSTOM_SNIPPET"
              || contains features "SERVER_SNIPPET"); [tauto|].
    split; [|discriminate].
    destruct (_ <=? 10); [discriminate|]. destruct (_ <=? 25); discriminate.
  - intros H. apply Hsnip in H. unfold identifyIssues. rewrite H.
    cbn [fold_left app].
    destruct (negb _ && negb _); destruct (Annotations src !! _); reflexivity.
Qed.

End AnalysisResults.

(** ** Bounds of the complexity score *)

Section Complexity.

Import networkingv1 analyzer analysis.

Lemma complexityMap_weights (f : string) (w : Z) :
  complexityMap !! f = Some w → 0 ≤ w ≤ 10 ∧ f ∈ vocab.weighted.
Proof.
  intros H. unfold complexityMap in H. apply elem_of_list_to_map_2 in H.
  match type of H with
  | _ ∈ ?l =>
      assert (Hall : Forall (λ e : string * Z,
                               0 ≤ e.2 ≤ 10 ∧ e.1 ∈ vocab.weighted) l)
        by (apply (bool_decide_unpack _); vm_compute; exact I)
  end.
  rewrite Forall_forall in Hall. exact (Hall _ H).
Qed.

Lemma weightOf_bounds (f : string) : 0 ≤ vocab.weightOf f ≤ 10.
Proof.
  unfold vocab.weightOf. destruct (complexityMap !! f) as [w|] eqn:H; simpl.
  - apply complexityMap_weights in H. tauto.
  - lia.
Qed.

Lemma weightOf_unweighted (f : string) :
  f ∉ vocab.weighted → vocab.weightOf f = 0.
Proof.
  intros Hf. unfold vocab.weightOf.
  destruct (complexityMap !! f) as [w|] eqn:H; [|reflexivity].
  apply complexityMap_weights in H. tauto.
Qed.

Lemma addWeight_sum (s : Z) (f : string) :
  0 ≤ s → s + 10 ≤ maxInt → addWeight s f = s + vocab.weightOf f.
Proof.
  intros Hs Hfit. pose proof (weightOf_bounds f) as Hw.
  unfold addWeight, vocab.weightOf in *.
  destruct (complexityMap !! f) as [w|]; simpl in *; [|lia].
  apply wrapInt_small. lia.
Qed.

Lemma fold_addWeight_sum (l : list string) :
  ∀ s, 0 ≤ s → s + 10 * Z.of_nat (length l) ≤ maxInt →
       fold_left addWeight l s = s + vocab.sumWeights l.
Proof.
  induction l as [|f r IH]; intros s Hs Hfit.
  - simpl. lia.
  - cbn [fold_left vocab.sumWeights foldr]. fold (vocab.sumWeights r).
    pose proof (weightOf_bounds f) as Hw.
    rewrite length_cons, Nat2Z.inj_succ in Hfit.
    rewrite addWeight_sum by lia. rewrite IH by lia. lia.
Qed.

Lemma sumWeights_nonneg (l : list string) : 0 ≤ vocab.sumWeights l.
Proof.
  induction l as [|f r IH]; [reflexivity|].
  cbn [vocab.sumWeights foldr]. fold (vocab.sumWeights r).
  pose proof (weightOf_bounds f). lia.
Qed.

Lemma sumWeights_submseteq (l k : list string) :
  l ⊆+ k → vocab.sumWeights l ≤ vocab.sumWeights k.
Proof.
  induction 1 as [|x l1 l2 _ IH|x y l1|x l1 l2 _ IH|l1 l2 l3 _ IH1 _ IH2];
    cbn [vocab.sumWeights foldr] in *;
    repeat match goal with
           | |- context [foldr ?f 0 ?l] =>
               change (foldr f 0 l) with (vocab.sumWeights l)
           | H : context [foldr ?f 0 ?l] |- _ =>
               change (foldr f 0 l) with (vocab.sumWeights l) in H
           end.
  - lia.
  - lia.
  - lia.
  - pose proof (weightOf_bounds x). lia.
  - lia.
Qed.

Lemma sumWeights_filter (l : list string) :
  vocab.sumWeights (filter (λ f, f ∈ vocab.weighted) l) = vocab.sumWeights l.
Proof.
  induction l as [|f r IH]; [reflexivity|].
  destruct (decide (f ∈ vocab.weighted)) as [Hin|Hnin].
  - rewrite filter_cons_True by exact Hin.
    cbn [vocab.sumWeights foldr]. fold (vocab.sumWeights r).
    fold (vocab.sumWeights (filter (λ f, f ∈ vocab.weighted) r)).
    rewrite IH. reflexivity.
  - rewrite filter_cons_False by exact Hnin.
    cbn [vocab.sumWeights foldr]. fold (vocab.sumWeights r).
    rewrite IH, (weightOf_unweighted f Hnin). lia.
Qed.

Lemma sumWeights_NoDup (l : list string) :
  NoDup l → vocab.sumWeights l ≤ 64.
Proof.
  intros Hnd. rewrite <- sumWeights_filter.
  transitivity (vocab.sumWeights vocab.weighted).
  - apply sumWeights_submseteq, NoDup_submseteq.
    + apply NoDup_filter, Hnd.
    + intros x Hx. apply list_elem_of_filter in Hx. tauto.
  - vm_compute. discriminate.
Qed.

Lemma checkAnnotation_length (annotations : gmap string string)
    (entries : list (string * string)) :
  ∀ features,
  (length (fold_left (checkAnnotation annotations) entries features)
   ≤ length features + length entries)%nat.
Proof.
  induction entries as [|[ann feature] rest IH]; intros features.
  - simpl. lia.
  - cbn [fold_left]. etransitivity; [apply IH|].
    unfold checkAnnotation. destruct (annotations !! ann); [|simpl; lia].
    destruct (negb _); [rewrite length_app|]; simpl; lia.
Qed.

Lemma detectFeatures_length (ro : MapRange string) (src : Source) :
  (length (detectFeatures ro src) ≤ 24)%nat.
Proof.
  unfold detectFeatures.
  pose proof (checkAnnotation_length (Annotations src) (ro annotationChecks) [])
    as Hlen.
  rewrite (Permutation_length (map_range_perm ro annotationChecks)) in Hlen.
  change (length annotationChecks) with 22%nat in Hlen. simpl in Hlen.
  destruct (0 <? length (TLS src))%nat; destruct (DefaultBackend src);
    rewrite ?length_app; simpl; lia.
Qed.

(** X21. The complexity score of a source is at least two per rule and three
    per TLS entry, and at most 64 more: a feature adds its weight once,
    however many annotations show it.  So a source that is classed READY
    has a base score of at most 10, that is at most five rules; and one
    classed MOSTLY_READY a base score of at most 25. *)
Theorem complexity_bounds (roHosts : MapRange bool) (roChecks : MapRange string)
    (src : Source) :
  Z.of_nat (length (Rules src)) < 2 ^ 60 →
  Z.of_nat (length (TLS src)) < 2 ^ 60 →
  vocab.baseScore src
  ≤ ComplexityScore (analyzeIngress roHosts roChecks src)
  ≤ vocab.baseScore src + 64
  ∧ (MigrationReadiness (analyzeIngress roHosts roChecks src) = "READY" →
     vocab.baseScore src ≤ 10)
  ∧ (MigrationReadiness (analyzeIngress roHosts roChecks src) = "MOSTLY_READY" →
     vocab.baseScore src ≤ 25).
Proof.
  intros Hrules Htls. unfold analyzeIngress.
  destruct (countHostsAndPaths (Rules src) ∅ 0) as [hostMap pathCount].
  cbn [ComplexityScore MigrationReadiness].
  destruct (detectFeatures_spec roChecks src) as [Hnd _].
  pose proof (detectFeatures_length roChecks src) as Hlen.
  set (features := detectFeatures roChecks src) in *.
  assert (Hscore : calculateComplexity src features
                   = vocab.baseScore src + vocab.sumWeights features).
  { unfold calculateComplexity, vocab.baseScore.
    assert (H2 : 2 ^ 60 = 1152921504606846976) by reflexivity.
    assert (Hmax : maxInt = 9223372036854775807) by reflexivity.
    rewrite Z.add_0_l.
    rewrite (wrapInt_small (Z.of_nat (length (Rules src)) * 2)) by lia.
    rewrite (wrapInt_small (Z.of_nat (length (Rules src)) * 2)) by lia.
    rewrite (wrapInt_small (Z.of_nat (length (TLS src)) * 3)) by lia.
    rewrite wrapInt_small by lia.
    rewrite fold_addWeight_sum by lia. lia. }
  rewrite Hscore.
  pose proof (sumWeights_nonneg features) as Hlow.
  pose proof (sumWeights_NoDup features Hnd) as Hhigh.
  split; [lia|]. unfold assessReadiness.
  destruct (existsb _ _); [split; discriminate|].
  destruct (Z.leb_spec (vocab.baseScore src + vocab.sumWeights features) 10).
  - split; [lia | discriminate].
  - destruct (Z.leb_spec (vocab.baseScore src + vocab.sumWeights features) 25);
      split; try discriminate. lia.
Qed.

Lemma complexity_bounds_witness :
  7 ≤ ComplexityScore (analyzeIngress moresamples.listed moresamples.listed
                         moresamples.withTLS) ≤ 71.
Proof.
  apply (complexity_bounds moresamples.listed moresamples.listed
           moresamples.withTLS); vm_compute; reflexivity.
Defined.

End Complexity.

(** ** The totals of a batch run *)

Section BatchCommand.

Import networkingv1 converter batch.

Lemma Convert_single (ro : RangeOrder) (c : Converter) (ing : Ingress) :
  Convert ro c [IngressRes ing]
  = match convertIngress ro c ing with
    | Ok routes => Ok routes
    | Err err =>
        Err ("failed to convert ingress " +:+ Name ing +:+ ": " +:+ err)
    | Panic => Panic
    end.
Proof. unfold Convert. simpl. destruct (convertIngress ro c ing); reflexivity. Qed.

Lemma writeRoutes_writable (ns : Namespace) (n : nat)
    (routes : list gatewayv1.HTTPRoute) :
  vocab.filesWritable ns →
  ∀ i t, 0 ≤ totalConverted t →
         totalConverted t + Z.of_nat (length routes) ≤ maxInt →
         writeRoutes ns n i routes t
         = {| totalConverted := totalConverted t + Z.of_nat (length routes);
              totalFailed := totalFailed t |}.
Proof.
  intros Hfiles. induction routes as [|hr rest IH]; intros i t H0 Hfit.
  - simpl. rewrite Z.add_0_r. destruct t; reflexivity.
  - cbn [writeRoutes]. destruct (Hfiles n i) as [-> ->]. cbn [negb].
    rewrite length_cons, Nat2Z.inj_succ in Hfit |- *.
    unfold converted. rewrite wrapInt_small by lia.
    rewrite IH by (simpl; lia). simpl. f_equal. lia.
Qed.

Lemma convertEach_totals (ro : RangeOrder) (c : Converter) (ns : Namespace)
    (ingresses : list Ingress) :
  vocab.filesWritable ns →
  ∀ n t,
  0 ≤ totalConverted t → 0 ≤ totalFailed t →
  totalConverted t
  + Z.of_nat (length (vocab.routesOf (convertIngress ro c <$> ingresses)))
  ≤ maxInt →
  totalFailed t + Z.of_nat (length ingresses) ≤ maxInt →
  convertEach ro c ns n ingresses t
  = if existsb vocab.isPanic (convertIngress ro c <$> ingresses) then Panic
    else Ok {| totalConverted :=
                 totalConverted t
                 + Z.of_nat (length (vocab.routesOf
                                       (convertIngress ro c <$> ingresses)));
               totalFailed :=
                 totalFailed t
                 + Z.of_nat (length (vocab.errorsOf
                                       (convertIngress ro c <$> ingresses))) |}.
Proof.
  intros Hfiles. induction ingresses as [|ing rest IH]; intros n t Hc Hf Hfitc Hfitf.
  - simpl. rewrite !Z.add_0_r. destruct t; reflexivity.
  - cbn [convertEach]. rewrite Convert_single, fmap_cons.
    unfold vocab.routesOf, vocab.errorsOf in *.
    rewrite fmap_cons, bind_cons, length_app, Nat2Z.inj_add in Hfitc.
    rewrite length_cons, Nat2Z.inj_succ in Hfitf.
    rewrite !bind_cons, !length_app, !Nat2Z.inj_add. cbn [existsb].
    destruct (convertIngress ro c ing) as [routes|e|]; cbn [vocab.isPanic orb].
    + rewrite (writeRoutes_writable ns n routes Hfiles) by lia.
      rewrite IH by (simpl; lia). simpl.
      destruct (existsb _ _); [reflexivity|]. do 2 f_equal; lia.
    + unfold failed. rewrite wrapInt_small by lia.
      rewrite IH by (simpl in *; lia). simpl.
      destruct (existsb _ _); [reflexivity|]. do 2 f_equal; lia.
    + reflexivity.
Qed.

Lemma errorsOf_length {A} (outcomes : list (result A)) :
  (length (vocab.errorsOf outcomes) ≤ length outcomes)%nat.
Proof.
  induction outcomes as [|o r IH]; [reflexivity|].
  unfold vocab.errorsOf in *. rewrite bind_cons, length_app.
  destruct o; simpl; lia.
Qed.

Lemma processNamespaces_cons (ro : RangeOrder) (c : Converter)
    (ns : Namespace) (rest : list Namespace) (t : Totals) :
  processNamespaces ro c (ns :: rest) t
  = (t ← convertEach ro c ns 0 (vocab.namespaceItems ns) t;
     processNamespaces ro c rest t).
Proof.
  cbn [processNamespaces]. unfold vocab.namespaceItems.
  destruct (ListIngresses ns) as [[|ing ings]|]; [| |reflexivity];
    destruct (MkdirAll ns); reflexivity.
Qed.

Lemma processNamespaces_totals (ro : RangeOrder) (c : Converter)
    (namespaces : list Namespace) :
  Forall vocab.filesWritable namespaces →
  ∀ t,
  0 ≤ totalConverted t → 0 ≤ totalFailed t →
  totalConverted t
  + Z.of_nat (length (vocab.routesOf
                        (convertIngress ro c <$> vocab.batchItems namespaces)))
  ≤ maxInt →
  totalFailed t + Z.of_nat (length (vocab.batchItems namespaces)) ≤ maxInt →
  processNamespaces ro c namespaces t
  = if existsb vocab.isPanic
         (convertIngress ro c <$> vocab.batchItems namespaces)
    then Panic
    else Ok {| totalConverted :=
                 totalConverted t
                 + Z.of_nat (length (vocab.routesOf
                      (convertIngress ro c <$> vocab.batchItems namespaces)));
               totalFailed :=
                 totalFailed t
                 + Z.of_nat (length (vocab.errorsOf
                      (convertIngress ro c <$> vocab.batchItems namespaces))) |}.
Proof.
  induction 1 as [|ns rest Hfiles _ IH]; intros t Hc Hf Hfitc Hfitf.
  - simpl. rewrite !Z.add_0_r. destruct t; reflexivity.
  - rewrite processNamespaces_cons. unfold vocab.batchItems in *.
    rewrite bind_cons, fmap_app in *.
    set (here := convertIngress ro c <$> vocab.namespaceItems ns) in *.
    set (more := convertIngress ro c <$> rest ≫= vocab.namespaceItems) in *.
    assert (Hr : vocab.routesOf (here ++ more)
                 = vocab.routesOf here ++ vocab.routesOf more)
      by apply bind_app.
    assert (He : vocab.errorsOf (here ++ more)
                 = vocab.errorsOf here ++ vocab.errorsOf more)
      by apply bind_app.
    rewrite Hr, He, !length_app, !Nat2Z.inj_add, existsb_app in *.
    pose proof (errorsOf_length here) as Herr.
    unfold here in Herr at 2. rewrite length_fmap in Herr.
    rewrite (convertEach_totals ro c ns (vocab.namespaceItems ns) Hfiles)
      by (fold here; lia).
    fold here. destruct (existsb vocab.isPanic here); [reflexivity|].
    cbn [mbind result_bind orb].
    rewrite IH by (simpl; lia). simpl.
    destruct (existsb _ _); [reflexivity|]. do 2 f_equal; lia.
Qed.

(** X22. A batch run converts each Ingress on its own.  When every file can
    be written, it ends in a panic if the conversion of some Ingress
    panics, and otherwise counts one success for every route of every
    Ingress that converts and one failure for every Ingress whose
    conversion returns an error: such an Ingress does not stop the
    others.  With one of the three split modes no conversion returns an
    error, so that nothing is counted as failed. *)
Theorem runBatch_totals (ro : RangeOrder) (splitMode gatewayClass : string)
    (namespaces : list Namespace) :
  Forall vocab.filesWritable namespaces →
  Z.of_nat (length (vocab.batchItems namespaces))
  + Z.of_nat (length (vocab.routesOf
                        (vocab.batchOutcomes ro splitMode gatewayClass
                           namespaces)))
  ≤ maxInt →
  runBatch ro splitMode gatewayClass namespaces
  = (if existsb vocab.isPanic
          (vocab.batchOutcomes ro splitMode gatewayClass namespaces)
     then Panic
     else Ok {| totalConverted :=
                  Z.of_nat (length (vocab.routesOf
                     (vocab.batchOutcomes ro splitMode gatewayClass
                        namespaces)));
                totalFailed :=
                  Z.of_nat (length (vocab.errorsOf
                     (vocab.batchOutcomes ro splitMode gatewayClass
                        namespaces))) |})
  ∧ (splitMode = "single" ∨ splitMode = "per-host"
     ∨ splitMode = "per-pattern" →
     vocab.errorsOf (vocab.batchOutcomes ro splitMode gatewayClass namespaces)
     = []).
Proof.
  intros Hfiles Hfit. unfold vocab.batchOutcomes in *. split.
  - unfold runBatch. fold (vocab.batchConverter splitMode gatewayClass).
    rewrite (processNamespaces_totals ro _ namespaces Hfiles);
      cbn [totalConverted totalFailed]; [reflexivity | lia..].
  - intros Hmode. clear Hfit. unfold vocab.errorsOf.
    induction (vocab.batchItems namespaces) as [|ing rest IH];
      [reflexivity|].
    rewrite fmap_cons, bind_cons, IH, app_nil_r.
    destruct (convertIngress ro (vocab.batchConverter splitMode gatewayClass)
                ing) as [routes|e|] eqn:Hing; try reflexivity.
    apply convertIngress_Err in Hing as (H1 & H2 & H3 & _).
    simpl in H1, H2, H3. destruct Hmode as [?|[?|?]]; contradiction.
Qed.

Lemma runBatch_totals_witness :
  runBatch samples.inListedOrder "per-host" "nginx" [moresamples.twoIngresses]
  = Ok {| totalConverted := 4; totalFailed := 0 |}.
Proof.
  refine (proj1 (runBatch_totals samples.inListedOrder "per-host" "nginx"
                   [moresamples.twoIngresses] _ _)).
  - constructor; [|constructor]. intros n i. split; reflexivity.
  - vm_compute. discriminate.
Defined.

End BatchCommand.
